(** * A shallow embedding of the HTML minifier (package html, html.go)

    The development follows the source file top to bottom: byte-slice
    helpers of the libraries the file imports, [isAtQuoteEntity],
    [escapeAttrVal], the token buffer, [getAttributes] and the main loop of
    [Minify].  Byte slices are lists of bytes, Go's run-time panics and
    early returns are explicit results. *)

From Stdlib Require Import Strings.Byte Strings.String.
From Stdlib Require Import Lia.
From stdpp Require Import base list.

Set Default Proof Using "Type".

(** ** Byte slices *)

Abbreviation bytes := (list byte).

(** [bs "..."] is the Go literal [[]byte("...")]. *)
Definition bs (s : string) : bytes := list_byte_of_string s.

Definition dquote : byte := x22.
Definition squote : byte := x27.

Definition beq (x y : byte) : bool := Byte.eqb x y.

Fixpoint bytes_eqb (a b : bytes) : bool :=
  match a, b with
  | [], [] => true
  | x :: a', y :: b' => beq x y && bytes_eqb a' b'
  | _, _ => false
  end.

(** [b[i] == c], false when [i] is out of range (every use in the source is
    guarded by a length test that makes the index valid). *)
Definition isAt (b : bytes) (i : nat) (c : byte) : bool :=
  match b !! i with
  | Some x => beq x c
  | None => false
  end.

(** ** The functions html.go takes from its imports

    [bytes.HasPrefix], [bytes.HasSuffix], [bytes.Replace] of the Go standard
    library and [IsWhitespace], [IsAllWhitespace], [Trim], [ReplaceMultiple],
    [Equal], [EqualCaseInsensitive], [ToLower] of the parse package.  They
    are functions from values to values here: where the library works in
    place, the slice it returns is the value that html.go goes on with. *)

Fixpoint HasPrefix (s p : bytes) {struct p} : bool :=
  match p, s with
  | [], _ => true
  | c :: p', x :: s' => beq x c && HasPrefix s' p'
  | _ :: _, [] => false
  end.

Definition HasSuffix (s p : bytes) : bool := HasPrefix (rev s) (rev p).

(** [bytes.Replace(s, old, new, -1)] for a non-empty [old]: every
    non-overlapping occurrence is replaced, scanning from the left.  [skip]
    counts the bytes of the occurrence still to pass over. *)
Fixpoint ReplaceFrom (skip : nat) (s old new : bytes) : bytes :=
  match s with
  | [] => []
  | x :: s' =>
      match skip with
      | S k => ReplaceFrom k s' old new
      | O =>
          if HasPrefix s old
          then new ++ ReplaceFrom (length old - 1) s' old new
          else x :: ReplaceFrom 0 s' old new
      end
  end.

Definition Replace (s old new : bytes) : bytes := ReplaceFrom 0 s old new.

(** [parse.IsWhitespace]: space, tab, line feed, form feed, carriage return. *)
Definition IsWhitespace (c : byte) : bool :=
  beq c " " || beq c x09 || beq c x0a || beq c x0c || beq c x0d.

Definition IsAllWhitespace (b : bytes) : bool := forallb IsWhitespace b.

Fixpoint TrimLeft (b : bytes) (f : byte -> bool) : bytes :=
  match b with
  | c :: b' => if f c then TrimLeft b' f else b
  | [] => []
  end.

(** [parse.Trim(b, f)]: drops the bytes satisfying [f] at both ends. *)
Definition Trim (b : bytes) (f : byte -> bool) : bytes :=
  rev (TrimLeft (rev (TrimLeft b f)) f).

(** [parse.ReplaceMultiple(b, f, r)]: every maximal run of bytes satisfying
    [f] becomes the single byte [r].  [prevMatch] says that the previous byte
    belonged to a run. *)
Fixpoint ReplaceMultipleFrom (prevMatch : bool) (b : bytes) (f : byte -> bool)
    (r : byte) : bytes :=
  match b with
  | [] => []
  | c :: b' =>
      if f c
      then if prevMatch then ReplaceMultipleFrom true b' f r
           else r :: ReplaceMultipleFrom true b' f r
      else c :: ReplaceMultipleFrom false b' f r
  end.

Definition ReplaceMultiple (b : bytes) (f : byte -> bool) (r : byte) : bytes :=
  ReplaceMultipleFrom false b f r.

Definition Equal (s m : bytes) : bool := bytes_eqb s m.

Definition isUpper (c : byte) : bool :=
  (N.leb 65 (Byte.to_N c) && N.leb (Byte.to_N c) 90)%N.

(** ASCII lower-casing of one byte: [c + ('a' - 'A')] for 'A'..'Z'. *)
Definition lowerByte (c : byte) : byte :=
  if isUpper c
  then match Byte.of_N (Byte.to_N c + 32) with Some d => d | None => c end
  else c.

(** [parse.ToLower]. *)
Definition ToLower (b : bytes) : bytes := map lowerByte b.

(** [parse.EqualCaseInsensitive(s, match)], [match] being lower case: the
    lengths agree and every byte of [s] is the byte of [match] or its upper
    case form. *)
Fixpoint EqualCaseInsensitive (s m : bytes) : bool :=
  match s, m with
  | [], [] => true
  | d :: s', c :: m' =>
      (beq d c || (isUpper d && beq (lowerByte d) c)) && EqualCaseInsensitive s' m'
  | _, _ => false
  end.

(** ** isAtQuoteEntity (html.go, lines 414-453) *)

(** The loop [for i < len(b) && b[i] == '0' { i++ }], started at index [i]:
    [l] is [b[i:]] and the result is the final [i]. *)
Fixpoint skipZeros (l : bytes) (i : nat) : nat :=
  match l with
  | c :: l' => if beq c "0" then skipZeros l' (S i) else i
  | [] => i
  end.

(** The Go function returns [(quote, n, ok)]; [None] is [ok = false]. *)
Definition isAtQuoteEntity (b : bytes) : option (byte * nat) :=
  if length b <? 5 then None
  else if isAt b 1 "#" then
    if isAt b 2 "x" then
      let i := skipZeros (drop 3 b) 3 in
      if (i + 2 <? length b) && isAt b i "2" && isAt b (i + 2) ";" then
        if isAt b (i + 1) "2" then Some (dquote, i + 3)
        else if isAt b (i + 1) "7" then Some (squote, i + 3)
        else None
      else None
    else
      let i := skipZeros (drop 2 b) 2 in
      if (i + 2 <? length b) && isAt b i "3" && isAt b (i + 2) ";" then
        if isAt b (i + 1) "4" then Some (dquote, i + 3)
        else if isAt b (i + 1) "9" then Some (squote, i + 3)
        else None
      else None
  else if (6 <=? length b) && isAt b 5 ";" then
    if EqualCaseInsensitive (take 4 (drop 1 b)) (bs "quot") then Some (dquote, 6)
    else if EqualCaseInsensitive (take 4 (drop 1 b)) (bs "apos") then Some (squote, 6)
    else None
  else None.

(** ** escapeAttrVal (html.go, lines 455-523) *)

(** A Go call either returns a value or stops with a run-time panic. *)
Inductive outcome (A : Type) : Type :=
| Returns (a : A)
| Panics.
Arguments Returns {A} a.
Arguments Panics {A}.

Record quoteCount := mkCount {
  singles : nat;
  doubles : nat;
  unquoted : bool
}.

(** The first loop, lines 460-480; [l] is [b[i:]]. *)
Fixpoint countQuotes (l : bytes) (k : quoteCount) : quoteCount :=
  match l with
  | [] => k
  | c :: l' =>
      countQuotes l'
        (if beq c "&" then
           match isAtQuoteEntity l with
           | Some (quote, _) =>
               if beq quote dquote
               then mkCount (singles k) (S (doubles k)) false
               else mkCount (S (singles k)) (doubles k) false
           | None => k
           end
         else if beq c dquote then mkCount (singles k) (S (doubles k)) false
         else if beq c squote then mkCount (S (singles k)) (doubles k) false
         else if unquoted k &&
                 (beq c "`" || beq c "<" || beq c "=" || beq c ">" || IsWhitespace c)
              then mkCount (singles k) (doubles k) false
         else k)
  end.

(** [copy(t[j:], src)]: Go copies [min(len(t)-j, len(src))] bytes and returns
    that number; the buffer keeps its length. *)
Definition copyAt (t : bytes) (j : nat) (src : bytes) : bytes * nat :=
  let n := Nat.min (length t - j) (length src) in
  (take j t ++ take n src ++ drop (j + n) t, n).

Record escState := mkEsc {
  esc_t : bytes;      (* the buffer t *)
  esc_j : nat;        (* j *)
  esc_start : nat     (* start *)
}.

(** The second loop, lines 503-519: [l] is [b[i:]] and [i] the index.
    [b[start:i]] is [take (i - start) (drop start b)]; [start] is ahead of [i]
    only inside an entity, whose bytes are neither '&' nor a quote (lemma
    [isAtQuoteEntity_body]), so the slice is never taken there. *)
Fixpoint escapeLoop (b l : bytes) (i : nat) (quote : byte) (escapedQuote : bytes)
    (s : escState) : escState :=
  match l with
  | [] => s
  | c :: l' =>
      escapeLoop b l' (S i) quote escapedQuote
        (if beq c "&" then
           match isAtQuoteEntity l with
           | Some (entityQuote, n) =>
               let '(t1, n1) :=
                 copyAt (esc_t s) (esc_j s) (take (i - esc_start s) (drop (esc_start s) b)) in
               let j1 := esc_j s + n1 in
               let '(t2, n2) :=
                 if negb (beq entityQuote quote)
                 then copyAt t1 j1 [entityQuote]
                 else copyAt t1 j1 escapedQuote in
               mkEsc t2 (j1 + n2) (i + n)
           | None => s
           end
         else if beq c quote then
           let '(t1, n1) :=
             copyAt (esc_t s) (esc_j s) (take (i - esc_start s) (drop (esc_start s) b)) in
           let j1 := esc_j s + n1 in
           let '(t2, n2) := copyAt t1 j1 escapedQuote in
           mkEsc t2 (j1 + n2) (S i)
         else s)
  end.

Definition escapedSingleQuoteBytes : bytes := bs "&#39;".
Definition escapedDoubleQuoteBytes : bytes := bs "&#34;".

(** The scratch buffer [buf] is only a place to build the result: [t] is its
    first [len(b)+2] bytes (a fresh array when the capacity is too small), and
    no byte of [t] is read before it is written, so [t] starts here as zeros.
    [t[j] = quote] panics when [j] is not below [len(t)]. *)
Definition escapeAttrVal (orig b : bytes) : outcome bytes :=
  let k := countQuotes b (mkCount 0 0 true) in
  if unquoted k then Returns b
  else if (singles k =? 0) && (doubles k =? 0) && (length orig =? length b + 2)
  then Returns orig
  else
    let '(quote, escapedQuote) :=
      if singles k <? doubles k
      then (squote, escapedSingleQuoteBytes)
      else (dquote, escapedDoubleQuoteBytes) in
    let t := <[0 := quote]> (replicate (length b + 2) x00) in
    let s := escapeLoop b b 0 quote escapedQuote (mkEsc t 1 0) in
    let '(t1, n1) := copyAt (esc_t s) (esc_j s) (drop (esc_start s) b) in
    let j := esc_j s + n1 in
    if j <? length t1
    then Returns (take (j + 1) (<[j := quote]> t1))
    else Panics.

(** ** Tokens (package parse/html and the Token struct of this package) *)

Module html.

(** The token types of the tokenizer.  [Minify] has no case for the last
    two, which end a start tag after its attributes. *)
Inductive TokenType : Set :=
| ErrorToken
| CommentToken
| DoctypeToken
| StartTagToken
| EndTagToken
| AttributeToken
| TextToken
| StartTagCloseToken
| StartTagVoidToken.

(** [html.Hash]: [Zero] is the value 0 (an unknown name, and "no raw tag"),
    the named constants are those html.go mentions, [Other n] is any other
    known name. *)
Inductive Hash : Set :=
| Zero
| A | Accept | Action | Body | Button | Charset | Class | Clear | Codetype
| Colgroup | Colspan | Content | Dd | Dir | Dt | Enctype | Form | Frameborder
| Head | Href | Html | Http_Equiv | Id | Iframe | Input | Lang | Language | Li
| Link | Math | Media | Meta | Method | Name | Object | Optgroup | Option | P
| Param | Rb | Rel | Rowspan | Rp | Rt | Rtc | Scrolling | Script | Shape
| Source | Span | Src | Style | Svg | Tbody | Td | Tfoot | Th | Thead | Title
| Tr | Type_ | Value | Valuetype
| Other (n : nat).

End html.

Global Instance TokenType_eq_dec : EqDecision html.TokenType.
Proof. solve_decision. Defined.

Global Instance Hash_eq_dec : EqDecision html.Hash.
Proof. solve_decision. Defined.

Definition heq (a b : html.Hash) : bool := bool_decide (a = b).
Definition teq (a b : html.TokenType) : bool := bool_decide (a = b).

(** [Data] is [None] for Go's nil slice, which the attribute loop tests
    ([attr.Data == nil]); [len(nil)] is 0 and writing nil writes nothing. *)
Record Token := mkToken {
  TokenType : html.TokenType;
  Data : option bytes;
  AttrVal : bytes;
  Hash : html.Hash
}.

Definition data (t : Token) : bytes :=
  match Data t with
  | Some d => d
  | None => []
  end.
Definition setAttrVal (t : Token) (v : bytes) : Token :=
  mkToken (TokenType t) (Data t) v (Hash t).
Definition setData (t : Token) (d : option bytes) : Token :=
  mkToken (TokenType t) d (AttrVal t) (Hash t).

(** ** The token buffer *)

(** Modelled from the spec: the TokenBuffer type of this package (NewTokenBuffer,
    Shift, Peek) is not in html.go.  Section 4.1: next() returns and consumes
    the next token; peek(i) returns the token i positions ahead without
    consuming anything.  The buffer is the list of the tokens not yet
    consumed.  At the end of the stream and at a tokenizer error the token is
    an [ErrorToken], and nothing lies behind an [ErrorToken].  Both calls
    return a pointer into the buffer: a pointer is the position of its token,
    and a position at or behind the end of the list is the final
    [ErrorToken] (writing its fields has no effect on what is read later). *)
Definition errorToken : Token := mkToken html.ErrorToken None [] html.Zero.

Definition tokAt (l : list Token) (p : nat) : Token :=
  match l !! p with
  | Some t => t
  | None => errorToken
  end.

Fixpoint peekIdx (l : list Token) (i : nat) : nat :=
  match l with
  | [] => 0
  | t :: l' =>
      if teq (TokenType t) html.ErrorToken then 0
      else match i with
           | 0 => 0
           | S i' => S (peekIdx l' i')
           end
  end.

Definition Peek (l : list Token) (i : nat) : Token := tokAt l (peekIdx l i).

Definition Shift (l : list Token) : Token * list Token :=
  match l with
  | [] => (errorToken, [])
  | t :: l' => if teq (TokenType t) html.ErrorToken then (t, l) else (t, l')
  end.

(** ** getAttributes (html.go, lines 380-412) *)

(** Lines 393-397: [attrIndexBuffer[j] = i + 1] for every [j] whose hash
    is the token's. *)
Definition markIndex (hashes : list html.Hash) (h : html.Hash) (i : nat)
    (idx : list nat) : list nat :=
  zip_with (fun hash old => if heq h hash then i + 1 else old) hashes idx.

(** The first loop, lines 387-399; [l] is the buffer from position [i] on. *)
Fixpoint scanAttributes (l : list Token) (i : nat) (hashes : list html.Hash)
    (idx : list nat) : list nat :=
  match l with
  | [] => idx
  | t :: l' =>
      if teq (TokenType t) html.AttributeToken
      then scanAttributes l' (S i) hashes (markIndex hashes (Hash t) i idx)
      else idx
  end.

(** Lines 403-405: the in-place unwrapping of a quoted value. *)
Definition unwrapAttrVal (v : bytes) : bytes :=
  if (1 <? length v) && (isAt v 0 dquote || isAt v 0 squote)
  then Trim (take (length v - 2) (drop 1 v)) IsWhitespace
  else v.

(** The second loop, lines 400-410, over the index slots in order: the
    buffer is updated in place and the result holds, per slot, a pointer or
    nil. *)
Fixpoint fetchAttributes (idx : list nat) (l : list Token)
    : list Token * list (option nat) :=
  match idx with
  | [] => (l, [])
  | i :: idx' =>
      if 0 <? i then
        let p := peekIdx l (i - 1) in
        let l1 := <[p := setAttrVal (tokAt l p) (unwrapAttrVal (AttrVal (tokAt l p)))]> l in
        let '(l2, ptrs) := fetchAttributes idx' l1 in
        (l2, Some p :: ptrs)
      else
        let '(l2, ptrs) := fetchAttributes idx' l in
        (l2, None :: ptrs)
  end.

(** [attrIndexBuffer] is the backing array of the index scratch slice, which
    [Minify] allocates once with capacity 4.  It is resliced, not cleared:
    a slot that no attribute of this tag sets keeps the index an earlier call
    left there.  The token scratch slice is rewritten in every slot and needs
    no state.  Result: the buffer, the index array, the pointers. *)
Definition getAttributes (l : list Token) (attrIndexBuffer : list nat)
    (hashes : list html.Hash) : list Token * list nat * list (option nat) :=
  let buf :=
    if length attrIndexBuffer <? length hashes
    then replicate (length hashes) 0
    else attrIndexBuffer in
  let idx := scanAttributes l 0 hashes (take (length hashes) buf) in
  let '(l', ptrs) := fetchAttributes idx l in
  (l', idx ++ drop (length hashes) buf, ptrs).

(** ** Minify (html.go, lines 27-376) *)

(** Go error values: [EOF] is io.EOF, [ErrNotExist] is minify.ErrNotExist,
    [ErrOther n] any other error. *)
Inductive error : Set :=
| EOF
| ErrNotExist
| ErrOther (n : nat).

Global Instance error_eq_dec : EqDecision error.
Proof. solve_decision. Defined.

(** The variables of [Minify] that live across iterations of its loop, the
    token buffer [tb] and the bytes written to [w] so far. *)
Record State := mkState {
  tb : list Token;
  w : bytes;
  rawTag : html.Hash;
  rawTagMediatype : bytes;
  precededBySpace : bool;
  defaultScriptType : bytes;
  defaultStyleType : bytes;
  defaultInlineStyleType : bytes;
  attrIntBuffer : list nat
}.

Definition setTb (s : State) (l : list Token) : State :=
  mkState l (w s) (rawTag s) (rawTagMediatype s) (precededBySpace s)
    (defaultScriptType s) (defaultStyleType s) (defaultInlineStyleType s)
    (attrIntBuffer s).
Definition setW (s : State) (o : bytes) : State :=
  mkState (tb s) o (rawTag s) (rawTagMediatype s) (precededBySpace s)
    (defaultScriptType s) (defaultStyleType s) (defaultInlineStyleType s)
    (attrIntBuffer s).
Definition setRawTag (s : State) (h : html.Hash) : State :=
  mkState (tb s) (w s) h (rawTagMediatype s) (precededBySpace s)
    (defaultScriptType s) (defaultStyleType s) (defaultInlineStyleType s)
    (attrIntBuffer s).
Definition setRawTagMediatype (s : State) (v : bytes) : State :=
  mkState (tb s) (w s) (rawTag s) v (precededBySpace s)
    (defaultScriptType s) (defaultStyleType s) (defaultInlineStyleType s)
    (attrIntBuffer s).
Definition setPrecededBySpace (s : State) (p : bool) : State :=
  mkState (tb s) (w s) (rawTag s) (rawTagMediatype s) p
    (defaultScriptType s) (defaultStyleType s) (defaultInlineStyleType s)
    (attrIntBuffer s).
Definition setDefaultScriptType (s : State) (v : bytes) : State :=
  mkState (tb s) (w s) (rawTag s) (rawTagMediatype s) (precededBySpace s)
    v (defaultStyleType s) (defaultInlineStyleType s) (attrIntBuffer s).
Definition setDefaultStyleType (s : State) (v : bytes) : State :=
  mkState (tb s) (w s) (rawTag s) (rawTagMediatype s) (precededBySpace s)
    (defaultScriptType s) v (v ++ bs ";inline=1") (attrIntBuffer s).
Definition setAttrIntBuffer (s : State) (b : list nat) : State :=
  mkState (tb s) (w s) (rawTag s) (rawTagMediatype s) (precededBySpace s)
    (defaultScriptType s) (defaultStyleType s) (defaultInlineStyleType s) b.

(** One piece of [Minify]'s body either goes on with a value ([Val]), makes
    [Minify] return ([Ret], with nil or an error), or panics ([Crash]). *)
Inductive res (A : Type) : Type :=
| Val (a : A) (s : State)
| Ret (e : option error) (s : State)
| Crash (s : State).
Arguments Val {A} a s.
Arguments Ret {A} e s.
Arguments Crash {A} s.

Definition M (A : Type) : Type := State -> res A.

Definition ret {A} (a : A) : M A := fun s => Val a s.

Definition bind {A B} (c : M A) (k : A -> M B) : M B :=
  fun s =>
    match c s with
    | Val a s' => k a s'
    | Ret e s' => Ret e s'
    | Crash s' => Crash s'
    end.

Declare Scope go_scope.
Delimit Scope go_scope with go.
Notation "'let*' x := c 'in' k" := (bind c (fun x => k))
  (at level 10, x name, c at level 100, k at level 200) : go_scope.
Notation "c ;; k" := (bind c (fun _ => k))
  (at level 100, k at level 200, right associativity) : go_scope.

(** Lines 56-64: the bytes of a comment token. *)
Definition commentBytes (d : bytes) : bytes :=
  if HasPrefix d (bs "[if") then bs "<!--" ++ d ++ bs "-->"
  else if HasSuffix d (bs "--") then bs "<!" ++ d ++ bs ">"
  else [].

(** Lines 228-234 and 355-361: an http: or https: prefix is cut off. *)
Definition stripScheme (v : bytes) : bytes :=
  if (5 <? length v) && EqualCaseInsensitive (take 4 v) (bs "http") then
    if isAt v 4 ":" then drop 5 v
    else if (isAt v 4 "s" || isAt v 4 "S") && isAt v 5 ":" then drop 6 v
    else v
  else v.

(** Line 89. *)
Definition isCDATA (trimmedData : bytes) : bool :=
  (12 <? length trimmedData)
  && bytes_eqb (take 9 trimmedData) (bs "<![CDATA[")
  && bytes_eqb (drop (length trimmedData - 3) trimmedData) (bs "]]>").

(** Lines 287-296. *)
Definition omitEmpty (t attr : Token) : bool :=
  heq (Hash attr) html.Class
  || heq (Hash attr) html.Dir
  || heq (Hash attr) html.Id
  || heq (Hash attr) html.Lang
  || heq (Hash attr) html.Name
  || heq (Hash attr) html.Style
  || heq (Hash attr) html.Title
  || heq (Hash attr) html.Action && heq (Hash t) html.Form
  || heq (Hash attr) html.Value && heq (Hash t) html.Input
  || (2 <? length (data attr)) && isAt (data attr) 0 "o" && isAt (data attr) 1 "n".

(** Line 301. *)
Definition isContentTypeAttr (t attr : Token) : bool :=
  heq (Hash attr) html.Enctype
  || heq (Hash attr) html.Codetype
  || heq (Hash attr) html.Accept
  || heq (Hash attr) html.Type_
     && (heq (Hash t) html.A || heq (Hash t) html.Link || heq (Hash t) html.Object
         || heq (Hash t) html.Param || heq (Hash t) html.Script
         || heq (Hash t) html.Style || heq (Hash t) html.Source).

(** Lines 310-326. *)
Definition isDefaultValue (t attr : Token) (val : bytes) : bool :=
  heq (Hash attr) html.Type_
  && (heq (Hash t) html.Script && Equal val (bs "text/javascript")
      || heq (Hash t) html.Style && Equal val (bs "text/css")
      || heq (Hash t) html.Link && Equal val (bs "text/css")
      || heq (Hash t) html.Input && Equal val (bs "text")
      || heq (Hash t) html.Button && Equal val (bs "submit"))
  || heq (Hash attr) html.Language && heq (Hash t) html.Script
  || heq (Hash attr) html.Method && Equal val (bs "get")
  || heq (Hash attr) html.Enctype && Equal val (bs "application/x-www-form-urlencoded")
  || heq (Hash attr) html.Colspan && Equal val (bs "1")
  || heq (Hash attr) html.Rowspan && Equal val (bs "1")
  || heq (Hash attr) html.Shape && Equal val (bs "rect")
  || heq (Hash attr) html.Span && Equal val (bs "1")
  || heq (Hash attr) html.Clear && Equal val (bs "none")
  || heq (Hash attr) html.Frameborder && Equal val (bs "1")
  || heq (Hash attr) html.Scrolling && Equal val (bs "auto")
  || heq (Hash attr) html.Valuetype && Equal val (bs "data")
  || heq (Hash attr) html.Media && heq (Hash t) html.Style && Equal val (bs "all").

(** Lines 179-181. *)
Definition inferableEndTag (h : html.Hash) : bool :=
  heq h html.Thead || heq h html.Tbody || heq h html.Tfoot || heq h html.Tr
  || heq h html.Th || heq h html.Td || heq h html.Optgroup || heq h html.Option
  || heq h html.Dd || heq h html.Dt || heq h html.Li || heq h html.Rb
  || heq h html.Rt || heq h html.Rtc || heq h html.Rp.

(** A pointer of [getAttributes]'s result. *)
Definition slot (ptrs : list (option nat)) (j : nat) : option nat :=
  match ptrs !! j with
  | Some p => p
  | None => None
  end.

(** Assignment through a token pointer. *)
Definition update (l : list Token) (p : nat) (f : Token -> Token) : list Token :=
  <[p := f (tokAt l p)]> l.

(** What [Minify] takes from outside html.go. *)
Record Env := mkEnv {
  (** the classification tables of this package *)
  inlineTagMap : html.Hash -> bool;
  rawTagMap : html.Hash -> bool;
  blockTagMap : html.Hash -> bool;
  booleanAttrMap : html.Hash -> bool;
  caseInsensitiveAttrMap : html.Hash -> bool;
  urlAttrMap : html.Hash -> bool;
  (** [parse.NormalizeContentType] *)
  NormalizeContentType : bytes -> bytes;
  (** the minifier [m]: [m mediatype data] is the bytes that
      [m.Minify(mediatype, w, r)] writes to the writer it is given and the
      error it returns ([None] for nil) *)
  m : bytes -> bytes -> bytes * option error;
  (** the writer [w]: [wfail written p] is the error of [w.Write(p)] after
      [written], [None] when the write succeeds *)
  wfail : bytes -> bytes -> option error;
  (** [z.Err()] at the error token *)
  zErr : error
}.

Section Minify.

Variable E : Env.

Local Open Scope go_scope.

(** [if _, err := w.Write(p); err != nil { return err }] *)
Definition write (p : bytes) : M unit :=
  fun s =>
    match wfail E (w s) p with
    | None => Val tt (setW s (w s ++ p))
    | Some e => Ret (Some e) s
    end.

(** [m.Minify(mediatype, w, buffer.NewReader(d))] on the output writer: the
    bytes of [m] are appended, and a failure of the writer inside the
    minifier is part of the error that [m] returns. *)
Definition callMinify (mediatype d : bytes) : M (option error) :=
  fun s => Val (snd (m E mediatype d)) (setW s (w s ++ fst (m E mediatype d))).

(** Lines 342-345 and 350-353: minification into [attrMinifyBuffer], whose
    bytes replace [val] when the minifier returns nil. *)
Definition minifyAttr (mediatype val : bytes) : bytes :=
  match snd (m E mediatype val) with
  | None => fst (m E mediatype val)
  | Some _ => val
  end.

(** Lines 72-85. *)
Definition mediatypeOf (s : State) : bytes :=
  if heq (rawTag s) html.Iframe then bs "text/html"
  else if 0 <? length (rawTagMediatype s) then rawTagMediatype s
  else if heq (rawTag s) html.Script then defaultScriptType s
  else if heq (rawTag s) html.Style then defaultStyleType s
  else if heq (rawTag s) html.Svg then bs "image/svg+xml"
  else if heq (rawTag s) html.Math then bs "application/mathml+xml"
  else [].

(** Lines 70-107: a text token inside a raw tag. *)
Definition rawText (d : bytes) : M unit :=
  fun s =>
    if heq (rawTag s) html.Style || heq (rawTag s) html.Script
       || heq (rawTag s) html.Iframe || heq (rawTag s) html.Svg
       || heq (rawTag s) html.Math
    then
      let mediatype := mediatypeOf s in
      (let* d' :=
         (if bytes_eqb mediatype (bs "text/html") && isCDATA (Trim d IsWhitespace)
          then write (bs "<![CDATA[") ;; ret (drop 9 (Trim d IsWhitespace))
          else ret d) in
       let* err := callMinify mediatype d' in
       match err with
       | None => ret tt
       | Some e =>
           if decide (e = ErrNotExist) then write d'
           else fun s' => Ret (Some e) s'
       end) s
    else write d s.

(** The scan of lines 122-141: [l] is the buffer from [tb.Peek(i)] on, the
    result is [trim]. *)
Fixpoint trimScan (l : list Token) : bool :=
  match l with
  | [] => true
  | next :: l' =>
      match TokenType next with
      | html.ErrorToken => true
      | html.TextToken =>
          match data next with
          | c :: _ => IsWhitespace c
          | [] => false
          end
      | html.StartTagToken => negb (inlineTagMap E (Hash next))
      | html.EndTagToken =>
          if negb (inlineTagMap E (Hash next)) then true else trimScan l'
      | _ => trimScan l'
      end
  end.

(** Lines 109-146 on the collapsed, non-empty data [d]: the data to write
    and the new [precededBySpace]. *)
Definition trimText (pbs : bool) (l : list Token) (d : bytes) : bytes * bool :=
  let d1 := if pbs && isAt d 0 " " then drop 1 d else d in
  if length d1 =? 0 then (d1, true)
  else if isAt d1 (length d1 - 1) " " then
    if trimScan l then (take (length d1 - 1) d1, false) else (d1, true)
  else (d1, false).

(** Lines 68-150. *)
Definition textCase (d : bytes) : M unit :=
  fun s =>
    if negb (heq (rawTag s) html.Zero) then rawText d s
    else
      let d1 := ReplaceMultiple d IsWhitespace " " in
      if 0 <? length d1 then
        let '(d2, pbs) := trimText (precededBySpace s) (tb s) d1 in
        write d2 (setPrecededBySpace s pbs)
      else Val tt s.

(** The scan of lines 186-195: [l] is the buffer from [tb.Peek(i)] on, the
    result is [remove]. *)
Fixpoint removeP (l : list Token) : bool :=
  match l with
  | [] => true
  | next :: l' =>
      if teq (TokenType next) html.TextToken && IsAllWhitespace (data next)
      then removeP l'
      else teq (TokenType next) html.ErrorToken
           || teq (TokenType next) html.EndTagToken && negb (heq (Hash next) html.A)
           || teq (TokenType next) html.StartTagToken && blockTagMap E (Hash next)
  end.

(** Lines 160-201, after [rawTag = 0]: [true] when the switch case is left
    by a [break] before the tag is written. *)
Definition tagFilter (t : Token) (hasAttributes : bool) (s : State) : bool * State :=
  if negb (inlineTagMap E (Hash t)) then
    let s1 := setPrecededBySpace s true in
    if teq (TokenType t) html.StartTagToken && rawTagMap E (Hash t)
       && negb hasAttributes
       && (heq (Hash t) html.Script || heq (Hash t) html.Style)
       && teq (TokenType (Peek (tb s1) 1)) html.EndTagToken
    then (true, setTb s1 (snd (Shift (snd (Shift (tb s1))))))
    else
      let s2 :=
        if teq (TokenType t) html.StartTagToken && rawTagMap E (Hash t)
        then setRawTagMediatype (setRawTag s1 (Hash t)) []
        else s1 in
      if negb hasAttributes
         && (heq (Hash t) html.Html || heq (Hash t) html.Head
             || heq (Hash t) html.Body || heq (Hash t) html.Colgroup)
      then (true, s2)
      else if teq (TokenType t) html.EndTagToken then
        if inferableEndTag (Hash t) then (true, s2)
        else if heq (Hash t) html.P then (removeP (tb s2), s2)
        else (false, s2)
      else (false, s2)
  else (false, s).

(** Lines 219-237: the anchor rewrite. *)
Definition rewriteA (s : State) : State :=
  let '(l, buf, attr) :=
    getAttributes (tb s) (attrIntBuffer s)
      [html.Id; html.Name; html.Rel; html.Href] in
  let l1 :=
    match slot attr 0, slot attr 1 with
    | Some id, Some name =>
        if Equal (AttrVal (tokAt l id)) (AttrVal (tokAt l name))
        then update l name (fun t => setData t None)
        else l
    | _, _ => l
    end in
  let relOk :=
    match slot attr 2 with
    | None => true
    | Some rel => negb (EqualCaseInsensitive (AttrVal (tokAt l1 rel)) (bs "external"))
    end in
  let l2 :=
    match slot attr 3 with
    | Some href =>
        if relOk
        then update l1 href (fun t => setAttrVal t (stripScheme (AttrVal t)))
        else l1
    | None => l1
    end in
  setAttrIntBuffer (setTb s l2) buf.

(** Lines 240-262: the rules of the meta rewrite, on the pointers [attr] that
    [getAttributes] returned. *)
Definition metaRules (attr : list (option nat)) (s0 : State) : State :=
  match slot attr 0 with
  | None => s0
  | Some content =>
      let s1 :=
        match slot attr 1 with
        | None => s0
        | Some httpEquiv =>
            let l1 := update (tb s0) content
                        (fun t => setAttrVal t (NormalizeContentType E (AttrVal t))) in
            if (if slot attr 2 is None then true else false)
               && EqualCaseInsensitive (AttrVal (tokAt l1 httpEquiv)) (bs "content-type")
               && Equal (AttrVal (tokAt l1 content)) (bs "text/html;charset=utf-8")
            then
              let l2 := update l1 httpEquiv (fun t => setData t None) in
              let l3 := update l2 content
                          (fun t => mkToken (TokenType t) (Some (bs "charset"))
                                      (bs "utf-8") html.Charset) in
              setTb s0 l3
            else if EqualCaseInsensitive (AttrVal (tokAt l1 httpEquiv))
                      (bs "content-style-type")
            then setDefaultStyleType (setTb s0 l1) (AttrVal (tokAt l1 content))
            else if EqualCaseInsensitive (AttrVal (tokAt l1 httpEquiv))
                      (bs "content-script-type")
            then setDefaultScriptType (setTb s0 l1) (AttrVal (tokAt l1 content))
            else setTb s0 l1
        end in
      match slot attr 3 with
      | None => s1
      | Some name =>
          if EqualCaseInsensitive (AttrVal (tokAt (tb s1) name)) (bs "keywords")
          then setTb s1 (update (tb s1) content
                           (fun t => setAttrVal t (Replace (AttrVal t) (bs ", ") (bs ","))))
          else if EqualCaseInsensitive (AttrVal (tokAt (tb s1) name)) (bs "viewport")
          then setTb s1 (update (tb s1) content
                           (fun t => setAttrVal t (Replace (AttrVal t) (bs " ") [])))
          else s1
      end
  end.

(** Lines 238-263: the meta rewrite. *)
Definition rewriteMeta (s : State) : State :=
  let '(l, buf, attr) :=
    getAttributes (tb s) (attrIntBuffer s)
      [html.Content; html.Http_Equiv; html.Charset; html.Name] in
  metaRules attr (setAttrIntBuffer (setTb s l) buf).

(** Lines 264-272: the script rewrite. *)
Definition rewriteScript (s : State) : State :=
  let '(l, buf, attr) :=
    getAttributes (tb s) (attrIntBuffer s) [html.Src; html.Charset] in
  let l1 :=
    match slot attr 0, slot attr 1 with
    | Some src, Some charset => update l charset (fun t => setData t None)
    | _, _ => l
    end in
  setAttrIntBuffer (setTb s l1) buf.

(** Lines 218-272. *)
Definition rewriteAttributes (t : Token) (s : State) : State :=
  if heq (Hash t) html.A then rewriteA s
  else if heq (Hash t) html.Meta then rewriteMeta s
  else if heq (Hash t) html.Script then rewriteScript s
  else s.

(** Lines 340-362: the value handed to [escapeAttrVal]. *)
Definition attrValue (t attr : Token) (s : State) (val : bytes) : bytes :=
  if heq (Hash attr) html.Style then minifyAttr (defaultInlineStyleType s) val
  else if (2 <? length (data attr)) && isAt (data attr) 0 "o" && isAt (data attr) 1 "n"
  then
    minifyAttr (defaultScriptType s)
      (if (11 <=? length val) && EqualCaseInsensitive (take 11 val) (bs "javascript:")
       then drop 11 val else val)
  else if negb (heq (Hash t) html.A) && urlAttrMap E (Hash attr) then stripScheme val
  else val.

(** Lines 283-368: the body of the attribute loop for an attribute whose
    [Data] is not nil; [continue] is [ret tt]. *)
Definition writeAttribute (t attr : Token) : M unit :=
  fun s =>
    let val := unwrapAttrVal (AttrVal attr) in
    if (length val =? 0) && omitEmpty t attr then Val tt s
    else
      let val :=
        if caseInsensitiveAttrMap E (Hash attr) then
          if isContentTypeAttr t attr
          then NormalizeContentType E (ToLower val)
          else ToLower val
        else val in
      let s1 :=
        if negb (heq (rawTag s) html.Zero) && heq (Hash attr) html.Type_
        then setRawTagMediatype s val
        else s in
      if isDefaultValue t attr val then Val tt s1
      else
        (write (bs " ") ;;
         write (data attr) ;;
         if (0 <? length val) && negb (booleanAttrMap E (Hash attr)) then
           write (bs "=") ;;
           match escapeAttrVal (AttrVal attr) (attrValue t attr s1 val) with
           | Returns v => write v
           | Panics => fun s' => Crash s'
           end
         else ret tt) s1.

(** Lines 275-369: the attribute loop; [l] is the token buffer, every
    iteration shifts one token. *)
Fixpoint writeAttributes (t : Token) (l : list Token) : M unit :=
  fun s =>
    match l with
    | [] => Val tt (setTb s [])
    | attr :: l' =>
        if negb (teq (TokenType attr) html.AttributeToken)
        then Val tt (setTb s (snd (Shift l)))
        else
          match Data attr with
          | None => writeAttributes t l' s
          | Some _ => (writeAttribute t attr ;; writeAttributes t l') s
          end
    end.

(** Lines 151-373. *)
Definition tagCase (t : Token) : M unit :=
  fun s =>
    let s0 := setRawTag s html.Zero in
    let hasAttributes :=
      teq (TokenType t) html.StartTagToken
      && teq (TokenType (Peek (tb s0) 0)) html.AttributeToken in
    let '(broke, s1) := tagFilter t hasAttributes s0 in
    if broke then Val tt s1
    else
      (write (if teq (TokenType t) html.EndTagToken then bs "</" else bs "<") ;;
       write (data t) ;;
       (if hasAttributes
        then fun s2 =>
               let s3 := rewriteAttributes t s2 in
               writeAttributes t (tb s3) s3
        else ret tt) ;;
       write (bs ">")) s1.

(** One iteration of the loop of lines 44-375. *)
Definition step : M unit :=
  fun s =>
    let '(t, l) := Shift (tb s) in
    let s := setTb s l in
    match TokenType t with
    | html.ErrorToken =>
        Ret (if decide (zErr E = EOF) then None else Some (zErr E)) s
    | html.DoctypeToken => write (bs "<!doctype html>") s
    | html.CommentToken => write (commentBytes (data t)) s
    | html.TextToken => textCase (data t) s
    | html.StartTagToken | html.EndTagToken => tagCase t s
    | _ => Val tt s
    end.

(** What a call of [Minify] comes to. *)
Inductive result : Type :=
| Returned (e : option error) (s : State)
| Panicked (s : State)
| OutOfFuel.

Fixpoint loop (fuel : nat) (s : State) : result :=
  match fuel with
  | O => OutOfFuel
  | S n =>
      match step s with
      | Val _ s' => loop n s'
      | Ret e s' => Returned e s'
      | Crash s' => Panicked s'
      end
  end.

(** Lines 30-43: the state before the first token. *)
Definition initial (tokens : list Token) : State :=
  mkState tokens [] html.Zero [] true
    (bs "text/javascript") (bs "text/css") (bs "text/css;inline=1")
    (replicate 4 0).

(** [Minify(m, _, w, r)], [tokens] being what the tokenizer makes of [r];
    the [w] of the final state is what the call wrote.  Every iteration
    consumes a token, so one more iteration than there are tokens is enough
    (see [Minify_returns]). *)
Definition Minify (tokens : list Token) : result :=
  loop (S (length tokens)) (initial tokens).

End Minify.

(** What [Minify] wrote, when it returned nil. *)
Definition output (r : result) : option bytes :=
  match r with
  | Returned None s => Some (w s)
  | _ => None
  end.

(** ** A concrete environment for running the model

    Tables with the entries that the examples need (the tables of the
    package are not in html.go), a stand-in for the content-type
    normalization, an empty minifier registry, a writer that never fails and
    a source that ends with io.EOF. *)

Module Sample.

Definition inlineTagMap (h : html.Hash) : bool :=
  heq h html.A || heq h html.Button || heq h html.Input || heq h html.Object
  || heq h html.Span.

Definition rawTagMap (h : html.Hash) : bool :=
  heq h html.Iframe || heq h html.Math || heq h html.Script || heq h html.Style
  || heq h html.Svg.

Definition blockTagMap (h : html.Hash) : bool :=
  heq h html.P || heq h html.Form.

Definition booleanAttrMap (h : html.Hash) : bool := false.

Definition caseInsensitiveAttrMap (h : html.Hash) : bool :=
  heq h html.Type_ || heq h html.Method || heq h html.Charset
  || heq h html.Http_Equiv || heq h html.Enctype || heq h html.Rel.

Definition urlAttrMap (h : html.Hash) : bool :=
  heq h html.Href || heq h html.Src || heq h html.Action.

(** Whitespace is removed and the value is lower-cased. *)
Definition NormalizeContentType (b : bytes) : bytes :=
  ToLower (filter (fun c => negb (IsWhitespace c)) b).

(** An empty registry. *)
Definition m (mediatype d : bytes) : bytes * option error := ([], Some ErrNotExist).

(** A writer that never fails. *)
Definition wfail (written p : bytes) : option error := None.

Definition env : Env :=
  mkEnv inlineTagMap rawTagMap blockTagMap booleanAttrMap caseInsensitiveAttrMap
    urlAttrMap NormalizeContentType m wfail EOF.

Definition startTag (name : string) (h : html.Hash) : Token :=
  mkToken html.StartTagToken (Some (bs name)) [] h.
Definition endTag (name : string) (h : html.Hash) : Token :=
  mkToken html.EndTagToken (Some (bs name)) [] h.
Definition attribute (name : string) (h : html.Hash) (val : bytes) : Token :=
  mkToken html.AttributeToken (Some (bs name)) val h.
Definition text (d : string) : Token :=
  mkToken html.TextToken (Some (bs d)) [] html.Zero.
Definition comment (d : string) : Token :=
  mkToken html.CommentToken (Some (bs d)) [] html.Zero.
Definition close : Token :=
  mkToken html.StartTagCloseToken (Some (bs ">")) [] html.Zero.

(** A double-quoted attribute value. *)
Definition quoted (v : string) : bytes := [dquote] ++ bs v ++ [dquote].

End Sample.

(** * Notions used in the statements *)

(** ** Whitespace in text *)

(** No two spaces in a row. *)
Fixpoint noDoubleSpace (d : bytes) : Prop :=
  match d with
  | c1 :: (c2 :: _) as d' => ~ (c1 = " "%byte /\ c2 = " "%byte) /\ noDoubleSpace d'
  | _ => True
  end.

(** ** Quoting of attribute values *)

(** The literal occurrences of the quote [q] in [b]. *)
Fixpoint literalCount (q : byte) (b : bytes) : nat :=
  match b with
  | [] => 0
  | c :: b' => (if beq c q then 1 else 0) + literalCount q b'
  end.

(** The positions of [b] at which an entity for the quote [q] begins. *)
Fixpoint entityCount (q : byte) (b : bytes) : nat :=
  match b with
  | [] => 0
  | c :: b' =>
      (if beq c "&" then
         match isAtQuoteEntity b with
         | Some (q', _) => if beq q' q then 1 else 0
         | None => 0
         end
       else 0) + entityCount q b'
  end.

(** The bytes that forbid the unquoted form, line 477. *)
Definition forbidsUnquoted (c : byte) : bool :=
  beq c "`" || beq c "<" || beq c "=" || beq c ">" || IsWhitespace c.

(** [b] can be written without quotes: it has no quote, no quote entity and
    no byte that forbids the unquoted form. *)
Fixpoint plain (b : bytes) : bool :=
  match b with
  | [] => true
  | c :: b' =>
      (if beq c "&" then (if isAtQuoteEntity b is Some _ then false else true)
       else negb (beq c dquote || beq c squote || forbidsUnquoted c))
      && plain b'
  end.

(** ** Text inside a raw tag *)

(** The content handed to the minifier and the marker written before it
    (lines 87-95). *)
Definition rawContent (mediatype d : bytes) : bytes * bytes :=
  if bytes_eqb mediatype (bs "text/html") && isCDATA (Trim d IsWhitespace)
  then (bs "<![CDATA[", drop 9 (Trim d IsWhitespace))
  else ([], d).

(** ** A second pass *)


(** Every whitespace byte of [y] is a space, and no space follows a space
    (nor begins [y] when [prevSpace] is set). *)
Fixpoint collapsed (prevSpace : bool) (y : bytes) : Prop :=
  match y with
  | [] => True
  | c :: y' =>
      if IsWhitespace c
      then c = " "%byte /\ prevSpace = false /\ collapsed true y'
      else collapsed false y'
  end.

(** A document as the tokenizer hands it over: text, doctype declarations,
    comments, and start and end tags; a start tag comes with its attribute
    tokens and with the token that ends it ([>], or [/>] when [void] is
    set). *)
Inductive Item : Type :=
| IText (d : bytes)
| IDoctype (d : bytes)
| IComment (d : bytes)
| IStart (name : bytes) (h : html.Hash) (attrs : list Token) (void : bool)
| IEnd (name : bytes) (h : html.Hash).





(** The bytes of an attribute in a document: the name, and the value as it
    stands in [AttrVal], quotes included. *)
Definition attrBytes (a : Token) : bytes :=
  bs " " ++ data a ++ (if 0 <? length (AttrVal a) then bs "=" ++ AttrVal a else []).

Fixpoint attrsBytes (attrs : list Token) : bytes :=
  match attrs with
  | [] => []
  | a :: attrs' => attrBytes a ++ attrsBytes attrs'
  end.

(** The bytes of an item in a document. *)
Definition itemBytes (i : Item) : bytes :=
  match i with
  | IText d => d
  | IDoctype d => bs "<!doctype " ++ d ++ bs ">"
  | IComment d => bs "<!--" ++ d ++ bs "-->"
  | IStart name _ attrs void =>
      bs "<" ++ name ++ attrsBytes attrs ++ (if void then bs "/>" else bs ">")
  | IEnd name _ => bs "</" ++ name ++ bs ">"
  end.

Fixpoint serialize (l : list Item) : bytes :=
  match l with
  | [] => []
  | i :: l' => itemBytes i ++ serialize l'
  end.


















(** A tokenizer for the examples: text, and tags without attributes whose
    names are looked up in a small table. *)
Module SampleLexer.






End SampleLexer.

(** ** The rebuilt value *)

(** The value between the quotes: a literal [quote] and an entity of [quote]
    become [escapedQuote], an entity of the other quote becomes that quote,
    every other byte is kept.  [skip] counts the bytes of an entity still to
    pass over. *)
Fixpoint escapeSpec (quote : byte) (escapedQuote : bytes) (skip : nat) (l : bytes)
    : bytes :=
  match l with
  | [] => []
  | c :: l' =>
      match skip with
      | S k => escapeSpec quote escapedQuote k l'
      | O =>
          if beq c "&" then
            match isAtQuoteEntity l with
            | Some (entityQuote, n) =>
                (if negb (beq entityQuote quote) then [entityQuote] else escapedQuote)
                ++ escapeSpec quote escapedQuote (n - 1) l'
            | None => c :: escapeSpec quote escapedQuote 0 l'
            end
          else if beq c quote then escapedQuote ++ escapeSpec quote escapedQuote 0 l'
          else c :: escapeSpec quote escapedQuote 0 l'
      end
  end.

(** The buffer of [cap] bytes after the bytes [X] were copied into it from
    its start: what does not fit is cut off. *)
Definition fill (cap : nat) (X : bytes) : bytes :=
  take cap X ++ replicate (cap - length X) x00.

(** A byte on which the second loop of [escapeAttrVal] does nothing:
    neither '&' nor a quote. *)
Definition harmless (c : byte) : Prop :=
  beq c "&" = false /\ beq c dquote = false /\ beq c squote = false.

(** The quote [escapeAttrVal] wraps a rebuilt value in, and its escape. *)
Definition chosenQuote (b : bytes) : byte :=
  if literalCount squote b + entityCount squote b
     <? literalCount dquote b + entityCount dquote b
  then squote else dquote.

Definition chosenEscape (b : bytes) : bytes :=
  if literalCount squote b + entityCount squote b
     <? literalCount dquote b + entityCount dquote b
  then escapedSingleQuoteBytes else escapedDoubleQuoteBytes.

(** ** The rewrite pass *)


(** The position of the last token of [attrs] whose hash is [h]. *)
Fixpoint lastIndex (h : html.Hash) (attrs : list Token) : option nat :=
  match attrs with
  | [] => None
  | a :: attrs' =>
      match lastIndex h attrs' with
      | Some p => Some (S p)
      | None => if heq (Hash a) h then Some 0 else None
      end
  end.

(** The token that the meta rewrite puts in the place of content. *)
Definition charsetToken : Token :=
  mkToken html.AttributeToken (Some (bs "charset")) (bs "utf-8") html.Charset.

(** The first [n] tokens of the buffer are attribute tokens. *)
Definition attrRun (n : nat) (l : list Token) : Prop :=
  forall i, i < n -> exists a, l !! i = Some a /\ TokenType a = html.AttributeToken.

(** The in-place unwrapping of [getAttributes]. *)
Definition unwrapToken (t : Token) : Token :=
  setAttrVal t (unwrapAttrVal (AttrVal t)).

(** ** Minify returns *)

(** A piece of the loop body that does not put tokens back. *)
Definition keeps {A} (c : M A) : Prop :=
  forall s a s', c s = Val a s' -> length (tb s') <= length (tb s).

(** ** Spellings of a quote entity *)

(** The bytes of a quote entity behind its first byte. *)
Inductive quoteEntity : byte -> bytes -> Prop :=
| decimalDouble k : quoteEntity dquote (bs "#" ++ replicate k "0"%byte ++ bs "34;")
| decimalSingle k : quoteEntity squote (bs "#" ++ replicate k "0"%byte ++ bs "39;")
| hexDouble k : quoteEntity dquote (bs "#x" ++ replicate k "0"%byte ++ bs "22;")
| hexSingle k : quoteEntity squote (bs "#x" ++ replicate k "0"%byte ++ bs "27;")
| namedDouble s :
    EqualCaseInsensitive s (bs "quot") = true -> quoteEntity dquote (s ++ bs ";")
| namedSingle s :
    EqualCaseInsensitive s (bs "apos") = true -> quoteEntity squote (s ++ bs ";").

(** The quote that is not [q]. *)
Definition otherQuote (q : byte) : byte := if beq q dquote then squote else dquote.

(** The value with its quote entities decoded: an entity stands for its
    quote, every other byte for itself. *)
Fixpoint decodeQuotes (skip : nat) (l : bytes) : bytes :=
  match l with
  | [] => []
  | c :: l' =>
      match skip with
      | S k => decodeQuotes k l'
      | O =>
          if beq c "&" then
            match isAtQuoteEntity l with
            | Some (q, n) => q :: decodeQuotes (n - 1) l'
            | None => c :: decodeQuotes 0 l'
            end
          else c :: decodeQuotes 0 l'
      end
  end.

(** A quote with the entity that [escapeAttrVal] writes for it. *)
Definition escapePair (q : byte) (esc : bytes) : Prop :=
  (q = dquote /\ esc = escapedDoubleQuoteBytes)
  \/ (q = squote /\ esc = escapedSingleQuoteBytes).

(** ** The rewrite pass on a clean index array *)

(** Whether the anchor carries a rel attribute whose value is external. *)
Definition relExternal (attrs : list Token) : bool :=
  match lastIndex html.Rel attrs with
  | Some rel =>
      EqualCaseInsensitive (unwrapAttrVal (AttrVal (tokAt attrs rel))) (bs "external")
  | None => false
  end.

(** The position of the name attribute that repeats the id, if any. *)
Definition repeatedName (attrs : list Token) : option nat :=
  match lastIndex html.Id attrs, lastIndex html.Name attrs with
  | Some id, Some name =>
      if Equal (unwrapAttrVal (AttrVal (tokAt attrs id)))
               (unwrapAttrVal (AttrVal (tokAt attrs name)))
      then Some name else None
  | _, _ => None
  end.

(** ** The errors of Minify *)

(** The loop gets from [s] to [s'] by iterations none of which returns. *)
Inductive reaches (E : Env) : State -> State -> Prop :=
| reaches_here s : reaches E s s
| reaches_step s s1 s' :
    step E s = Val tt s1 -> reaches E s1 s' -> reaches E s s'.

(** Lines 45-51: the iteration that begins in [s] takes the error token, and
    [Minify] returns nil for io.EOF and the tokenizer's error otherwise. *)
Definition tokenizerEnd (E : Env) (s : State) (e : option error) : Prop :=
  TokenType (fst (Shift (tb s))) = html.ErrorToken
  /\ e = (if decide (zErr E = EOF) then None else Some (zErr E)).

(** A [w.Write] failed: [s'] holds the bytes written before it, and the
    writer answers a write behind exactly these bytes with the error. *)
Definition writerError (E : Env) (e : option error) (s' : State) : Prop :=
  exists x p, e = Some x /\ wfail E (w s') p = Some x.

(** Lines 96-102: the iteration that begins in [s] takes a text token inside
    an open script, style, iframe, svg or math element, and the minifier,
    called with the media type in force and the content behind the CDATA
    marker, returns an error other than ErrNotExist; [s'] holds what was
    written before the call and what the minifier wrote. *)
Definition rawMinifierError (E : Env) (s : State) (e : option error) (s' : State)
    : Prop :=
  exists t rest x,
    tb s = t :: rest
    /\ TokenType t = html.TextToken
    /\ In (rawTag s) [html.Style; html.Script; html.Iframe; html.Svg; html.Math]
    /\ e = Some x
    /\ x <> ErrNotExist
    /\ snd (m E (mediatypeOf s) (snd (rawContent (mediatypeOf s) (data t)))) = Some x
    /\ w s' = w s ++ fst (rawContent (mediatypeOf s) (data t))
                  ++ fst (m E (mediatypeOf s) (snd (rawContent (mediatypeOf s) (data t)))).

(** A piece of the loop body that makes [Minify] return only with the error
    of a write. *)
Definition onlyWrites {A} (E : Env) (c : M A) : Prop :=
  forall s e s', c s = Ret e s' -> writerError E e s'.

(** A registry whose minifiers all fail, after writing a byte. *)
Definition failingRegistry : Env :=
  mkEnv Sample.inlineTagMap Sample.rawTagMap Sample.blockTagMap
    Sample.booleanAttrMap Sample.caseInsensitiveAttrMap Sample.urlAttrMap
    Sample.NormalizeContentType (fun _ _ => (bs "x", Some (ErrOther 1)))
    Sample.wfail EOF.

(** ** Visible bytes *)

(** The bytes of [d] that are not whitespace. *)
Definition visible (d : bytes) : bytes := List.filter (fun c => negb (IsWhitespace c)) d.

(** ** The attribute loop *)

(** What the attribute loop leaves alone: the raw tag, the whitespace
    flag and the default types; the output only grows. *)
Definition extends (s s' : State) : Prop :=
  rawTag s' = rawTag s
  /\ precededBySpace s' = precededBySpace s
  /\ defaultScriptType s' = defaultScriptType s
  /\ defaultStyleType s' = defaultStyleType s
  /\ defaultInlineStyleType s' = defaultInlineStyleType s
  /\ attrIntBuffer s' = attrIntBuffer s
  /\ exists out, w s' = w s ++ out.

(** A piece of the loop body that, when it goes on, has only extended the
    state and has left the token buffer alone. *)
Definition frames {A} (c : M A) : Prop :=
  forall s a s', c s = Val a s' -> extends s s' /\ tb s' = tb s.

(** * Properties *)

(** ** Byte-slice helpers *)

Lemma beq_true x y : beq x y = true <-> x = y.
Proof.
  unfold beq. split; [apply byte_dec_bl | apply byte_dec_lb].
Qed.

Lemma beq_false x y : beq x y = false <-> x <> y.
Proof.
  split.
  - intros H E. apply beq_true in E. congruence.
  - intros H. destruct (beq x y) eqn:E; [|reflexivity].
    apply beq_true in E. contradiction.
Qed.

Lemma beq_refl x : beq x x = true.
Proof. apply beq_true. reflexivity. Qed.

Lemma bytes_eqb_true a b : bytes_eqb a b = true <-> a = b.
Proof.
  revert b. induction a as [|x a IH]; intros [|y b]; simpl; try (split; congruence).
  rewrite andb_true_iff, beq_true, IH. split.
  - intros [-> ->]. reflexivity.
  - intros [= -> ->]. split; reflexivity.
Qed.

Lemma bytes_eqb_refl a : bytes_eqb a a = true.
Proof. apply bytes_eqb_true. reflexivity. Qed.

Lemma HasPrefix_spec s p : HasPrefix s p = true <-> exists r, s = p ++ r.
Proof.
  revert s. induction p as [|c p IH]; intros s; simpl.
  - split; [exists s; reflexivity | reflexivity].
  - destruct s as [|x s].
    + split; [discriminate | intros [r Hr]; discriminate].
    + rewrite andb_true_iff, beq_true, IH. split.
      * intros [-> [r ->]]. exists r. reflexivity.
      * intros [r [= -> ->]]. split; [reflexivity | exists r; reflexivity].
Qed.

Lemma HasSuffix_spec s p : HasSuffix s p = true <-> exists r, s = r ++ p.
Proof.
  unfold HasSuffix. rewrite HasPrefix_spec. split.
  - intros [r Hr]. exists (rev r).
    rewrite <- (rev_involutive s), Hr, rev_app_distr, rev_involutive. reflexivity.
  - intros [r ->]. exists (rev r). apply rev_app_distr.
Qed.

Lemma teq_true a b : teq a b = true <-> a = b.
Proof. unfold teq. apply bool_decide_eq_true. Qed.

Lemma teq_false a b : teq a b = false <-> a <> b.
Proof. unfold teq. apply bool_decide_eq_false. Qed.

Lemma heq_true a b : heq a b = true <-> a = b.
Proof. unfold heq. apply bool_decide_eq_true. Qed.

Lemma heq_false a b : heq a b = false <-> a <> b.
Proof. unfold heq. apply bool_decide_eq_false. Qed.

Lemma isAt_last d c :
  d <> [] -> isAt d (length d - 1) c = true <-> last d = Some c.
Proof.
  intros Hd. unfold isAt. rewrite last_lookup.
  replace (Init.Nat.pred (length d)) with (length d - 1) by lia.
  destruct (d !! (length d - 1)) as [x|].
  - rewrite beq_true. split; congruence.
  - split; discriminate.
Qed.

Lemma isAt_lookup b j x c : isAt b j x = true -> b !! j = Some c -> c = x.
Proof.
  unfold isAt. intros H Hl. rewrite Hl in H. apply beq_true in H. exact H.
Qed.

Lemma isAt_take_0 n y c : 0 < n -> isAt (take n y) 0 c = isAt y 0 c.
Proof. destruct n; [lia|]. destruct y; reflexivity. Qed.

Lemma IsWhitespace_space : IsWhitespace " " = true.
Proof. reflexivity. Qed.

(** ** The token buffer *)

Lemma Shift_cons t l :
  TokenType t <> html.ErrorToken -> Shift (t :: l) = (t, l).
Proof.
  intros H. unfold Shift, teq. rewrite bool_decide_eq_false_2 by exact H. reflexivity.
Qed.

Lemma Peek_0 t l : Peek (t :: l) 0 = t.
Proof.
  unfold Peek. cbn. destruct (teq (TokenType t) html.ErrorToken); reflexivity.
Qed.

Lemma Peek_1 t t' l :
  TokenType t <> html.ErrorToken -> Peek (t :: t' :: l) 1 = t'.
Proof.
  intros H. unfold Peek. cbn. rewrite (proj2 (teq_false _ _) H).
  destruct (teq (TokenType t') html.ErrorToken); reflexivity.
Qed.

Lemma length_Shift l : length (snd (Shift l)) <= length l.
Proof.
  destruct l as [|t l]; cbn; [lia|].
  destruct (teq (TokenType t) html.ErrorToken); cbn; lia.
Qed.

Lemma length_update l p f : length (update l p f) = length l.
Proof. unfold update. apply length_insert. Qed.

Lemma length_fetchAttributes idx l :
  length (fst (fetchAttributes idx l)) = length l.
Proof.
  revert l. induction idx as [|i idx IH]; intros l; cbn [fetchAttributes];
    [reflexivity|].
  destruct (0 <? i).
  - specialize (IH (<[peekIdx l (i - 1) :=
                       setAttrVal (tokAt l (peekIdx l (i - 1)))
                         (unwrapAttrVal (AttrVal (tokAt l (peekIdx l (i - 1)))))]> l)).
    destruct (fetchAttributes idx _) as [l2 ptrs]. cbn in *.
    rewrite IH. apply length_insert.
  - specialize (IH l). destruct (fetchAttributes idx l) as [l2 ptrs]. exact IH.
Qed.

Lemma length_getAttributes l buf hashes :
  length (fst (fst (getAttributes l buf hashes))) = length l.
Proof.
  unfold getAttributes.
  pose proof (length_fetchAttributes
                (scanAttributes l 0 hashes
                   (take (length hashes)
                      (if length buf <? length hashes
                       then replicate (length hashes) 0 else buf))) l) as H.
  destruct (fetchAttributes _ l) as [l' ptrs]. exact H.
Qed.

(** ** Minify returns *)

Lemma loop_S (E : Env) (s : State) (n : nat) :
  loop E (S n) s =
    match step E s with
    | Val _ s' => loop E n s'
    | Ret e s' => Returned e s'
    | Crash s' => Panicked s'
    end.
Proof. reflexivity. Qed.


Lemma keeps_ret {A} (a : A) : keeps (ret a).
Proof. intros s a' s' [= _ <-]. lia. Qed.

Lemma keeps_bind {A B} (c : M A) (k : A -> M B) :
  keeps c -> (forall a, keeps (k a)) -> keeps (bind c k).
Proof.
  intros Hc Hk s b s'. unfold bind.
  destruct (c s) as [a s1| |] eqn:Hcs; try discriminate.
  intros H. apply Hc in Hcs. apply Hk in H. lia.
Qed.

Lemma keeps_write E p : keeps (write E p).
Proof.
  intros s a s'. unfold write. destruct (wfail E (w s) p); [discriminate|].
  intros [= _ <-]. cbn. lia.
Qed.

Lemma keeps_callMinify E mt d : keeps (callMinify E mt d).
Proof. intros s a s'. unfold callMinify. intros [= _ <-]. cbn. lia. Qed.

Lemma keeps_if {A} (c : bool) (x y : M A) : keeps x -> keeps y -> keeps (if c then x else y).
Proof. destruct c; auto. Qed.

Lemma keeps_fail {A} (e : option error) : keeps (fun s' => @Ret A e s').
Proof. intros s a s'. discriminate. Qed.

Lemma keeps_crash {A} : keeps (fun s' => @Crash A s').
Proof. intros s a s'. discriminate. Qed.

Lemma keeps_rawText E d : keeps (rawText E d).
Proof.
  intros s a s'. unfold rawText.
  destruct (heq (rawTag s) html.Style || heq (rawTag s) html.Script
            || heq (rawTag s) html.Iframe || heq (rawTag s) html.Svg
            || heq (rawTag s) html.Math); [|apply keeps_write].
  apply keeps_bind.
  - apply keeps_if; [|apply keeps_ret].
    apply keeps_bind; [apply keeps_write | intros; apply keeps_ret].
  - intros d'. apply keeps_bind; [apply keeps_callMinify|].
    intros [e|]; [|apply keeps_ret].
    destruct (decide (e = ErrNotExist)); [apply keeps_write | apply keeps_fail].
Qed.

Lemma keeps_textCase E d : keeps (textCase E d).
Proof.
  intros s a s'. unfold textCase.
  destruct (negb (heq (rawTag s) html.Zero)); [apply keeps_rawText|].
  destruct (0 <? length (ReplaceMultiple d IsWhitespace " ")); [|intros [= _ <-]; lia].
  destruct (trimText E (precededBySpace s) (tb s) (ReplaceMultiple d IsWhitespace " "))
    as [d2 pbs].
  intros H. apply keeps_write in H. exact H.
Qed.

Lemma length_tagFilter E t h s :
  length (tb (snd (tagFilter E t h s))) <= length (tb s).
Proof.
  unfold tagFilter.
  repeat match goal with
         | |- context [if ?c then _ else _] => destruct c
         end; cbn [snd tb setTb setPrecededBySpace setRawTag setRawTagMediatype];
    try lia.
  pose proof (length_Shift (tb s)). pose proof (length_Shift (snd (Shift (tb s)))). lia.
Qed.

Lemma length_rewriteAttributes E t s :
  length (tb (rewriteAttributes E t s)) = length (tb s).
Proof.
  unfold rewriteAttributes, rewriteA, rewriteMeta, metaRules, rewriteScript.
  destruct (heq (Hash t) html.A); [|destruct (heq (Hash t) html.Meta);
                                    [|destruct (heq (Hash t) html.Script); [|reflexivity]]].
  - pose proof (length_getAttributes (tb s) (attrIntBuffer s)
                  [html.Id; html.Name; html.Rel; html.Href]) as H.
    destruct (getAttributes _ _ _) as [[l buf] attr]. cbn [fst] in H.
    repeat match goal with
           | |- context [match ?c with _ => _ end] => destruct c
           end; cbn [tb setTb setAttrIntBuffer]; rewrite ?length_update; exact H.
  - pose proof (length_getAttributes (tb s) (attrIntBuffer s)
                  [html.Content; html.Http_Equiv; html.Charset; html.Name]) as H.
    destruct (getAttributes _ _ _) as [[l buf] attr]. cbn [fst] in H.
    repeat match goal with
           | |- context [match ?c with _ => _ end] => destruct c
           end;
      cbn [tb setTb setAttrIntBuffer setDefaultStyleType setDefaultScriptType];
      rewrite ?length_update; exact H.
  - pose proof (length_getAttributes (tb s) (attrIntBuffer s)
                  [html.Src; html.Charset]) as H.
    destruct (getAttributes _ _ _) as [[l buf] attr]. cbn [fst] in H.
    repeat match goal with
           | |- context [match ?c with _ => _ end] => destruct c
           end; cbn [tb setTb setAttrIntBuffer]; rewrite ?length_update; exact H.
Qed.

Lemma keeps_writeAttribute E t attr : keeps (writeAttribute E t attr).
Proof.
  intros s a s'. unfold writeAttribute.
  destruct ((length (unwrapAttrVal (AttrVal attr)) =? 0) && omitEmpty t attr);
    [intros [= _ <-]; lia|].
  set (val := if caseInsensitiveAttrMap E (Hash attr) then _ else _).
  set (s1 := if negb (heq (rawTag s) html.Zero) && heq (Hash attr) html.Type_
             then setRawTagMediatype s val else s).
  assert (Hs1 : tb s1 = tb s) by (subst s1; destruct (_ && _); reflexivity).
  destruct (isDefaultValue t attr val); [intros [= _ <-]; rewrite Hs1; lia|].
  rewrite <- Hs1. clear Hs1. clearbody s1. revert a s'.
  apply keeps_bind; [apply keeps_write|]. intros _.
  apply keeps_bind; [apply keeps_write|]. intros _.
  apply keeps_if; [|apply keeps_ret].
  apply keeps_bind; [apply keeps_write|]. intros _.
  destruct (escapeAttrVal _ _); [apply keeps_write | apply keeps_crash].
Qed.

Lemma length_writeAttributes E t l :
  forall s a s', writeAttributes E t l s = Val a s' -> length (tb s') <= length l.
Proof.
  induction l as [|attr l IH]; intros s a s'; cbn [writeAttributes].
  - intros [= _ <-]. cbn. lia.
  - destruct (negb (teq (TokenType attr) html.AttributeToken)).
    + intros [= _ <-]. cbn [tb setTb]. apply (length_Shift (attr :: l)).
    + destruct (Data attr).
      * unfold bind. destruct (writeAttribute E t attr s) as [u s1| |]; try discriminate.
        intros H. apply IH in H. cbn. lia.
      * intros H. apply IH in H. cbn. lia.
Qed.

Lemma keeps_tagCase E t : keeps (tagCase E t).
Proof.
  intros s a s'. unfold tagCase.
  set (h := teq (TokenType t) html.StartTagToken && _).
  pose proof (length_tagFilter E t h (setRawTag s html.Zero)) as Hf.
  destruct (tagFilter E t h (setRawTag s html.Zero)) as [broke s1].
  cbn [snd tb setRawTag] in Hf.
  destruct broke; [intros [= _ <-]; exact Hf|].
  intros H. enough (length (tb s') <= length (tb s1)) by lia.
  revert a s' H.
  apply keeps_bind; [apply keeps_write|]. intros _.
  apply keeps_bind; [apply keeps_write|]. intros _.
  apply keeps_bind; [|intros _; apply keeps_write].
  apply keeps_if; [|apply keeps_ret].
  intros s2 a s' H. apply length_writeAttributes in H.
  rewrite length_rewriteAttributes in H. exact H.
Qed.

Lemma step_consumes E s a s' :
  step E s = Val a s' -> length (tb s') < length (tb s).
Proof.
  unfold step. destruct (tb s) as [|t l] eqn:Htb; [discriminate|].
  cbn [Shift]. destruct (teq (TokenType t) html.ErrorToken) eqn:He.
  - apply teq_true in He. rewrite He. discriminate.
  - cbn [length].
    assert (Hk : forall c : M unit, keeps c ->
                   c (setTb s l) = Val a s' -> length (tb s') < S (length l)).
    { intros c Hc H. apply Hc in H. cbn in H. lia. }
    destruct (TokenType t).
    + discriminate.
    + apply Hk, keeps_write.
    + apply Hk, keeps_write.
    + apply Hk, keeps_tagCase.
    + apply Hk, keeps_tagCase.
    + intros [= _ <-]. cbn. lia.
    + apply Hk, keeps_textCase.
    + intros [= _ <-]. cbn. lia.
    + intros [= _ <-]. cbn. lia.
Qed.

Lemma loop_enough E n s : length (tb s) < n -> loop E n s <> OutOfFuel.
Proof.
  revert s. induction n as [|n IH]; intros s Hn; [lia|].
  rewrite loop_S. destruct (step E s) as [a s'| |] eqn:Hs; try discriminate.
  apply IH. apply step_consumes in Hs. lia.
Qed.

(** [Minify] always comes to an end: it returns or panics. *)
Lemma Minify_returns E tokens : Minify E tokens <> OutOfFuel.
Proof.
  unfold Minify. apply loop_enough. cbn. lia.
Qed.

(** ** Comments *)

(** C4 (as amended): a comment token makes [Minify] write one byte string.
    When the content begins with "[if" it is the content between "<!--" and
    "-->"; otherwise, when the content ends with "--", it is the content
    between "<!" and ">"; every other comment contributes no bytes. *)
Theorem C4_comment_rendering (E : Env) (s : State) (t : Token) (rest : list Token) :
  tb s = t :: rest ->
  TokenType t = html.CommentToken ->
  wfail E (w s) (commentBytes (data t)) = None ->
  step E s = Val tt (setW (setTb s rest) (w s ++ commentBytes (data t)))
  /\ ((exists r, data t = bs "[if" ++ r) ->
      commentBytes (data t) = bs "<!--" ++ data t ++ bs "-->")
  /\ (~ (exists r, data t = bs "[if" ++ r) ->
      (exists r, data t = r ++ bs "--") ->
      commentBytes (data t) = bs "<!" ++ data t ++ bs ">")
  /\ (~ (exists r, data t = bs "[if" ++ r) ->
      ~ (exists r, data t = r ++ bs "--") ->
      commentBytes (data t) = []).
Proof.
  intros Htb HT Hw. split.
  - unfold step. rewrite Htb, Shift_cons by (rewrite HT; discriminate).
    cbn [TokenType]. rewrite HT. unfold write. cbn [w setTb].
    rewrite Hw. reflexivity.
  - unfold commentBytes.
    destruct (HasPrefix (data t) (bs "[if")) eqn:Hp;
      destruct (HasSuffix (data t) (bs "--")) eqn:Hs;
      repeat split; intros; try reflexivity;
      repeat match goal with
             | H : HasPrefix _ _ = true |- _ => apply HasPrefix_spec in H
             | H : HasSuffix _ _ = true |- _ => apply HasSuffix_spec in H
             | H : ~ _ |- _ => contradiction
             end.
    + exfalso. apply (proj2 (HasPrefix_spec _ _)) in H. congruence.
    + exfalso. apply (proj2 (HasPrefix_spec _ _)) in H. congruence.
    + exfalso. apply (proj2 (HasSuffix_spec _ _)) in H0. congruence.
Qed.

Lemma C4_comment_rendering_witness :
  step Sample.env (initial [Sample.comment "x--"])
  = Val tt (setW (setTb (initial [Sample.comment "x--"]) [])
              (commentBytes (bs "x--"))).
Proof.
  apply (C4_comment_rendering Sample.env (initial [Sample.comment "x--"])
           (Sample.comment "x--") []); reflexivity.
Defined.

(** C4 (as stated) fails: the comment "x--" ends with "--" but is written
    as "<!x-->", not between "<!--" and "-->". *)
Lemma C4_suffix_comment_not_wrapped :
  output (Minify Sample.env [Sample.comment "x--"]) = Some (bs "<!x-->")
  /\ output (Minify Sample.env [Sample.comment "x--"])
     <> Some (bs "<!--" ++ bs "x--" ++ bs "-->").
Proof.
  split; [reflexivity | discriminate].
Qed.

(** ** Empty raw-text elements *)

(** C1 (as amended): a script or style start tag (not inline, raw text in
    the tables) that carries no attributes and whose closing tag follows the
    token that ends the start tag is dropped with both following tokens:
    nothing is written, and the loop goes on behind the closing tag. *)
Theorem C1_empty_script_style_elided (E : Env) (s : State) (t t1 t2 : Token)
    (rest : list Token) :
  tb s = t :: t1 :: t2 :: rest ->
  TokenType t = html.StartTagToken ->
  Hash t = html.Script \/ Hash t = html.Style ->
  inlineTagMap E (Hash t) = false ->
  rawTagMap E (Hash t) = true ->
  TokenType t1 <> html.AttributeToken ->
  TokenType t1 <> html.ErrorToken ->
  TokenType t2 = html.EndTagToken ->
  step E s =
    Val tt (mkState rest (w s) html.Zero (rawTagMediatype s) true
              (defaultScriptType s) (defaultStyleType s)
              (defaultInlineStyleType s) (attrIntBuffer s)).
Proof.
  intros Htb HT HH Hinl Hraw Hattr Herr HT2.
  assert (Hsc : heq (Hash t) html.Script || heq (Hash t) html.Style = true).
  { destruct HH as [-> | ->]; reflexivity. }
  unfold step. rewrite Htb, Shift_cons by (rewrite HT; discriminate).
  rewrite HT. unfold tagCase, tagFilter.
  cbn [tb setTb setRawTag setPrecededBySpace].
  rewrite Peek_0, Peek_1 by exact Herr.
  rewrite (Shift_cons t1) by exact Herr. cbn [snd].
  rewrite (Shift_cons t2) by (rewrite HT2; discriminate).
  rewrite HT, HT2, Hinl, Hraw, Hsc, (proj2 (teq_false _ _) Hattr).
  reflexivity.
Qed.

Lemma C1_empty_script_style_elided_witness :
  step Sample.env
    (initial [Sample.startTag "script" html.Script; Sample.close;
              Sample.endTag "script" html.Script])
  = Val tt (initial []).
Proof.
  apply (C1_empty_script_style_elided Sample.env
           (initial [Sample.startTag "script" html.Script; Sample.close;
                     Sample.endTag "script" html.Script])
           (Sample.startTag "script" html.Script) Sample.close
           (Sample.endTag "script" html.Script) []);
    first [reflexivity | discriminate | (left; reflexivity)].
Defined.

(** C1 (as stated) fails for iframe: the empty element is written out, with
    or without a token that ends the start tag. *)
Lemma C1_empty_iframe_written :
  output (Minify Sample.env
            [Sample.startTag "iframe" html.Iframe; Sample.close;
             Sample.endTag "iframe" html.Iframe])
  = Some (bs "<iframe></iframe>")
  /\ output (Minify Sample.env
               [Sample.startTag "iframe" html.Iframe;
                Sample.endTag "iframe" html.Iframe])
     = Some (bs "<iframe></iframe>").
Proof.
  split; reflexivity.
Qed.

(** Whatever the tables say, a start tag of iframe, svg or math without
    attributes is written. *)
Lemma other_raw_openers_written (E : Env) (s : State) (t : Token) (rest : list Token) :
  tb s = t :: rest ->
  TokenType t = html.StartTagToken ->
  In (Hash t) [html.Iframe; html.Svg; html.Math] ->
  TokenType (Peek rest 0) <> html.AttributeToken ->
  (forall written p, wfail E written p = None) ->
  exists s', step E s = Val tt s'
             /\ w s' = w s ++ bs "<" ++ data t ++ bs ">"
             /\ tb s' = rest.
Proof.
  intros Htb HT HH Hattr Hw.
  unfold step. rewrite Htb, Shift_cons by (rewrite HT; discriminate).
  rewrite HT. unfold tagCase, tagFilter.
  cbn [tb setTb setRawTag setPrecededBySpace].
  rewrite HT, (proj2 (teq_false _ _) Hattr).
  change (teq html.StartTagToken html.StartTagToken) with true.
  change (teq html.StartTagToken html.EndTagToken) with false.
  cbn [andb negb].
  assert (Hh : heq (Hash t) html.Script || heq (Hash t) html.Style = false
               /\ heq (Hash t) html.Html || heq (Hash t) html.Head
                  || heq (Hash t) html.Body || heq (Hash t) html.Colgroup = false).
  { cbn in HH. destruct HH as [<- | [<- | [<- | []]]]; split; reflexivity. }
  destruct Hh as [Hh1 Hh2]. rewrite Hh1, Hh2.
  rewrite !andb_false_r. cbn [andb].
  destruct (inlineTagMap E (Hash t)); destruct (rawTagMap E (Hash t));
    cbn [negb]; unfold bind, write, ret;
    repeat (cbn [w tb setW setTb setRawTag setPrecededBySpace setRawTagMediatype];
            rewrite Hw);
    (eexists; split; [reflexivity|]; cbn [w tb setW]; split; [|reflexivity];
     rewrite <- !app_assoc; reflexivity).
Qed.

(** ** Whitespace in text *)

Lemma ReplaceMultipleFrom_collapsed raw prev :
  noDoubleSpace (ReplaceMultipleFrom prev raw IsWhitespace " ")
  /\ (prev = true -> head (ReplaceMultipleFrom prev raw IsWhitespace " ") <> Some " "%byte).
Proof.
  revert prev. induction raw as [|c raw IH]; intros prev; simpl.
  - split; [exact I | discriminate].
  - destruct (IsWhitespace c) eqn:Hc.
    + destruct prev.
      * apply IH.
      * split; [|discriminate].
        destruct (IH true) as [Hn Hh].
        destruct (ReplaceMultipleFrom true raw IsWhitespace " ") as [|c2 d'] eqn:Hd.
        -- exact I.
        -- split; [|exact Hn]. intros [_ ->]. apply Hh; reflexivity.
    + assert (Hsp : c <> " "%byte).
      { intros ->. rewrite IsWhitespace_space in Hc. discriminate. }
      split.
      * destruct (IH false) as [Hn _].
        destruct (ReplaceMultipleFrom false raw IsWhitespace " ") as [|c2 d'] eqn:Hd.
        -- exact I.
        -- split; [|exact Hn]. intros [-> _]. apply Hsp; reflexivity.
      * intros _ [= ->]. apply Hsp; reflexivity.
Qed.

Lemma noDoubleSpace_tail c d : noDoubleSpace (c :: d) -> noDoubleSpace d.
Proof. destruct d; simpl; [trivial | intros [_ H]; exact H]. Qed.

Lemma noDoubleSpace_drop1 d : noDoubleSpace d -> noDoubleSpace (drop 1 d).
Proof. destruct d; [trivial | apply noDoubleSpace_tail]. Qed.

Lemma removelast_not_space d :
  noDoubleSpace d -> last d = Some " "%byte ->
  last (take (length d - 1) d) <> Some " "%byte.
Proof.
  induction d as [|c1 [|c2 d] IH]; intros Hn Hl.
  - discriminate.
  - discriminate.
  - destruct Hn as [Hp Hn]. specialize (IH Hn Hl).
    cbn [length] in IH |- *. rewrite Nat.sub_succ, Nat.sub_0_r in IH |- *.
    destruct d as [|c3 d].
    + cbn. injection Hl as ->. intros [= ->]. apply Hp; split; reflexivity.
    + cbn [length take] in IH |- *. exact IH.
Qed.

(** A text token outside a raw tag: the collapsed data goes through
    [trimText], whose flag becomes [precededBySpace]. *)
Lemma step_text (E : Env) (s : State) (t : Token) (rest : list Token) :
  tb s = t :: rest ->
  TokenType t = html.TextToken ->
  rawTag s = html.Zero ->
  ReplaceMultiple (data t) IsWhitespace " " <> [] ->
  step E s =
    write E (fst (trimText E (precededBySpace s) rest
                    (ReplaceMultiple (data t) IsWhitespace " ")))
      (setPrecededBySpace (setTb s rest)
         (snd (trimText E (precededBySpace s) rest
                 (ReplaceMultiple (data t) IsWhitespace " ")))).
Proof.
  intros Htb HT Hraw Hne.
  unfold step. rewrite Htb, Shift_cons by (rewrite HT; discriminate).
  rewrite HT. unfold textCase. cbn [rawTag setTb tb precededBySpace].
  rewrite Hraw. change (heq html.Zero html.Zero) with true. cbn [negb].
  destruct (ReplaceMultiple (data t) IsWhitespace " ") as [|c d] eqn:Hd;
    [contradiction|].
  change (0 <? length (c :: d)) with true. cbn iota.
  destruct (trimText E (precededBySpace s) rest (c :: d)). reflexivity.
Qed.

(** C2 (as amended): for a text token whose collapsed content [d] ends in a
    space, with [d1] the data left by the leading-space suppression: the new
    [precededBySpace] is true exactly when the data written ends in a space,
    or nothing is written because the leading-space suppression took a lone
    space; when the trailing space is trimmed, the flag is false and the
    data written does not end in a space. *)
Theorem C2_flag_after_trailing_space (E : Env) (pbs : bool) (l : list Token)
    (raw : bytes) :
  let d := ReplaceMultiple raw IsWhitespace " " in
  let d1 := if pbs && isAt d 0 " " then drop 1 d else d in
  let r := trimText E pbs l d in
  last d = Some " "%byte ->
  (snd r = true <-> last (fst r) = Some " "%byte \/ (fst r = [] /\ pbs = true))
  /\ (d1 <> [] -> trimScan E l = true ->
      fst r = take (length d1 - 1) d1 /\ snd r = false
      /\ last (fst r) <> Some " "%byte)
  /\ (d1 <> [] -> trimScan E l = false -> r = (d1, true)).
Proof.
  intros d d1 r Hlast.
  assert (Hn : noDoubleSpace d1).
  { subst d1. pose proof (proj1 (ReplaceMultipleFrom_collapsed raw false)) as H.
    fold (ReplaceMultiple raw IsWhitespace " ") in H. fold d in H.
    destruct (pbs && isAt d 0 " "); [apply noDoubleSpace_drop1|]; exact H. }
  assert (Hl1 : d1 <> [] -> last d1 = Some " "%byte).
  { subst d1. destruct (pbs && isAt d 0 " "); [|intros _; exact Hlast].
    destruct d as [|c [|c' d']]; cbn; try congruence. intros _. exact Hlast. }
  assert (Hp : d1 = [] -> pbs = true).
  { subst d1. destruct pbs; [reflexivity|]. cbn. intros ->. discriminate. }
  assert (Hq : pbs = true -> d1 <> [" "%byte]).
  { subst d1. intros ->. cbn [andb].
    pose proof (proj1 (ReplaceMultipleFrom_collapsed raw false)) as H.
    fold (ReplaceMultiple raw IsWhitespace " ") in H. fold d in H.
    destruct (isAt d 0 " ") eqn:H0.
    - destruct d as [|c [|c' d']]; cbn; try discriminate.
      intros [= -> ->]. unfold isAt in H0. cbn in H0. apply beq_true in H0.
      destruct H as [H _]. apply H. split; [exact H0 | reflexivity].
    - intros Hd. rewrite Hd in H0. discriminate. }
  assert (Hr : r = if length d1 =? 0 then (d1, true)
                   else if isAt d1 (length d1 - 1) " "
                        then if trimScan E l then (take (length d1 - 1) d1, false)
                             else (d1, true)
                        else (d1, false)) by reflexivity.
  clearbody r d1. clear Hlast.
  destruct d1 as [|c d1'].
  - cbn in Hr. subst r. cbn. repeat split; try congruence.
    intros _. right. split; [reflexivity | apply Hp; reflexivity].
  - assert (Hne : c :: d1' <> []) by discriminate.
    specialize (Hl1 Hne).
    rewrite (proj2 (isAt_last (c :: d1') " " Hne) Hl1) in Hr.
    change (length (c :: d1') =? 0) with false in Hr.
    pose proof (removelast_not_space _ Hn Hl1) as Hrl.
    destruct (trimScan E l); subst r; cbn [fst snd].
    + split; [|split]; [|auto|discriminate].
      split; [discriminate|]. intros [H | [H1 H2]]; [contradiction|].
      exfalso. destruct d1' as [|c' d1'']; [|discriminate H1].
      cbn in Hl1. injection Hl1 as ->. apply (Hq H2). reflexivity.
    + split; [|split]; [|discriminate|auto].
      split; [intros _; left; exact Hl1 | reflexivity].
Qed.

Lemma C2_flag_after_trailing_space_witness :
  trimText Sample.env true [Sample.startTag "span" html.Span]
    (ReplaceMultiple (bs "a  ") IsWhitespace " ")
  = (bs "a ", true).
Proof.
  apply (C2_flag_after_trailing_space Sample.env true
           [Sample.startTag "span" html.Span] (bs "a  "));
    first [reflexivity | discriminate].
Defined.

(** C2 (as stated) fails: the trailing space of "a " is trimmed because the
    next text token begins with a space, the flag is then false, and the
    next text token keeps its leading space. *)
Lemma C2_flag_false_after_trim :
  (exists s1,
      step Sample.env
        (initial [Sample.text "a "; Sample.comment "x"; Sample.text " b"])
      = Val tt s1
      /\ w s1 = bs "a" /\ precededBySpace s1 = false)
  /\ output (Minify Sample.env
               [Sample.text "a "; Sample.comment "x"; Sample.text " b"])
     = Some (bs "a b").
Proof.
  split; [eexists; split; [reflexivity | split; reflexivity] | reflexivity].
Qed.

(** ** Text inside a raw tag *)

Lemma rawContent_whole mediatype d :
  fst (rawContent mediatype d) ++ snd (rawContent mediatype d)
  = if bytes_eqb mediatype (bs "text/html") && isCDATA (Trim d IsWhitespace)
    then Trim d IsWhitespace else d.
Proof.
  unfold rawContent.
  destruct (bytes_eqb mediatype (bs "text/html")); [|reflexivity].
  destruct (isCDATA (Trim d IsWhitespace)) eqn:Hc; [|reflexivity].
  cbn [andb fst snd]. unfold isCDATA in Hc.
  apply andb_prop in Hc as [Hc _]. apply andb_prop in Hc as [_ Hc].
  apply bytes_eqb_true in Hc. rewrite <- Hc. apply take_drop.
Qed.

(** C7: for a text token inside an open raw-text element whose text goes to
    the registry (script, style, iframe, svg or math), on a writer that does
    not fail: when the registry reports that no minifier is registered for
    the effective media type, the content is written to the sink unmodified
    and the loop goes on with the next token; any other error of the
    registry's minifier makes [Minify] return at once, with that error.  The
    content is what line 96 hands to the registry: the token's data, or, for
    text/html data that is a CDATA section once trimmed, what follows the
    marker, which is written first (lines 87-95). *)
Theorem C7_unregistered_or_failing_minifier (E : Env) (s : State) (t : Token)
    (rest : list Token) :
  tb s = t :: rest ->
  TokenType t = html.TextToken ->
  In (rawTag s) [html.Style; html.Script; html.Iframe; html.Svg; html.Math] ->
  (forall written p, wfail E written p = None) ->
  let pre := fst (rawContent (mediatypeOf s) (data t)) in
  let d := snd (rawContent (mediatypeOf s) (data t)) in
  (m E (mediatypeOf s) d = ([], Some ErrNotExist) ->
   step E s = Val tt (setW (setTb s rest) (w s ++ pre ++ d)))
  /\ (forall out e,
        m E (mediatypeOf s) d = (out, Some e) -> e <> ErrNotExist ->
        step E s = Ret (Some e) (setW (setTb s rest) (w s ++ pre ++ out))
        /\ forall n, loop E (S n) s
                     = Returned (Some e) (setW (setTb s rest) (w s ++ pre ++ out))).
Proof.
  intros Htb HT Hraw Hw pre d.
  assert (Hstep : forall out e, m E (mediatypeOf s) d = (out, Some e) ->
            step E s =
              if decide (e = ErrNotExist)
              then Val tt (setW (setTb s rest) (w s ++ pre ++ out ++ d))
              else Ret (Some e) (setW (setTb s rest) (w s ++ pre ++ out))).
  { intros out e Hm. unfold step.
    rewrite Htb, Shift_cons by (rewrite HT; discriminate). rewrite HT.
    unfold textCase.
    assert (Hnz : heq (rawTag (setTb s rest)) html.Zero = false).
    { apply heq_false. cbn. intros Hz. rewrite Hz in Hraw.
      cbn in Hraw. intuition discriminate. }
    rewrite Hnz. cbn [negb]. unfold rawText.
    assert (Hfive : heq (rawTag (setTb s rest)) html.Style
                    || heq (rawTag (setTb s rest)) html.Script
                    || heq (rawTag (setTb s rest)) html.Iframe
                    || heq (rawTag (setTb s rest)) html.Svg
                    || heq (rawTag (setTb s rest)) html.Math = true).
    { cbn [rawTag setTb]. cbn in Hraw.
      destruct Hraw as [<- | [<- | [<- | [<- | [<- | []]]]]]; reflexivity. }
    rewrite Hfive.
    change (mediatypeOf (setTb s rest)) with (mediatypeOf s).
    subst pre d. unfold rawContent in *.
    destruct (bytes_eqb (mediatypeOf s) (bs "text/html")
              && isCDATA (Trim (data t) IsWhitespace));
      cbn [fst snd] in *; unfold bind, write, callMinify, ret;
      rewrite ?Hw; cbn [w setW setTb]; rewrite Hm; cbn [fst snd];
      destruct (decide (e = ErrNotExist)); rewrite ?Hw; cbn;
      rewrite <- ?app_assoc; reflexivity. }
  split.
  - intros Hm. rewrite (Hstep _ _ Hm). cbn. reflexivity.
  - intros out e Hm Hne.
    assert (Hs := Hstep _ _ Hm).
    destruct (decide (e = ErrNotExist)) as [Heq | _]; [contradiction|].
    split; [exact Hs|]. intros n. cbn [loop]. rewrite Hs. reflexivity.
Qed.

Lemma C7_unregistered_or_failing_minifier_witness :
  step Sample.env
    (mkState [Sample.text "a { }"] (bs "<style>") html.Style [] true
       (bs "text/javascript") (bs "text/css") (bs "text/css;inline=1") [0; 0; 0; 0])
  = Val tt
      (mkState [] (bs "<style>a { }") html.Style [] true
         (bs "text/javascript") (bs "text/css") (bs "text/css;inline=1") [0; 0; 0; 0])
  /\ step failingRegistry
       (mkState [Sample.text "a { }"] (bs "<style>") html.Style [] true
          (bs "text/javascript") (bs "text/css") (bs "text/css;inline=1") [0; 0; 0; 0])
     = Ret (Some (ErrOther 1))
         (mkState [] (bs "<style>x") html.Style [] true
            (bs "text/javascript") (bs "text/css") (bs "text/css;inline=1") [0; 0; 0; 0]).
Proof.
  split.
  - apply (C7_unregistered_or_failing_minifier Sample.env
             (mkState [Sample.text "a { }"] (bs "<style>") html.Style [] true
                (bs "text/javascript") (bs "text/css") (bs "text/css;inline=1")
                [0; 0; 0; 0])
             (Sample.text "a { }") []);
      first [reflexivity | (left; reflexivity)].
  - apply (proj2 (C7_unregistered_or_failing_minifier failingRegistry
                    (mkState [Sample.text "a { }"] (bs "<style>") html.Style [] true
                       (bs "text/javascript") (bs "text/css") (bs "text/css;inline=1")
                       [0; 0; 0; 0])
                    (Sample.text "a { }") [] eq_refl eq_refl
                    (or_introl eq_refl) (fun _ _ => eq_refl))
                 (bs "x") (ErrOther 1));
      [reflexivity | discriminate].
Defined.

(** ** Collapsed text *)

Lemma ReplaceMultipleFrom_is_collapsed raw prev :
  collapsed prev (ReplaceMultipleFrom prev raw IsWhitespace " ").
Proof.
  revert prev. induction raw as [|c raw IH]; intros prev; cbn; [exact I|].
  destruct (IsWhitespace c) eqn:Hc.
  - destruct prev; [apply IH|]. cbn. auto.
  - cbn. rewrite Hc. apply IH.
Qed.


Lemma collapsed_weaken y : collapsed true y -> collapsed false y.
Proof.
  destruct y as [|c y]; cbn; [trivial|].
  destruct (IsWhitespace c); [|trivial]. intros (_ & H & _). discriminate.
Qed.

Lemma collapsed_any prev y : collapsed prev y -> collapsed false y.
Proof. destruct prev; [apply collapsed_weaken | trivial]. Qed.

Lemma collapsed_take prev n y : collapsed prev y -> collapsed prev (take n y).
Proof.
  revert prev n. induction y as [|c y IH]; intros prev [|n] H; cbn; try exact I.
  cbn in H. destruct (IsWhitespace c).
  - destruct H as (H1 & H2 & H3). auto.
  - auto.
Qed.


Lemma collapsed_true_head y : collapsed true y -> isAt y 0 " " = false.
Proof.
  destruct y as [|c y]; [reflexivity|]. cbn. unfold isAt. cbn.
  destruct (beq c " ") eqn:Hc; [|reflexivity].
  apply beq_true in Hc. subst c. cbn. intros (_ & H & _). discriminate.
Qed.

(** ** Quoting of attribute values *)

Lemma isAtQuoteEntity_quote b q n :
  isAtQuoteEntity b = Some (q, n) -> q = dquote \/ q = squote.
Proof.
  unfold isAtQuoteEntity.
  repeat match goal with
         | |- context [if ?c then _ else _] => destruct c
         end; intros [= <- <-]; auto.
Qed.

Ltac counts := repeat split; first [lia | reflexivity].

Lemma countQuotes_spec l k :
  singles (countQuotes l k) = singles k + literalCount squote l + entityCount squote l
  /\ doubles (countQuotes l k) = doubles k + literalCount dquote l + entityCount dquote l
  /\ unquoted (countQuotes l k) = unquoted k && plain l.
Proof.
  revert k. induction l as [|c l IH]; intros k.
  - cbn. rewrite andb_true_r. counts.
  - cbn [countQuotes literalCount entityCount plain].
    destruct (IH (if beq c "&" then
           match isAtQuoteEntity (c :: l) with
           | Some (quote, _) =>
               if beq quote dquote
               then mkCount (singles k) (S (doubles k)) false
               else mkCount (S (singles k)) (doubles k) false
           | None => k
           end
         else if beq c dquote then mkCount (singles k) (S (doubles k)) false
         else if beq c squote then mkCount (S (singles k)) (doubles k) false
         else if unquoted k &&
                 (beq c "`" || beq c "<" || beq c "=" || beq c ">" || IsWhitespace c)
              then mkCount (singles k) (doubles k) false
         else k)) as (Hs & Hd & Hu).
    rewrite Hs, Hd, Hu. clear IH Hs Hd Hu.
    destruct (beq c "&") eqn:Hamp.
    + apply beq_true in Hamp. subst c.
      change (beq "&" squote) with false. change (beq "&" dquote) with false.
      destruct (isAtQuoteEntity ("&"%byte :: l)) as [[q n]|] eqn:He.
      * destruct (isAtQuoteEntity_quote _ _ _ He) as [-> | ->]; cbn;
          rewrite ?andb_false_r; counts.
      * cbn. counts.
    + unfold forbidsUnquoted.
      destruct (beq c dquote) eqn:Hdq.
      * apply beq_true in Hdq. subst c. cbn. rewrite ?andb_false_r. counts.
      * destruct (beq c squote) eqn:Hsq.
        -- cbn. rewrite ?andb_false_r. counts.
        -- cbn [orb negb].
           destruct (unquoted k) eqn:Hu; cbn [andb];
             destruct (beq c "`" || beq c "<" || beq c "=" || beq c ">" || IsWhitespace c);
             cbn; rewrite ?Hu; cbn; counts.
Qed.

(** A value without quote, quote entity and forbidden byte is written as it
    is. *)
Lemma escapeAttrVal_plain (orig b : bytes) :
  plain b = true -> escapeAttrVal orig b = Returns b.
Proof.
  intros Hp. unfold escapeAttrVal.
  destruct (countQuotes_spec b (mkCount 0 0 true)) as (_ & _ & H3).
  rewrite H3, Hp. reflexivity.
Qed.

Lemma escapeAttrVal_reuse (orig b : bytes) :
  plain b = false ->
  literalCount squote b + entityCount squote b = 0 ->
  literalCount dquote b + entityCount dquote b = 0 ->
  length orig = length b + 2 ->
  escapeAttrVal orig b = Returns orig.
Proof.
  intros Hp Hs Hd Hlen. unfold escapeAttrVal.
  destruct (countQuotes_spec b (mkCount 0 0 true)) as (H1 & H2 & H3).
  rewrite H1, H2, H3, Hp. cbn [singles doubles unquoted andb Nat.add].
  rewrite Hs, Hd, Hlen. cbn. rewrite Nat.eqb_refl. reflexivity.
Qed.

(** C5 (as amended): a value that cannot be written unquoted, that holds no
    literal quote and no quote entity, and whose original bytes are exactly
    two bytes longer, is written as the original bytes. *)
Theorem C5_reuse_original (orig b : bytes) :
  plain b = false ->
  literalCount dquote b = 0 -> literalCount squote b = 0 ->
  entityCount dquote b = 0 -> entityCount squote b = 0 ->
  length orig = length b + 2 ->
  escapeAttrVal orig b = Returns orig.
Proof.
  intros Hp Hd Hs Hed Hes Hlen.
  apply escapeAttrVal_reuse; [exact Hp | lia | lia | exact Hlen].
Qed.

Lemma C5_reuse_original_witness :
  escapeAttrVal (bs "'a b'") (bs "a b") = Returns (bs "'a b'").
Proof.
  apply (C5_reuse_original (bs "'a b'") (bs "a b")); reflexivity.
Defined.

(** C5 (as stated) fails: the value [a b&#34;] holds no literal quote and
    its original is two bytes longer, but the quote entity counts as a
    double quote and the value is rebuilt in single quotes. *)
Lemma C5_entity_prevents_reuse :
  literalCount dquote (bs "a b&#34;") = 0
  /\ literalCount squote (bs "a b&#34;") = 0
  /\ plain (bs "a b&#34;") = false
  /\ length ([dquote] ++ bs "a b&#34;" ++ [dquote]) = length (bs "a b&#34;") + 2
  /\ escapeAttrVal ([dquote] ++ bs "a b&#34;" ++ [dquote]) (bs "a b&#34;")
     = Returns (bs "'a b" ++ [dquote] ++ bs "'")
  /\ escapeAttrVal ([dquote] ++ bs "a b&#34;" ++ [dquote]) (bs "a b&#34;")
     <> Returns ([dquote] ++ bs "a b&#34;" ++ [dquote]).
Proof.
  repeat split; try (vm_compute; reflexivity). vm_compute. discriminate.
Qed.

(** ** The rebuilt value *)

Lemma length_fill cap X : length (fill cap X) = cap.
Proof. unfold fill. rewrite length_app, length_take, length_replicate. lia. Qed.

Lemma copyAt_fill cap X src :
  copyAt (fill cap X) (Nat.min cap (length X)) src
  = (fill cap (X ++ src),
     Nat.min cap (length (X ++ src)) - Nat.min cap (length X)).
Proof.
  unfold copyAt. rewrite length_fill, length_app.
  destruct (le_lt_dec cap (length X)) as [Hle | Hlt].
  - rewrite !Nat.min_l by lia. rewrite Nat.sub_diag. cbn [Nat.min].
    rewrite take_0, Nat.add_0_r, app_nil_l, take_drop.
    f_equal. unfold fill. rewrite length_app.
    rewrite take_app_le by lia.
    replace (cap - (length X + length src)) with (cap - length X) by lia.
    reflexivity.
  - rewrite (Nat.min_r cap (length X)) by lia. f_equal; [|lia].
    unfold fill. rewrite (take_ge X cap) by lia.
    rewrite take_app_length, drop_app_ge by lia.
    rewrite drop_replicate, take_app_ge, length_app by lia.
    rewrite <- app_assoc. f_equal.
    destruct (le_lt_dec (length src) (cap - length X)) as [Hs | Hs].
    + rewrite Nat.min_r by lia. rewrite !take_ge by lia.
      f_equal. f_equal. lia.
    + rewrite Nat.min_l by lia. f_equal. f_equal. lia.
Qed.

Lemma skipZeros_ge l i : i <= skipZeros l i.
Proof.
  revert i. induction l as [|c l IH]; intros i; cbn; [lia|].
  destruct (beq c "0"); [|lia]. specialize (IH (S i)). lia.
Qed.

Lemma skipZeros_zero l i k c :
  i <= k -> k < skipZeros l i -> l !! (k - i) = Some c -> c = "0"%byte.
Proof.
  revert i k. induction l as [|x l IH]; intros i k Hik Hk Hl; cbn in *; [lia|].
  destruct (beq x "0") eqn:Hx; [|lia].
  destruct (decide (k = i)) as [-> | Hne].
  - rewrite Nat.sub_diag in Hl. cbn in Hl. injection Hl as <-.
    apply beq_true in Hx. exact Hx.
  - apply (IH (S i) k); [lia | exact Hk |].
    replace (k - i) with (S (k - S i)) in Hl by lia. exact Hl.
Qed.

Lemma EqualCaseInsensitive_lookup s t k c :
  EqualCaseInsensitive s t = true -> s !! k = Some c -> isUpper c = false ->
  t !! k = Some c.
Proof.
  revert t k. induction s as [|d s IH]; intros [|x t] k H Hl Hu; cbn in *;
    try discriminate.
  apply andb_prop in H as [H1 H2].
  destruct k as [|k]; cbn in *.
  - injection Hl as ->. rewrite Hu in H1. cbn in H1. rewrite orb_false_r in H1.
    apply beq_true in H1. congruence.
  - eauto.
Qed.

Lemma harmless_intro c :
  (c = "&"%byte -> False) -> (c = dquote -> False) -> (c = squote -> False) ->
  harmless c.
Proof.
  intros H1 H2 H3. unfold harmless.
  repeat split; apply beq_false; assumption.
Qed.

Lemma isAtQuoteEntity_named b t k c :
  EqualCaseInsensitive (take 4 (drop 1 b)) t = true ->
  (forall j x, j < 4 -> t !! j = Some x -> harmless x) ->
  1 <= k -> k < 5 -> b !! k = Some c -> harmless c.
Proof.
  intros He Ht H1 H5 Hl.
  assert (Hk : take 4 (drop 1 b) !! (k - 1) = Some c).
  { rewrite lookup_take_lt by lia. rewrite lookup_drop.
    replace (1 + (k - 1)) with k by lia. exact Hl. }
  apply harmless_intro; intros ->;
    pose proof (EqualCaseInsensitive_lookup _ _ _ _ He Hk eq_refl) as Hx;
    apply Ht in Hx; try lia; destruct Hx as (Ha & Hb & Hc); discriminate.
Qed.

Lemma isAtQuoteEntity_body b q n k c :
  isAtQuoteEntity b = Some (q, n) ->
  1 <= k -> k < n -> b !! k = Some c -> harmless c.
Proof.
  unfold isAtQuoteEntity.
  destruct (length b <? 5); [discriminate|].
  destruct (isAt b 1 "#") eqn:H1.
  - destruct (isAt b 2 "x") eqn:H2.
    + set (i := skipZeros (drop 3 b) 3).
      assert (Hi : 3 <= i) by apply skipZeros_ge.
      destruct ((i + 2 <? length b) && isAt b i "2" && isAt b (i + 2) ";") eqn:Hc;
        [|discriminate].
      apply andb_prop in Hc as [Hc Hs]. apply andb_prop in Hc as [_ Hd].
      intros Hq Hk1 Hkn Hl.
      assert (Hn : n = i + 3).
      { destruct (isAt b (i + 1) "2"); [congruence|].
        destruct (isAt b (i + 1) "7"); congruence. }
      assert (Hm : isAt b (i + 1) "2" = true \/ isAt b (i + 1) "7" = true).
      { destruct (isAt b (i + 1) "2"); [auto|].
        destruct (isAt b (i + 1) "7"); [auto | discriminate]. }
      destruct (decide (k = 1)) as [-> | ?];
        [rewrite (isAt_lookup _ _ _ _ H1 Hl); repeat split|].
      destruct (decide (k = 2)) as [-> | ?];
        [rewrite (isAt_lookup _ _ _ _ H2 Hl); repeat split|].
      destruct (decide (k = i)) as [-> | ?];
        [rewrite (isAt_lookup _ _ _ _ Hd Hl); repeat split|].
      destruct (decide (k = i + 1)) as [-> | ?];
        [destruct Hm as [Hm | Hm]; rewrite (isAt_lookup _ _ _ _ Hm Hl); repeat split|].
      destruct (decide (k = i + 2)) as [-> | ?];
        [rewrite (isAt_lookup _ _ _ _ Hs Hl); repeat split|].
      assert (Hz : c = "0"%byte).
      { apply (skipZeros_zero (drop 3 b) 3 k); [lia | fold i; lia |].
        rewrite lookup_drop. replace (3 + (k - 3)) with k by lia. exact Hl. }
      rewrite Hz. repeat split.
    + set (i := skipZeros (drop 2 b) 2).
      assert (Hi : 2 <= i) by apply skipZeros_ge.
      destruct ((i + 2 <? length b) && isAt b i "3" && isAt b (i + 2) ";") eqn:Hc;
        [|discriminate].
      apply andb_prop in Hc as [Hc Hs]. apply andb_prop in Hc as [_ Hd].
      intros Hq Hk1 Hkn Hl.
      assert (Hn : n = i + 3).
      { destruct (isAt b (i + 1) "4"); [congruence|].
        destruct (isAt b (i + 1) "9"); congruence. }
      assert (Hm : isAt b (i + 1) "4" = true \/ isAt b (i + 1) "9" = true).
      { destruct (isAt b (i + 1) "4"); [auto|].
        destruct (isAt b (i + 1) "9"); [auto | discriminate]. }
      destruct (decide (k = 1)) as [-> | ?];
        [rewrite (isAt_lookup _ _ _ _ H1 Hl); repeat split|].
      destruct (decide (k = i)) as [-> | ?];
        [rewrite (isAt_lookup _ _ _ _ Hd Hl); repeat split|].
      destruct (decide (k = i + 1)) as [-> | ?];
        [destruct Hm as [Hm | Hm]; rewrite (isAt_lookup _ _ _ _ Hm Hl); repeat split|].
      destruct (decide (k = i + 2)) as [-> | ?];
        [rewrite (isAt_lookup _ _ _ _ Hs Hl); repeat split|].
      assert (Hz : c = "0"%byte).
      { apply (skipZeros_zero (drop 2 b) 2 k); [lia | fold i; lia |].
        rewrite lookup_drop. replace (2 + (k - 2)) with k by lia. exact Hl. }
      rewrite Hz. repeat split.
  - destruct ((6 <=? length b) && isAt b 5 ";") eqn:Hc; [|discriminate].
    apply andb_prop in Hc as [_ H5].
    intros Hq Hk1 Hkn Hl.
    assert (Hn : n = 6).
    { destruct (EqualCaseInsensitive (take 4 (drop 1 b)) (bs "quot")); [congruence|].
      destruct (EqualCaseInsensitive (take 4 (drop 1 b)) (bs "apos")); congruence. }
    destruct (decide (k = 5)) as [-> | ?];
      [rewrite (isAt_lookup _ _ _ _ H5 Hl); repeat split|].
    destruct (EqualCaseInsensitive (take 4 (drop 1 b)) (bs "quot")) eqn:He1.
    + apply (isAtQuoteEntity_named b (bs "quot") k c He1); try lia; [|exact Hl].
      intros [|[|[|[|j]]]] x Hj; try lia; intros [= <-]; repeat split.
    + destruct (EqualCaseInsensitive (take 4 (drop 1 b)) (bs "apos")) eqn:He2;
        [|discriminate].
      apply (isAtQuoteEntity_named b (bs "apos") k c He2); try lia; [|exact Hl].
      intros [|[|[|[|j]]]] x Hj; try lia; intros [= <-]; repeat split.
Qed.

Lemma isAtQuoteEntity_length b q n : isAtQuoteEntity b = Some (q, n) -> 1 <= n.
Proof.
  unfold isAtQuoteEntity.
  repeat match goal with
         | |- context [if ?c then _ else _] => destruct c
         end; intros [= <- <-]; lia.
Qed.

Lemma copy_step cap X src t j :
  t = fill cap X -> j = Nat.min cap (length X) ->
  fst (copyAt t j src) = fill cap (X ++ src)
  /\ j + snd (copyAt t j src) = Nat.min cap (length (X ++ src)).
Proof.
  intros -> ->. rewrite copyAt_fill. cbn [fst snd]. split; [reflexivity|].
  rewrite length_app. lia.
Qed.

Lemma pending_snoc (b pre l' : bytes) c start :
  b = pre ++ c :: l' -> start <= length pre ->
  take (S (length pre) - start) (drop start b)
  = take (length pre - start) (drop start b) ++ [c].
Proof.
  intros -> Hs. rewrite drop_app_le by lia.
  assert (Hl : length (drop start pre) = length pre - start) by apply length_drop.
  rewrite take_app_ge by lia. rewrite take_app_le by lia.
  rewrite (take_ge (drop start pre)) by lia.
  rewrite Hl. replace (S (length pre) - start - (length pre - start)) with 1 by lia.
  reflexivity.
Qed.

Lemma escapeLoop_spec (b : bytes) (quote : byte) (escapedQuote : bytes) l :
  quote = dquote \/ quote = squote ->
  forall pre s X,
    b = pre ++ l ->
    esc_t s = fill (length b + 2) X ->
    esc_j s = Nat.min (length b + 2) (length X) ->
    (forall k c, k < esc_start s - length pre -> l !! k = Some c -> harmless c) ->
    exists X',
      esc_t (escapeLoop b l (length pre) quote escapedQuote s) = fill (length b + 2) X'
      /\ esc_j (escapeLoop b l (length pre) quote escapedQuote s)
         = Nat.min (length b + 2) (length X')
      /\ X' ++ drop (esc_start (escapeLoop b l (length pre) quote escapedQuote s)) b
         = X ++ take (length pre - esc_start s) (drop (esc_start s) b)
             ++ escapeSpec quote escapedQuote (esc_start s - length pre) l.
Proof.
  intros Hquote. induction l as [|c l' IH]; intros pre s X Hb Ht Hj Hskip.
  - exists X. cbn [escapeLoop escapeSpec]. rewrite app_nil_r in *. subst pre.
    split; [exact Ht|]. split; [exact Hj|]. f_equal.
    rewrite take_ge; [reflexivity|]. rewrite length_drop. lia.
  - assert (Hb' : b = (pre ++ [c]) ++ l') by (rewrite <- app_assoc; exact Hb).
    assert (Hlen : length (pre ++ [c]) = S (length pre))
      by (rewrite length_app; cbn; lia).
    cbn [escapeLoop]. rewrite <- Hlen.
    destruct (esc_start s - length pre) as [|k] eqn:Hsk.
    + (* no entity is being passed over *)
      assert (Hle : esc_start s <= length pre) by lia.
      cbn [escapeSpec].
      destruct (beq c "&") eqn:Hamp.
      * destruct (isAtQuoteEntity (c :: l')) as [[entityQuote n]|] eqn:He.
        -- pose proof (isAtQuoteEntity_length _ _ _ He) as Hn.
           pose proof (copy_step _ X
                         (take (length pre - esc_start s) (drop (esc_start s) b))
                         _ _ Ht Hj) as [Ht1 Hj1].
           destruct (copyAt (esc_t s) (esc_j s)
                       (take (length pre - esc_start s) (drop (esc_start s) b)))
             as [t1 n1]. cbn [fst snd] in Ht1, Hj1.
           set (repl := if negb (beq entityQuote quote)
                        then [entityQuote] else escapedQuote).
           pose proof (copy_step _ _ repl _ _ Ht1 Hj1) as [Ht2 Hj2].
           assert (Hcopy :
                     (if negb (beq entityQuote quote)
                      then copyAt t1 (esc_j s + n1) [entityQuote]
                      else copyAt t1 (esc_j s + n1) escapedQuote)
                     = copyAt t1 (esc_j s + n1) repl).
           { subst repl. destruct (negb (beq entityQuote quote)); reflexivity. }
           rewrite Hcopy.
           destruct (copyAt t1 (esc_j s + n1) repl) as [t2 n2].
           cbn [fst snd] in Ht2, Hj2.
           destruct (IH (pre ++ [c]) (mkEsc t2 (esc_j s + n1 + n2) (length pre + n))
                       _ Hb' Ht2 Hj2) as (X' & H1 & H2 & H3).
           { cbn [esc_start]. intros k' c' Hk' Hl'.
             apply (isAtQuoteEntity_body _ _ _ (S k') c' He); [lia | lia | exact Hl']. }
           exists X'. split; [exact H1|]. split; [exact H2|].
           rewrite H3. cbn [esc_start]. rewrite Hlen.
           replace (S (length pre) - (length pre + n)) with 0 by lia.
           replace (length pre + n - S (length pre)) with (n - 1) by lia.
           rewrite take_0, app_nil_l, <- !app_assoc. reflexivity.
        -- destruct (IH (pre ++ [c]) s X Hb' Ht Hj) as (X' & H1 & H2 & H3).
           { intros k' c' Hk'. lia. }
           exists X'. split; [exact H1|]. split; [exact H2|].
           rewrite H3, Hlen.
           rewrite (pending_snoc b pre l' c) by assumption.
           replace (esc_start s - S (length pre)) with 0 by lia.
           rewrite <- !app_assoc. reflexivity.
      * destruct (beq c quote) eqn:Hq.
        -- pose proof (copy_step _ X
                         (take (length pre - esc_start s) (drop (esc_start s) b))
                         _ _ Ht Hj) as [Ht1 Hj1].
           destruct (copyAt (esc_t s) (esc_j s)
                       (take (length pre - esc_start s) (drop (esc_start s) b)))
             as [t1 n1]. cbn [fst snd] in Ht1, Hj1.
           pose proof (copy_step _ _ escapedQuote _ _ Ht1 Hj1) as [Ht2 Hj2].
           destruct (copyAt t1 (esc_j s + n1) escapedQuote) as [t2 n2].
           cbn [fst snd] in Ht2, Hj2.
           destruct (IH (pre ++ [c]) (mkEsc t2 (esc_j s + n1 + n2) (S (length pre)))
                       _ Hb' Ht2 Hj2) as (X' & H1 & H2 & H3).
           { cbn [esc_start]. intros k' c' Hk'. lia. }
           rewrite Hlen in *.
           exists X'. split; [exact H1|]. split; [exact H2|].
           rewrite H3. cbn [esc_start].
           rewrite Nat.sub_diag, take_0, app_nil_l, <- !app_assoc. reflexivity.
        -- destruct (IH (pre ++ [c]) s X Hb' Ht Hj) as (X' & H1 & H2 & H3).
           { intros k' c' Hk'. lia. }
           exists X'. split; [exact H1|]. split; [exact H2|].
           rewrite H3, Hlen.
           rewrite (pending_snoc b pre l' c) by assumption.
           replace (esc_start s - S (length pre)) with 0 by lia.
           rewrite <- !app_assoc. reflexivity.
    + (* inside an entity: the byte is passed over *)
      assert (Hh : harmless c) by (apply (Hskip 0 c); [lia | reflexivity]).
      destruct Hh as (Ha & Hd & Hs).
      assert (Hq : beq c quote = false) by (destruct Hquote as [-> | ->]; assumption).
      rewrite Ha, Hq. cbn [escapeSpec].
      destruct (IH (pre ++ [c]) s X Hb' Ht Hj) as (X' & H1 & H2 & H3).
      { intros k' c' Hk' Hl'. apply (Hskip (S k') c'); [lia | exact Hl']. }
      exists X'. split; [exact H1|]. split; [exact H2|].
      rewrite H3, Hlen.
      replace (S (length pre) - esc_start s) with 0 by lia.
      replace (length pre - esc_start s) with 0 by lia.
      replace (esc_start s - S (length pre)) with k by lia.
      reflexivity.
Qed.

(** The rebuilt value fits the buffer when its inside is no longer than [b];
    otherwise the call panics. *)
Lemma escapeAttrVal_rebuild (orig b : bytes) :
  plain b = false ->
  ~ (literalCount squote b + entityCount squote b = 0
     /\ literalCount dquote b + entityCount dquote b = 0
     /\ length orig = length b + 2) ->
  escapeAttrVal orig b =
    if length (escapeSpec (chosenQuote b) (chosenEscape b) 0 b) <=? length b
    then Returns (chosenQuote b :: escapeSpec (chosenQuote b) (chosenEscape b) 0 b
                    ++ [chosenQuote b])
    else Panics.
Proof.
  intros Hp Hno. unfold escapeAttrVal.
  destruct (countQuotes_spec b (mkCount 0 0 true)) as (H1 & H2 & H3).
  rewrite H1, H2, H3, Hp. cbn [singles doubles unquoted andb Nat.add].
  destruct ((literalCount squote b + entityCount squote b =? 0)
            && (literalCount dquote b + entityCount dquote b =? 0)
            && (length orig =? length b + 2)) eqn:Hc.
  { exfalso. apply Hno.
    apply andb_prop in Hc as [Hc Hc3]. apply andb_prop in Hc as [Hc1 Hc2].
    apply Nat.eqb_eq in Hc1, Hc2, Hc3. auto. }
  clear Hc.
  set (quote := chosenQuote b). set (esc := chosenEscape b).
  assert (Hpair :
            (if literalCount squote b + entityCount squote b
                <? literalCount dquote b + entityCount dquote b
             then (squote, escapedSingleQuoteBytes)
             else (dquote, escapedDoubleQuoteBytes)) = (quote, esc)).
  { subst quote esc. unfold chosenQuote, chosenEscape.
    destruct (_ <? _); reflexivity. }
  rewrite Hpair.
  assert (Hquote : quote = dquote \/ quote = squote).
  { subst quote. unfold chosenQuote. destruct (_ <? _); auto. }
  assert (Ht0 : <[0 := quote]> (replicate (length b + 2) x00)
                = fill (length b + 2) [quote]).
  { unfold fill. replace (length b + 2) with (S (S (length b))) by lia.
    cbn. rewrite ?Nat.sub_0_r. reflexivity. }
  rewrite Ht0.
  destruct (escapeLoop_spec b quote esc b Hquote [] (mkEsc (fill (length b + 2) [quote]) 1 0)
              [quote] eq_refl eq_refl) as (X' & Ht & Hj & HX).
  { cbn. lia. }
  { cbn. intros k c Hk. lia. }
  cbn [length esc_start Nat.sub take drop app] in Ht, Hj, HX.
  rewrite take_0 in HX. cbn [app] in HX.
  set (s := escapeLoop b b 0 quote esc (mkEsc (fill (length b + 2) [quote]) 1 0)) in *.
  pose proof (copy_step _ X' (drop (esc_start s) b) _ _ Ht Hj) as [Ht1 Hj1].
  destruct (copyAt (esc_t s) (esc_j s) (drop (esc_start s) b)) as [t1 n1].
  cbn [fst snd] in Ht1, Hj1. rewrite HX in Ht1, Hj1.
  set (body := escapeSpec quote esc 0 b) in *.
  rewrite Hj1, Ht1, length_fill. cbn [length].
  clear H1 H2 H3 Hpair Ht0 Ht Hj HX Ht1 Hj1 Hno. clearbody body quote esc.
  destruct (length body <=? length b) eqn:Hfit.
  - apply Nat.leb_le in Hfit.
    replace (Nat.min (length b + 2) (S (length body))) with (S (length body)) by lia.
    assert (Hlt : (S (length body) <? length b + 2) = true)
      by (apply Nat.ltb_lt; lia).
    rewrite Hlt.
    f_equal. unfold fill. rewrite (take_ge (quote :: body)) by (cbn; lia).
    rewrite insert_app_r_alt by (cbn; lia).
    cbn [length]. rewrite Nat.sub_diag.
    destruct (length b + 2 - S (length body)) as [|k] eqn:Hk; [lia|].
    cbn [replicate]. change (<[0:=quote]> (x00 :: replicate k x00))
      with ([quote] ++ replicate k x00).
    rewrite app_assoc. apply take_app_length'.
    cbn. rewrite length_app. cbn. lia.
  - apply Nat.leb_gt in Hfit.
    assert (Hge : (Nat.min (length b + 2) (S (length body)) <? length b + 2) = false)
      by (apply Nat.ltb_ge; lia).
    rewrite Hge. reflexivity.
Qed.

(** [escapeAttrVal] panics exactly when it rebuilds the value and the
    rebuilt inside is longer than the value. *)
Lemma escapeAttrVal_panics_iff (orig b : bytes) :
  escapeAttrVal orig b = Panics
  <-> plain b = false
      /\ ~ (literalCount squote b + entityCount squote b = 0
            /\ literalCount dquote b + entityCount dquote b = 0
            /\ length orig = length b + 2)
      /\ length b < length (escapeSpec (chosenQuote b) (chosenEscape b) 0 b).
Proof.
  split.
  - intros H.
    destruct (plain b) eqn:Hp.
    { unfold escapeAttrVal in H.
      destruct (countQuotes_spec b (mkCount 0 0 true)) as (_ & _ & H3).
      rewrite H3, Hp in H. discriminate H. }
    destruct (Nat.eq_dec (literalCount squote b + entityCount squote b) 0) as [Hs | Hs];
      [destruct (Nat.eq_dec (literalCount dquote b + entityCount dquote b) 0) as [Hd | Hd];
       [destruct (Nat.eq_dec (length orig) (length b + 2)) as [Hl | Hl]|]|].
    + exfalso. rewrite (escapeAttrVal_reuse orig b Hp Hs Hd Hl) in H. discriminate H.
    + split; [reflexivity|]. split; [tauto|].
      rewrite escapeAttrVal_rebuild in H by tauto.
      destruct (_ <=? _) eqn:Hf; [discriminate|]. apply Nat.leb_gt in Hf. exact Hf.
    + split; [reflexivity|]. split; [tauto|].
      rewrite escapeAttrVal_rebuild in H by tauto.
      destruct (_ <=? _) eqn:Hf; [discriminate|]. apply Nat.leb_gt in Hf. exact Hf.
    + split; [reflexivity|]. split; [tauto|].
      rewrite escapeAttrVal_rebuild in H by tauto.
      destruct (_ <=? _) eqn:Hf; [discriminate|]. apply Nat.leb_gt in Hf. exact Hf.
  - intros (Hp & Hno & Hlen).
    rewrite escapeAttrVal_rebuild by assumption.
    rewrite (proj2 (Nat.leb_gt _ _) Hlen). reflexivity.
Qed.

(** C3 (as amended): let [d] and [s] count the double and the single quotes
    of a value that cannot be written unquoted, literal quotes and quote
    entities alike.  When the original bytes are not reused (no quote at all
    and an original two bytes longer) and the rebuilt value fits the buffer,
    the value is wrapped in single quotes when [d > s] and in double quotes
    when [d <= s]. *)
Theorem C3_quote_choice (orig b : bytes) :
  let d := literalCount dquote b + entityCount dquote b in
  let s := literalCount squote b + entityCount squote b in
  let q := if s <? d then squote else dquote in
  let body := escapeSpec q (chosenEscape b) 0 b in
  plain b = false ->
  ~ (s = 0 /\ d = 0 /\ length orig = length b + 2) ->
  length body <= length b ->
  escapeAttrVal orig b = Returns (q :: body ++ [q])
  /\ (s < d -> q = squote)
  /\ (d <= s -> q = dquote).
Proof.
  intros d s q body Hp Hno Hfit.
  split; [|split].
  - rewrite (escapeAttrVal_rebuild orig b Hp Hno).
    change (chosenQuote b) with q. fold body.
    rewrite (proj2 (Nat.leb_le _ _) Hfit). reflexivity.
  - intros H. subst q. rewrite (proj2 (Nat.ltb_lt _ _) H). reflexivity.
  - intros H. subst q. rewrite (proj2 (Nat.ltb_ge _ _) H). reflexivity.
Qed.

Lemma C3_quote_choice_witness :
  escapeAttrVal (bs "'say " ++ [dquote] ++ bs "hi" ++ [dquote] ++ bs "&#39;'")
    (bs "say " ++ [dquote] ++ bs "hi" ++ [dquote] ++ bs "&#39;")
  = Returns (bs "'say " ++ [dquote] ++ bs "hi" ++ [dquote] ++ bs "&#39;'").
Proof.
  apply (C3_quote_choice
           (bs "'say " ++ [dquote] ++ bs "hi" ++ [dquote] ++ bs "&#39;'")
           (bs "say " ++ [dquote] ++ bs "hi" ++ [dquote] ++ bs "&#39;")).
  - reflexivity.
  - vm_compute. intros (H & _). discriminate H.
  - vm_compute. lia.
Defined.

(** C3 (as stated) fails on the literal counts: a value with one literal
    double quote, no literal single quote and two single-quote entities is
    wrapped in double quotes; a value without any quote whose original was
    in single quotes stays in single quotes. *)
Lemma C3_literal_counts_do_not_decide :
  (literalCount dquote ([dquote] ++ bs "&#39;&#39;") = 1
   /\ literalCount squote ([dquote] ++ bs "&#39;&#39;") = 0
   /\ plain ([dquote] ++ bs "&#39;&#39;") = false
   /\ escapeAttrVal ([dquote] ++ bs "&#39;&#39;") ([dquote] ++ bs "&#39;&#39;")
      = Returns ([dquote] ++ bs "&#34;''" ++ [dquote]))
  /\ (literalCount dquote (bs "a b") = 0
      /\ literalCount squote (bs "a b") = 0
      /\ plain (bs "a b") = false
      /\ escapeAttrVal (bs "'a b'") (bs "a b") = Returns (bs "'a b'")).
Proof.
  repeat split; vm_compute; reflexivity.
Qed.


(** C9: the value [a'""] (one single quote, two double quotes) is wrapped
    in single quotes; the escape of its single quote is four bytes longer
    than the quote, the copies fill the buffer of [len(b)+2] bytes, and the
    closing [t[j] = quote] indexes the buffer at its length: the call
    panics, in [escapeAttrVal] and in [Minify] on a tag with this value. *)
Theorem C9_quote_escape_overruns_buffer :
  escapeAttrVal (bs "a'" ++ [dquote; dquote]) (bs "a'" ++ [dquote; dquote]) = Panics
  /\ exists s,
      Minify Sample.env
        [Sample.startTag "a" html.A;
         Sample.attribute "title" html.Title (bs "a'" ++ [dquote; dquote]);
         Sample.close]
      = Panicked s.
Proof.
  split; [vm_compute; reflexivity | eexists; vm_compute; reflexivity].
Qed.

(** ** The rewrite pass *)

Lemma lastIndex_none h attrs :
  (forall i a, attrs !! i = Some a -> Hash a <> h) -> lastIndex h attrs = None.
Proof.
  induction attrs as [|x attrs IH]; intros H; cbn; [reflexivity|].
  rewrite IH by (intros i a Hi; apply (H (S i) a Hi)).
  rewrite (proj2 (heq_false _ _) (H 0 x eq_refl)). reflexivity.
Qed.

Lemma lastIndex_unique h attrs p a :
  attrs !! p = Some a -> Hash a = h ->
  (forall i x, attrs !! i = Some x -> Hash x = h -> i = p) ->
  lastIndex h attrs = Some p.
Proof.
  revert p. induction attrs as [|x attrs IH]; intros p Hp Hh Hu; [discriminate|].
  cbn. destruct p as [|p].
  - rewrite lastIndex_none.
    + cbn in Hp. injection Hp as ->. rewrite (proj2 (heq_true _ _) Hh). reflexivity.
    + intros i y Hi Hy. specialize (Hu (S i) y Hi Hy). discriminate.
  - rewrite (IH p Hp Hh).
    + reflexivity.
    + intros i y Hi Hy. specialize (Hu (S i) y Hi Hy). congruence.
Qed.

Lemma lastIndex_Some h attrs p :
  lastIndex h attrs = Some p -> exists a, attrs !! p = Some a /\ Hash a = h.
Proof.
  revert p. induction attrs as [|x attrs IH]; intros p; cbn; [discriminate|].
  destruct (lastIndex h attrs) as [q|].
  - intros [= <-]. apply IH. reflexivity.
  - destruct (heq (Hash x) h) eqn:Hx; [|discriminate].
    intros [= <-]. exists x. split; [reflexivity | apply heq_true, Hx].
Qed.

(** The first loop of [getAttributes] leaves in each slot the position,
    plus one, of the last attribute with the slot's hash, and what the slot
    held before when there is none. *)
Lemma scanAttributes_spec attrs rest hashes :
  Forall (fun a => TokenType a = html.AttributeToken) attrs ->
  TokenType (Peek rest 0) <> html.AttributeToken ->
  forall i idx,
    length idx = length hashes ->
    scanAttributes (attrs ++ rest) i hashes idx
    = zip_with (fun hash old =>
                  match lastIndex hash attrs with
                  | Some p => i + p + 1
                  | None => old
                  end) hashes idx.
Proof.
  intros Hattrs Hrest. induction Hattrs as [|x attrs Hx Hattrs IH]; intros i idx Hlen.
  - cbn [app lastIndex].
    assert (Hid : zip_with (fun (_ : html.Hash) (old : nat) => old) hashes idx = idx).
    { clear -Hlen. revert idx Hlen.
      induction hashes as [|h hashes IH]; intros [|v idx] Hlen; cbn in *;
        try discriminate; [reflexivity|].
      rewrite IH by lia. reflexivity. }
    rewrite Hid. destruct rest as [|r rest]; [reflexivity|].
    cbn [scanAttributes]. rewrite Peek_0 in Hrest.
    rewrite (proj2 (teq_false _ _) Hrest). reflexivity.
  - cbn [app scanAttributes]. rewrite (proj2 (teq_true _ _) Hx).
    rewrite IH by (unfold markIndex; rewrite length_zip_with; lia).
    unfold markIndex. clear -Hlen. revert idx Hlen.
    induction hashes as [|h hashes IH]; intros [|v idx] Hlen; cbn in *;
      try discriminate; [reflexivity|].
    rewrite IH by lia. f_equal.
    destruct (lastIndex h attrs) as [p|]; [lia|].
    destruct (heq (Hash x) h); lia.
Qed.

Lemma update_lookup l p f i :
  update l p f !! i = if decide (i = p) then f <$> l !! i else l !! i.
Proof.
  unfold update, tokAt. destruct (decide (i = p)) as [-> | Hne].
  - destruct (l !! p) as [a|] eqn:Hl; cbn.
    + apply list_lookup_insert_eq. apply (lookup_lt_Some _ _ _ Hl).
    + rewrite list_insert_ge by (apply lookup_ge_None; exact Hl). exact Hl.
  - apply list_lookup_insert_ne. congruence.
Qed.

Lemma attrRun_app attrs rest :
  Forall (fun a => TokenType a = html.AttributeToken) attrs ->
  attrRun (length attrs) (attrs ++ rest).
Proof.
  intros H i Hi. destruct (lookup_lt_is_Some_2 attrs i Hi) as [a Ha].
  exists a. split; [rewrite lookup_app_l by exact Hi; exact Ha|].
  rewrite Forall_forall in H. apply H.
  apply (list_elem_of_lookup_2 _ _ _ Ha).
Qed.

Lemma attrRun_update n l p f :
  (forall a, TokenType (f a) = TokenType a) ->
  attrRun n l -> attrRun n (update l p f).
Proof.
  intros Hf H i Hi. destruct (H i Hi) as (a & Ha & HT).
  rewrite update_lookup. destruct (decide (i = p)).
  - exists (f a). rewrite Ha. split; [reflexivity | rewrite Hf; exact HT].
  - exists a. auto.
Qed.

Lemma peekIdx_attrRun l n p : attrRun n l -> p < n -> peekIdx l p = p.
Proof.
  revert l n. induction p as [|p IH]; intros l n H Hp.
  - destruct l as [|a l]; cbn; [reflexivity|].
    destruct (teq (TokenType a) html.ErrorToken); reflexivity.
  - destruct (H 0 ltac:(lia)) as (a & Ha & HT).
    destruct l as [|a' l]; [discriminate|]. cbn in Ha. injection Ha as ->.
    cbn. rewrite (proj2 (teq_false _ _)) by (rewrite HT; discriminate).
    f_equal. apply (IH l (n - 1)); [|lia].
    intros i Hi. apply (H (S i)). lia.
Qed.

Lemma fetchAttributes_pos k idx l :
  fetchAttributes (S k :: idx) l
  = (fst (fetchAttributes idx (update l (peekIdx l k) unwrapToken)),
     Some (peekIdx l k) :: snd (fetchAttributes idx (update l (peekIdx l k) unwrapToken))).
Proof.
  cbn [fetchAttributes]. change (0 <? S k) with true. cbn iota.
  replace (S k - 1) with k by lia.
  change (<[peekIdx l k := setAttrVal (tokAt l (peekIdx l k))
                             (unwrapAttrVal (AttrVal (tokAt l (peekIdx l k))))]> l)
    with (update l (peekIdx l k) unwrapToken).
  destruct (fetchAttributes idx _). reflexivity.
Qed.

Lemma fetchAttributes_zero idx l :
  fetchAttributes (0 :: idx) l
  = (fst (fetchAttributes idx l), None :: snd (fetchAttributes idx l)).
Proof.
  cbn [fetchAttributes]. change (0 <? 0) with false. cbn iota.
  destruct (fetchAttributes idx l). reflexivity.
Qed.

Lemma tokAt_lookup l p a : l !! p = Some a -> tokAt l p = a.
Proof. unfold tokAt. intros ->. reflexivity. Qed.

Lemma setAttrVal_same x : setAttrVal x (AttrVal x) = x.
Proof. destruct x. reflexivity. Qed.

Lemma metaRules_content_type (E : Env) (s0 : State) (ic ih : nat) (c h : Token)
    (nm : option nat) :
  ic <> ih ->
  (forall pn, nm = Some pn -> pn <> ic) ->
  tb s0 !! ic = Some c ->
  tb s0 !! ih = Some h ->
  NormalizeContentType E (AttrVal c) = bs "text/html;charset=utf-8" ->
  EqualCaseInsensitive (AttrVal h) (bs "content-type") = true ->
  tb (metaRules E [Some ic; Some ih; None; nm] s0) !! ic
  = Some (mkToken (TokenType c) (Some (bs "charset")) (bs "utf-8") html.Charset)
  /\ tb (metaRules E [Some ic; Some ih; None; nm] s0) !! ih = Some (setData h None)
  /\ (forall i, i <> ic -> i <> ih ->
      tb (metaRules E [Some ic; Some ih; None; nm] s0) !! i = tb s0 !! i).
Proof.
  intros Hich Hnm Hc Hh Hnorm Heq.
  unfold metaRules. cbn [slot lookup list_lookup].
  set (l1 := update (tb s0) ic
               (fun t => setAttrVal t (NormalizeContentType E (AttrVal t)))).
  assert (H1c : l1 !! ic = Some (setAttrVal c (bs "text/html;charset=utf-8"))).
  { subst l1. rewrite update_lookup. destruct (decide (ic = ic)); [|contradiction].
    rewrite Hc. cbn. rewrite Hnorm. reflexivity. }
  assert (H1h : l1 !! ih = Some h).
  { subst l1. rewrite update_lookup. destruct (decide (ih = ic)); [congruence|]. exact Hh. }
  rewrite (tokAt_lookup _ _ _ H1c), (tokAt_lookup _ _ _ H1h), Heq.
  cbn [AttrVal setAttrVal andb].
  change (Equal (bs "text/html;charset=utf-8") (bs "text/html;charset=utf-8")) with true.
  cbn [andb].
  set (l3 := update (update l1 ih (fun t => setData t None)) ic
               (fun t => mkToken (TokenType t) (Some (bs "charset")) (bs "utf-8")
                           html.Charset)).
  assert (H3c : l3 !! ic
                = Some (mkToken (TokenType c) (Some (bs "charset")) (bs "utf-8")
                          html.Charset)).
  { subst l3. rewrite !update_lookup. destruct (decide (ic = ic)); [|contradiction].
    destruct (decide (ic = ih)); [contradiction|]. rewrite H1c. reflexivity. }
  assert (H3h : l3 !! ih = Some (setData h None)).
  { subst l3. rewrite !update_lookup. destruct (decide (ih = ic)); [congruence|].
    destruct (decide (ih = ih)); [|contradiction]. rewrite H1h. reflexivity. }
  assert (H3o : forall i, i <> ic -> i <> ih -> l3 !! i = tb s0 !! i).
  { intros i Hi1 Hi2. subst l3 l1. rewrite !update_lookup.
    destruct (decide (i = ic)); [contradiction|].
    destruct (decide (i = ih)); [contradiction|]. reflexivity. }
  clearbody l3. clear l1 H1c H1h.
  assert (Hfix : forall f : Token -> Token,
             f (mkToken (TokenType c) (Some (bs "charset")) (bs "utf-8") html.Charset)
             = mkToken (TokenType c) (Some (bs "charset")) (bs "utf-8") html.Charset ->
             update l3 ic f !! ic
             = Some (mkToken (TokenType c) (Some (bs "charset")) (bs "utf-8") html.Charset)
             /\ update l3 ic f !! ih = Some (setData h None)
             /\ (forall i, i <> ic -> i <> ih -> update l3 ic f !! i = tb s0 !! i)).
  { intros f Hf. rewrite !update_lookup.
    destruct (decide (ic = ic)); [|contradiction].
    destruct (decide (ih = ic)); [congruence|].
    rewrite H3c. cbn [fmap option_fmap option_map]. rewrite Hf.
    split; [reflexivity|]. split; [exact H3h|].
    intros i Hi1 Hi2. rewrite update_lookup.
    destruct (decide (i = ic)); [contradiction|]. apply H3o; assumption. }
  destruct nm as [pn|]; cbn [tb setTb].
  - destruct (EqualCaseInsensitive (AttrVal (tokAt l3 pn)) (bs "keywords")).
    + cbn [tb setTb]. apply Hfix. reflexivity.
    + destruct (EqualCaseInsensitive (AttrVal (tokAt l3 pn)) (bs "viewport")).
      * cbn [tb setTb]. apply Hfix. reflexivity.
      * cbn [tb setTb]. auto.
  - auto.
Qed.

(** With no index left over in the scratch array, a meta tag with one
    http-equiv attribute that is content-type (in any case), one content
    attribute that normalizes to text/html;charset=utf-8 and no charset
    attribute is rewritten: the content token becomes charset=utf-8, the
    http-equiv token is removed, and every other token keeps its type, name
    and hash. *)
Lemma rewriteMeta_content_type (E : Env) (s : State) (attrs rest : list Token)
    (ic ih : nat) (c h : Token) :
  tb s = attrs ++ rest ->
  Forall (fun a => TokenType a = html.AttributeToken) attrs ->
  TokenType (Peek rest 0) <> html.AttributeToken ->
  attrIntBuffer s = [0; 0; 0; 0] ->
  attrs !! ic = Some c -> Hash c = html.Content ->
  (forall i x, attrs !! i = Some x -> Hash x = html.Content -> i = ic) ->
  attrs !! ih = Some h -> Hash h = html.Http_Equiv ->
  (forall i x, attrs !! i = Some x -> Hash x = html.Http_Equiv -> i = ih) ->
  (forall i x, attrs !! i = Some x -> Hash x <> html.Charset) ->
  EqualCaseInsensitive (unwrapAttrVal (AttrVal h)) (bs "content-type") = true ->
  NormalizeContentType E (unwrapAttrVal (AttrVal c)) = bs "text/html;charset=utf-8" ->
  tb (rewriteMeta E s) !! ic = Some charsetToken
  /\ tb (rewriteMeta E s) !! ih
     = Some (mkToken html.AttributeToken None (unwrapAttrVal (AttrVal h)) html.Http_Equiv)
  /\ (forall i x, i <> ic -> i <> ih -> (attrs ++ rest) !! i = Some x ->
      exists v, tb (rewriteMeta E s) !! i = Some (setAttrVal x v)).
Proof.
  intros Htb Hattrs Hrest Hbuf Hc HHc Huc Hh HHh Huh Hnc Heq Hnorm.
  assert (HTc : TokenType c = html.AttributeToken).
  { rewrite Forall_forall in Hattrs. apply Hattrs, (list_elem_of_lookup_2 _ _ _ Hc). }
  assert (HTh : TokenType h = html.AttributeToken).
  { rewrite Forall_forall in Hattrs. apply Hattrs, (list_elem_of_lookup_2 _ _ _ Hh). }
  assert (Hich : ic <> ih).
  { intros ->. rewrite Hc in Hh. injection Hh as ->. rewrite HHc in HHh. discriminate. }
  pose proof (lookup_lt_Some _ _ _ Hc) as Hicl.
  pose proof (lookup_lt_Some _ _ _ Hh) as Hihl.
  assert (Hlc : (attrs ++ rest) !! ic = Some c) by (rewrite lookup_app_l; assumption).
  assert (Hlh : (attrs ++ rest) !! ih = Some h) by (rewrite lookup_app_l; assumption).
  pose proof (attrRun_app attrs rest Hattrs) as Hrun.
  assert (HU : forall a, TokenType (unwrapToken a) = TokenType a) by reflexivity.
  unfold rewriteMeta, getAttributes. rewrite Htb, Hbuf.
  change (length [0; 0; 0; 0] <?
          length [html.Content; html.Http_Equiv; html.Charset; html.Name]) with false.
  cbn iota. cbn [length take firstn drop skipn].
  rewrite (scanAttributes_spec attrs rest _ Hattrs Hrest) by reflexivity.
  cbn [zip_with].
  rewrite (lastIndex_unique _ _ _ _ Hc HHc Huc), (lastIndex_unique _ _ _ _ Hh HHh Huh),
    (lastIndex_none html.Charset attrs Hnc).
  replace (0 + ic + 1) with (S ic) by lia. replace (0 + ih + 1) with (S ih) by lia.
  rewrite fetchAttributes_pos, (peekIdx_attrRun _ _ _ Hrun Hicl).
  set (l1 := update (attrs ++ rest) ic unwrapToken).
  assert (Hrun1 : attrRun (length attrs) l1) by (apply attrRun_update; assumption).
  rewrite fetchAttributes_pos, (peekIdx_attrRun _ _ _ Hrun1 Hihl).
  set (l2 := update l1 ih unwrapToken).
  assert (Hrun2 : attrRun (length attrs) l2) by (apply attrRun_update; assumption).
  rewrite fetchAttributes_zero.
  assert (Hl2c : l2 !! ic = Some (unwrapToken c)).
  { subst l2 l1. rewrite !update_lookup.
    destruct (decide (ic = ih)); [contradiction|].
    destruct (decide (ic = ic)); [|contradiction]. rewrite Hlc. reflexivity. }
  assert (Hl2h : l2 !! ih = Some (unwrapToken h)).
  { subst l2 l1. rewrite !update_lookup.
    destruct (decide (ih = ih)); [|contradiction].
    destruct (decide (ih = ic)); [congruence|]. rewrite Hlh. reflexivity. }
  assert (Hl2o : forall i x, i <> ic -> i <> ih -> (attrs ++ rest) !! i = Some x ->
                             l2 !! i = Some x).
  { intros i x H1 H2 Hx. subst l2 l1. rewrite !update_lookup.
    destruct (decide (i = ih)); [contradiction|].
    destruct (decide (i = ic)); [contradiction|]. exact Hx. }
  clearbody l2. clear l1 Hrun1.
  (* the name slot *)
  destruct (lastIndex html.Name attrs) as [pn|] eqn:Hn.
  - destruct (lastIndex_Some _ _ _ Hn) as (xn & Hxn & HHn).
    pose proof (lookup_lt_Some _ _ _ Hxn) as Hpnl.
    assert (Hpc : pn <> ic).
    { intros ->. rewrite Hc in Hxn. injection Hxn as ->. rewrite HHc in HHn. discriminate. }
    assert (Hph : pn <> ih).
    { intros ->. rewrite Hh in Hxn. injection Hxn as ->. rewrite HHh in HHn. discriminate. }
    replace (0 + pn + 1) with (S pn) by lia.
    rewrite fetchAttributes_pos, (peekIdx_attrRun _ _ _ Hrun2 Hpnl).
    set (l3 := update l2 pn unwrapToken).
    cbn [fetchAttributes fst snd slot lookup list_lookup].
    assert (Hl3c : l3 !! ic = Some (unwrapToken c)).
    { subst l3. rewrite update_lookup. destruct (decide (ic = pn)); [congruence|]. exact Hl2c. }
    assert (Hl3h : l3 !! ih = Some (unwrapToken h)).
    { subst l3. rewrite update_lookup. destruct (decide (ih = pn)); [congruence|]. exact Hl2h. }
    assert (Hl3o : forall i x, i <> ic -> i <> ih -> (attrs ++ rest) !! i = Some x ->
                               exists v, l3 !! i = Some (setAttrVal x v)).
    { intros i x H1 H2 Hx. subst l3. rewrite update_lookup.
      rewrite (Hl2o i x H1 H2 Hx). destruct (decide (i = pn)).
      - eexists. reflexivity.
      - exists (AttrVal x). rewrite setAttrVal_same. reflexivity. }
    clearbody l3.
    assert (Hnorm' : NormalizeContentType E (AttrVal (unwrapToken c))
                     = bs "text/html;charset=utf-8") by exact Hnorm.
    assert (Heq' : EqualCaseInsensitive (AttrVal (unwrapToken h)) (bs "content-type") = true)
      by exact Heq.
    destruct (metaRules_content_type E
                (setAttrIntBuffer (setTb s l3) [S ic; S ih; 0; S pn]) ic ih
                (unwrapToken c) (unwrapToken h) (Some pn) Hich
                ltac:(intros ? [= <-]; exact Hpc) Hl3c Hl3h Hnorm' Heq')
      as (R1 & R2 & R3).
    rewrite ?app_nil_r.
    split; [|split].
    + rewrite R1. unfold unwrapToken, setAttrVal. cbn [TokenType]. rewrite HTc.
      reflexivity.
    + rewrite R2. unfold setData, unwrapToken, setAttrVal.
      cbn [TokenType Data AttrVal Hash]. rewrite HTh, HHh. reflexivity.
    + intros i x Hi1 Hi2 Hx. rewrite (R3 i Hi1 Hi2). cbn [tb setTb setAttrIntBuffer].
      apply Hl3o; assumption.
  - rewrite fetchAttributes_zero. cbn [fetchAttributes fst snd]. rewrite ?app_nil_r.
    assert (Hnorm' : NormalizeContentType E (AttrVal (unwrapToken c))
                     = bs "text/html;charset=utf-8") by exact Hnorm.
    assert (Heq' : EqualCaseInsensitive (AttrVal (unwrapToken h)) (bs "content-type") = true)
      by exact Heq.
    destruct (metaRules_content_type E
                (setAttrIntBuffer (setTb s l2) [S ic; S ih; 0; 0]) ic ih
                (unwrapToken c) (unwrapToken h) None Hich
                ltac:(intros ? [=]) Hl2c Hl2h Hnorm' Heq')
      as (R1 & R2 & R3).
    rewrite ?app_nil_r.
    split; [|split].
    + rewrite R1. unfold unwrapToken, setAttrVal. cbn [TokenType]. rewrite HTc.
      reflexivity.
    + rewrite R2. unfold setData, unwrapToken, setAttrVal.
      cbn [TokenType Data AttrVal Hash]. rewrite HTh, HHh. reflexivity.
    + intros i x Hi1 Hi2 Hx. rewrite (R3 i Hi1 Hi2). cbn [tb setTb setAttrIntBuffer].
      exists (AttrVal x). rewrite setAttrVal_same. apply Hl2o; assumption.
Qed.

(** The attribute loop passes over a removed attribute. *)
Lemma writeAttributes_removed (E : Env) (t attr : Token) (l : list Token) (s : State) :
  TokenType attr = html.AttributeToken -> Data attr = None ->
  writeAttributes E t (attr :: l) s = writeAttributes E t l s.
Proof.
  intros HT HD. cbn [writeAttributes]. rewrite HT, HD. reflexivity.
Qed.

(** The attribute loop writes the rewritten content token as charset=utf-8. *)
Lemma writeAttribute_charset (E : Env) (t : Token) (s : State) :
  booleanAttrMap E html.Charset = false ->
  (forall written p, wfail E written p = None) ->
  writeAttribute E t charsetToken s = Val tt (setW s (w s ++ bs " charset=utf-8")).
Proof.
  intros Hb Hw. unfold writeAttribute.
  change (unwrapAttrVal (AttrVal charsetToken)) with (bs "utf-8").
  change (length (bs "utf-8") =? 0) with false. cbn [andb].
  change (isContentTypeAttr t charsetToken) with false. cbn iota.
  change (ToLower (bs "utf-8")) with (bs "utf-8").
  assert (Hval : (if caseInsensitiveAttrMap E (Hash charsetToken)
                  then bs "utf-8" else bs "utf-8") = bs "utf-8")
    by (destruct (caseInsensitiveAttrMap E _); reflexivity).
  rewrite Hval.
  change (heq (Hash charsetToken) html.Type_) with false.
  rewrite andb_false_r.
  change (isDefaultValue t charsetToken (bs "utf-8")) with false. cbn iota.
  change (Hash charsetToken) with html.Charset. rewrite Hb.
  change ((0 <? length (bs "utf-8")) && negb false) with true. cbn iota.
  assert (Hav : attrValue E t charsetToken s (bs "utf-8") = bs "utf-8").
  { unfold attrValue. change (heq (Hash charsetToken) html.Style) with false.
    change ((2 <? length (data charsetToken)) && isAt (data charsetToken) 0 "o"
            && isAt (data charsetToken) 1 "n") with false.
    cbn iota. destruct (negb (heq (Hash t) html.A) && urlAttrMap E (Hash charsetToken));
      reflexivity. }
  rewrite Hav.
  change (escapeAttrVal (AttrVal charsetToken) (bs "utf-8")) with (Returns (bs "utf-8")).
  unfold bind, write, ret. repeat (cbn [w setW]; rewrite Hw).
  cbn [w setW]. unfold setW. cbn [tb w rawTag rawTagMediatype precededBySpace
                                    defaultScriptType defaultStyleType
                                    defaultInlineStyleType attrIntBuffer].
  rewrite <- !app_assoc. reflexivity.
Qed.


(** C10: the value ['x'], written in double quotes on an anchor, is unwrapped
    by [getAttributes] to ['x'] and unwrapped again by the attribute loop to
    [x], which is what is written; a tag without the rewrite pass keeps the
    value. *)
Theorem C10_value_unwrapped_twice :
  AttrVal (tokAt (tb (rewriteAttributes Sample.env (Sample.startTag "a" html.A)
                        (initial [Sample.attribute "id" html.Id (Sample.quoted "'x'");
                                  Sample.close]))) 0)
  = bs "'x'"
  /\ output (Minify Sample.env
               [Sample.startTag "a" html.A;
                Sample.attribute "id" html.Id (Sample.quoted "'x'");
                Sample.close])
     = Some (bs "<a id=x>")
  /\ output (Minify Sample.env
               [Sample.startTag "p" html.P;
                Sample.attribute "id" html.Id (Sample.quoted "'x'");
                Sample.close])
     = Some (bs "<p id=" ++ Sample.quoted "'x'" ++ bs ">").
Proof.
  repeat split; vm_compute; reflexivity.
Qed.

(** C6: after an anchor with a rel attribute, the index that the anchor left
    in the third slot of the index scratch array is still there when the
    meta tag is looked at; the slot is the charset slot, the rewrite sees a
    charset attribute that does not exist, and http-equiv and content are
    written.  The same meta tag at the start of a document is rewritten. *)
Theorem C6_stale_index_blocks_charset_rewrite :
  output (Minify Sample.env
            [Sample.startTag "a" html.A;
             Sample.attribute "rel" html.Rel (bs "nofollow");
             Sample.close;
             Sample.endTag "a" html.A;
             Sample.startTag "meta" html.Meta;
             Sample.attribute "http-equiv" html.Http_Equiv (Sample.quoted "Content-Type");
             Sample.attribute "content" html.Content
               (Sample.quoted "text/html; charset=utf-8");
             Sample.close])
  = Some (bs "<a rel=nofollow></a><meta http-equiv=content-type content="
            ++ Sample.quoted "text/html;charset=utf-8" ++ bs ">")
  /\ output (Minify Sample.env
               [Sample.startTag "meta" html.Meta;
                Sample.attribute "http-equiv" html.Http_Equiv
                  (Sample.quoted "Content-Type");
                Sample.attribute "content" html.Content
                  (Sample.quoted "text/html; charset=utf-8");
                Sample.close])
     = Some (bs "<meta charset=utf-8>").
Proof.
  split; vm_compute; reflexivity.
Qed.

(** ** Quote entities *)

Lemma isAt_Some b j x : isAt b j x = true -> b !! j = Some x.
Proof.
  unfold isAt. destruct (b !! j) as [c|]; [|discriminate].
  intros H. apply beq_true in H. congruence.
Qed.

Lemma isAtQuoteEntity_bounds b q n :
  isAtQuoteEntity b = Some (q, n) -> 5 <= n /\ n <= length b /\ b !! (n - 1) = Some ";"%byte.
Proof.
  unfold isAtQuoteEntity.
  destruct (length b <? 5); [discriminate|].
  destruct (isAt b 1 "#").
  - destruct (isAt b 2 "x").
    + set (i := skipZeros (drop 3 b) 3).
      assert (Hi : 3 <= i) by apply skipZeros_ge.
      destruct ((i + 2 <? length b) && isAt b i "2" && isAt b (i + 2) ";") eqn:Hc;
        [|discriminate].
      apply andb_prop in Hc as [Hc Hs]. apply andb_prop in Hc as [Hlt _].
      apply Nat.ltb_lt in Hlt. apply isAt_Some in Hs.
      intros Hq.
      assert (Hn : n = i + 3).
      { destruct (isAt b (i + 1) "2"); [congruence|].
        destruct (isAt b (i + 1) "7"); congruence. }
      subst n. replace (i + 3 - 1) with (i + 2) by lia. repeat split; [lia | lia | exact Hs].
    + set (i := skipZeros (drop 2 b) 2).
      assert (Hi : 2 <= i) by apply skipZeros_ge.
      destruct ((i + 2 <? length b) && isAt b i "3" && isAt b (i + 2) ";") eqn:Hc;
        [|discriminate].
      apply andb_prop in Hc as [Hc Hs]. apply andb_prop in Hc as [Hlt _].
      apply Nat.ltb_lt in Hlt. apply isAt_Some in Hs.
      intros Hq.
      assert (Hn : n = i + 3).
      { destruct (isAt b (i + 1) "4"); [congruence|].
        destruct (isAt b (i + 1) "9"); congruence. }
      subst n. replace (i + 3 - 1) with (i + 2) by lia. repeat split; [lia | lia | exact Hs].
  - destruct ((6 <=? length b) && isAt b 5 ";") eqn:Hc; [|discriminate].
    apply andb_prop in Hc as [Hlen H5]. apply Nat.leb_le in Hlen. apply isAt_Some in H5.
    intros Hq.
    assert (Hn : n = 6).
    { destruct (EqualCaseInsensitive (take 4 (drop 1 b)) (bs "quot")); [congruence|].
      destruct (EqualCaseInsensitive (take 4 (drop 1 b)) (bs "apos")); congruence. }
    subst n. repeat split; [lia | lia | exact H5].
Qed.

(** X1: When [isAtQuoteEntity] reports an entity, the quote is the double or
    the single quote, the length [n] is at least 5 and at most the length of
    the slice, the last byte of the entity is the semicolon, and no byte of
    the entity behind the first is an ampersand or a quote. *)
Theorem X1_quote_entity_shape (b : bytes) (q : byte) (n : nat) :
  isAtQuoteEntity b = Some (q, n) ->
  (q = dquote \/ q = squote)
  /\ 5 <= n <= length b
  /\ b !! (n - 1) = Some ";"%byte
  /\ (forall k c, 1 <= k < n -> b !! k = Some c ->
      c <> "&"%byte /\ c <> dquote /\ c <> squote).
Proof.
  intros H. split; [exact (isAtQuoteEntity_quote _ _ _ H)|].
  destruct (isAtQuoteEntity_bounds _ _ _ H) as (H5 & Hlen & Hsemi).
  split; [lia|]. split; [exact Hsemi|].
  intros k c [Hk1 Hk2] Hl.
  destruct (isAtQuoteEntity_body _ _ _ k c H Hk1 Hk2 Hl) as (Ha & Hd & Hs).
  apply beq_false in Ha, Hd, Hs. auto.
Qed.

Lemma X1_quote_entity_shape_witness :
  (dquote = dquote \/ dquote = squote)
  /\ 5 <= 6 <= length (bs "&#034;x")
  /\ bs "&#034;x" !! (6 - 1) = Some ";"%byte
  /\ (forall k c, 1 <= k < 6 -> bs "&#034;x" !! k = Some c ->
      c <> "&"%byte /\ c <> dquote /\ c <> squote).
Proof.
  apply (X1_quote_entity_shape (bs "&#034;x") dquote 6). vm_compute. reflexivity.
Defined.

Lemma skipZeros_replicate k l i c :
  beq c "0" = false -> skipZeros (replicate k "0"%byte ++ c :: l) i = i + k.
Proof.
  intros Hc. revert i. induction k as [|k IH]; intros i; cbn.
  - rewrite Hc. lia.
  - rewrite IH. lia.
Qed.

Lemma isAt_app_r (p : bytes) l j c :
  isAt (p ++ l) (length p + j) c = isAt l j c.
Proof.
  unfold isAt. rewrite lookup_app_r by lia.
  replace (length p + j - length p) with j by lia. reflexivity.
Qed.

Lemma numeric_entity (pre : bytes) (k : nat) (d1 d2 : byte) (rest : bytes) :
  isAt (pre ++ replicate k "0"%byte ++ d1 :: d2 :: ";"%byte :: rest) (length pre + k) d1 = true
  /\ isAt (pre ++ replicate k "0"%byte ++ d1 :: d2 :: ";"%byte :: rest) (length pre + k + 1) d2 = true
  /\ isAt (pre ++ replicate k "0"%byte ++ d1 :: d2 :: ";"%byte :: rest) (length pre + k + 2) ";" = true
  /\ length (pre ++ replicate k "0"%byte ++ d1 :: d2 :: ";"%byte :: rest)
     = length pre + k + 3 + length rest.
Proof.
  assert (H : forall j c, isAt (pre ++ replicate k "0"%byte ++ d1 :: d2 :: ";"%byte :: rest)
                            (length pre + k + j) c
                          = isAt (d1 :: d2 :: ";"%byte :: rest) j c).
  { intros j c. rewrite <- Nat.add_assoc, isAt_app_r.
    rewrite <- (length_replicate k "0"%byte) at 2. apply isAt_app_r. }
  repeat split.
  - rewrite <- (Nat.add_0_r (length pre + k)), H. cbn. apply beq_refl.
  - rewrite H. cbn. apply beq_refl.
  - rewrite H. reflexivity.
  - rewrite !length_app, length_replicate. cbn. lia.
Qed.

Lemma decimal_found (k : nat) (d : byte) (rest : bytes) :
  d = "4"%byte \/ d = "9"%byte ->
  isAtQuoteEntity (bs "&#" ++ replicate k "0"%byte ++ "3"%byte :: d :: ";"%byte :: rest)
  = Some (if beq d "4" then dquote else squote, k + 5).
Proof.
  intros Hd.
  destruct (numeric_entity (bs "&#") k "3" d rest) as (H1 & H2 & H3 & H4).
  unfold isAtQuoteEntity.
  rewrite H4. change (length (bs "&#")) with 2 in *.
  replace (2 + k + 3 + length rest <? 5) with false by (symmetry; apply Nat.ltb_ge; lia).
  change (isAt (bs "&#" ++ _) 1 "#") with true. cbn match.
  assert (Hx : isAt (bs "&#" ++ replicate k "0"%byte ++ "3"%byte :: d :: ";"%byte :: rest)
                 2 "x" = false) by (destruct k; reflexivity).
  rewrite Hx. cbn match.
  change (drop 2 (bs "&#" ++ ?l)) with l.
  rewrite skipZeros_replicate by reflexivity. cbn zeta.
  rewrite H1, H3.
  replace (2 + k + 2 <? 2 + k + 3 + length rest) with true
    by (symmetry; apply Nat.ltb_lt; lia).
  cbn [andb].
  assert (Hd2 : forall x, isAt (bs "&#" ++ replicate k "0"%byte
                                  ++ "3"%byte :: d :: ";"%byte :: rest) (2 + k + 1) x
                          = beq d x).
  { intros x. rewrite <- Nat.add_assoc, (isAt_app_r (bs "&#")).
    rewrite <- (length_replicate k "0"%byte) at 2. rewrite isAt_app_r. reflexivity. }
  rewrite !Hd2. destruct Hd as [-> | ->]; cbn; do 2 f_equal; lia.
Qed.

Lemma hex_found (k : nat) (d : byte) (rest : bytes) :
  d = "2"%byte \/ d = "7"%byte ->
  isAtQuoteEntity (bs "&#x" ++ replicate k "0"%byte ++ "2"%byte :: d :: ";"%byte :: rest)
  = Some (if beq d "2" then dquote else squote, k + 6).
Proof.
  intros Hd.
  destruct (numeric_entity (bs "&#x") k "2" d rest) as (H1 & H2 & H3 & H4).
  unfold isAtQuoteEntity.
  rewrite H4. change (length (bs "&#x")) with 3 in *.
  replace (3 + k + 3 + length rest <? 5) with false by (symmetry; apply Nat.ltb_ge; lia).
  change (isAt (bs "&#x" ++ _) 1 "#") with true. cbn match.
  change (isAt (bs "&#x" ++ _) 2 "x") with true. cbn match.
  change (drop 3 (bs "&#x" ++ ?l)) with l.
  rewrite skipZeros_replicate by reflexivity. cbn zeta.
  rewrite H1, H3.
  replace (3 + k + 2 <? 3 + k + 3 + length rest) with true
    by (symmetry; apply Nat.ltb_lt; lia).
  cbn [andb].
  assert (Hd2 : forall x, isAt (bs "&#x" ++ replicate k "0"%byte
                                  ++ "2"%byte :: d :: ";"%byte :: rest) (3 + k + 1) x
                          = beq d x).
  { intros x. rewrite <- Nat.add_assoc, (isAt_app_r (bs "&#x")).
    rewrite <- (length_replicate k "0"%byte) at 2. rewrite isAt_app_r. reflexivity. }
  rewrite !Hd2. destruct Hd as [-> | ->]; cbn; do 2 f_equal; lia.
Qed.

(** Leading zeros are passed over in the decimal and the hexadecimal
    spelling. *)
Lemma quote_entity_spellings (k : nat) (rest : bytes) :
  isAtQuoteEntity (bs "&#" ++ replicate k "0"%byte ++ bs "34;" ++ rest) = Some (dquote, k + 5)
  /\ isAtQuoteEntity (bs "&#" ++ replicate k "0"%byte ++ bs "39;" ++ rest) = Some (squote, k + 5)
  /\ isAtQuoteEntity (bs "&#x" ++ replicate k "0"%byte ++ bs "22;" ++ rest) = Some (dquote, k + 6)
  /\ isAtQuoteEntity (bs "&#x" ++ replicate k "0"%byte ++ bs "27;" ++ rest) = Some (squote, k + 6).
Proof.
  repeat split.
  - apply (decimal_found k "4" rest). auto.
  - apply (decimal_found k "9" rest). auto.
  - apply (hex_found k "2" rest). auto.
  - apply (hex_found k "7" rest). auto.
Qed.

Lemma EqualCaseInsensitive_length s t :
  EqualCaseInsensitive s t = true -> length s = length t.
Proof.
  revert t. induction s as [|d s IH]; intros [|c t] H; cbn in *; try discriminate;
    [reflexivity|].
  apply andb_prop in H as [_ H]. f_equal. auto.
Qed.

(** The names are matched without regard to case. *)
Lemma quote_entity_named (s rest : bytes) :
  EqualCaseInsensitive s (bs "quot") = true \/ EqualCaseInsensitive s (bs "apos") = true ->
  isAtQuoteEntity ("&"%byte :: s ++ ";"%byte :: rest)
  = Some (if EqualCaseInsensitive s (bs "quot") then dquote else squote, 6).
Proof.
  intros H.
  assert (Hlen : length s = 4).
  { destruct H as [H | H]; apply EqualCaseInsensitive_length in H; exact H. }
  destruct s as [|c1 [|c2 [|c3 [|c4 [|c5 s]]]]]; try discriminate Hlen.
  assert (H1 : isAt ("&"%byte :: [c1; c2; c3; c4] ++ ";"%byte :: rest) 1 "#" = false).
  { cbn. destruct H as [H | H]; cbn in H; apply andb_prop in H as [H _];
      destruct c1; try discriminate H; reflexivity. }
  unfold isAtQuoteEntity. rewrite H1.
  change (take 4 (drop 1 ("&"%byte :: [c1; c2; c3; c4] ++ ";"%byte :: rest)))
    with [c1; c2; c3; c4].
  change (isAt ("&"%byte :: [c1; c2; c3; c4] ++ ";"%byte :: rest) 5 ";") with true.
  cbn [length app]. cbn [Nat.ltb Nat.leb andb].
  destruct (EqualCaseInsensitive [c1; c2; c3; c4] (bs "quot")) eqn:Hq; [reflexivity|].
  destruct H as [H | H]; [discriminate|]. rewrite H. reflexivity.
Qed.

(** ** Length of the rebuilt value *)

Lemma otherQuote_cases q :
  q = dquote \/ q = squote ->
  beq q (otherQuote q) = false /\ (otherQuote q = dquote \/ otherQuote q = squote).
Proof. intros [-> | ->]; split; try reflexivity; auto. Qed.

Lemma escapeSpec_length q esc :
  q = dquote \/ q = squote -> length esc = 5 ->
  forall l skip,
    skip <= length l ->
    (forall k c, k < skip -> l !! k = Some c -> harmless c) ->
    length (escapeSpec q esc skip l) + skip + 4 * entityCount (otherQuote q) l
    <= length l + 4 * literalCount q l.
Proof.
  intros Hq Hesc. induction l as [|c l IH]; intros skip Hskip Hh.
  - cbn in *. lia.
  - destruct skip as [|k].
    + cbn [escapeSpec entityCount literalCount length].
      destruct (beq c "&") eqn:Hamp.
      * apply beq_true in Hamp. subst c.
        assert (Hnq : beq "&" q = false) by (destruct Hq as [-> | ->]; reflexivity).
        rewrite Hnq.
        destruct (isAtQuoteEntity ("&"%byte :: l)) as [[eq n]|] eqn:He.
        -- destruct (isAtQuoteEntity_bounds _ _ _ He) as (H5 & Hn & _).
           cbn [length] in Hn.
           assert (IH' := IH (n - 1) ltac:(lia)).
           assert (Hbody : forall k c, k < n - 1 -> l !! k = Some c -> harmless c).
           { intros k c Hk Hl.
             apply (isAtQuoteEntity_body _ _ _ (S k) c He); [lia | lia | exact Hl]. }
           specialize (IH' Hbody).
           rewrite length_app.
           destruct (isAtQuoteEntity_quote _ _ _ He) as [-> | ->];
             destruct Hq as [-> | ->]; cbn; cbn in IH'; rewrite ?Hesc; lia.
        -- specialize (IH 0 ltac:(lia) ltac:(intros; lia)). cbn. lia.
      * destruct (beq c q) eqn:Hcq.
        -- specialize (IH 0 ltac:(lia) ltac:(intros; lia)).
           rewrite length_app, Hesc. lia.
        -- specialize (IH 0 ltac:(lia) ltac:(intros; lia)). cbn. lia.
    + assert (Hc : harmless c) by (apply (Hh 0); [lia | reflexivity]).
      destruct Hc as (Ha & Hd & Hs).
      assert (Hcq : beq c q = false) by (destruct Hq as [-> | ->]; assumption).
      cbn [escapeSpec entityCount literalCount length]. rewrite Ha, Hcq.
      cbn [length] in Hskip.
      specialize (IH k ltac:(lia)).
      assert (Hh' : forall k0 c0, k0 < k -> l !! k0 = Some c0 -> harmless c0).
      { intros k0 c0 Hk0 Hl. apply (Hh (S k0)); [lia | exact Hl]. }
      specialize (IH Hh'). lia.
Qed.

Lemma chosen_cases b :
  (chosenQuote b = squote /\ chosenEscape b = escapedSingleQuoteBytes
   /\ literalCount squote b + entityCount squote b
      < literalCount dquote b + entityCount dquote b)
  \/ (chosenQuote b = dquote /\ chosenEscape b = escapedDoubleQuoteBytes
      /\ literalCount dquote b + entityCount dquote b
         <= literalCount squote b + entityCount squote b).
Proof.
  unfold chosenQuote, chosenEscape.
  destruct (_ <? _) eqn:H.
  - left. apply Nat.ltb_lt in H. auto.
  - right. apply Nat.ltb_ge in H. auto.
Qed.

Lemma rebuilt_length b :
  length (escapeSpec (chosenQuote b) (chosenEscape b) 0 b)
    + 4 * entityCount (otherQuote (chosenQuote b)) b
  <= length b + 4 * literalCount (chosenQuote b) b.
Proof.
  assert (Hq : chosenQuote b = dquote \/ chosenQuote b = squote).
  { destruct (chosen_cases b) as [(-> & _) | (-> & _)]; auto. }
  assert (He : length (chosenEscape b) = 5).
  { destruct (chosen_cases b) as [(_ & -> & _) | (_ & -> & _)]; reflexivity. }
  pose proof (escapeSpec_length _ _ Hq He b 0 ltac:(lia) ltac:(intros; lia)). lia.
Qed.

Lemma reuse_dec (orig b : bytes) :
  {literalCount squote b + entityCount squote b = 0
   /\ literalCount dquote b + entityCount dquote b = 0
   /\ length orig = length b + 2}
  + {~ (literalCount squote b + entityCount squote b = 0
        /\ literalCount dquote b + entityCount dquote b = 0
        /\ length orig = length b + 2)}.
Proof.
  destruct (Nat.eq_dec (literalCount squote b + entityCount squote b) 0);
    destruct (Nat.eq_dec (literalCount dquote b + entityCount dquote b) 0);
    destruct (Nat.eq_dec (length orig) (length b + 2)); first [left; tauto | right; tauto].
Qed.

(** X2: A value that holds no literal double quote, or no literal single
    quote, is always escaped without a panic, whatever quote entities it
    holds and whatever the original bytes are. *)
Theorem X2_escapeAttrVal_one_kind_of_quote (orig b : bytes) :
  literalCount dquote b = 0 \/ literalCount squote b = 0 ->
  exists r, escapeAttrVal orig b = Returns r.
Proof.
  intros Hone.
  destruct (escapeAttrVal orig b) as [r|] eqn:He; [eauto|].
  exfalso. apply escapeAttrVal_panics_iff in He as (_ & _ & Hlong).
  pose proof (rebuilt_length b) as Hlen.
  destruct (chosen_cases b) as [(Hq & _ & Hc) | (Hq & _ & Hc)];
    rewrite Hq in Hlen, Hlong; cbn [otherQuote] in Hlen;
    [change (otherQuote squote) with dquote in Hlen
    |change (otherQuote dquote) with squote in Hlen]; lia.
Qed.

Lemma X2_escapeAttrVal_one_kind_of_quote_witness :
  exists r, escapeAttrVal (bs "it's") (bs "it's &quot;so&quot;") = Returns r.
Proof.
  apply (X2_escapeAttrVal_one_kind_of_quote (bs "it's") (bs "it's &quot;so&quot;")).
  left. reflexivity.
Defined.

(** X3: Whenever [escapeAttrVal] returns, its result is at most two bytes
    longer than the value it was given. *)
Theorem X3_escapeAttrVal_at_most_two_longer (orig b r : bytes) :
  escapeAttrVal orig b = Returns r -> length r <= length b + 2.
Proof.
  intros H.
  destruct (plain b) eqn:Hp.
  { rewrite escapeAttrVal_plain in H by exact Hp. injection H as <-. lia. }
  destruct (reuse_dec orig b) as [(Hs & Hd & Hl) | Hno].
  { rewrite (escapeAttrVal_reuse orig b Hp Hs Hd Hl) in H. injection H as <-. lia. }
  rewrite escapeAttrVal_rebuild in H by assumption.
  destruct (_ <=? _) eqn:Hf; [|discriminate].
  apply Nat.leb_le in Hf. injection H as <-.
  cbn [length]. rewrite length_app. cbn. lia.
Qed.

Lemma X3_escapeAttrVal_at_most_two_longer_witness :
  length (bs "'a" ++ [dquote] ++ bs "b c'") <= length (bs "a&quot;b c") + 2.
Proof.
  apply (X3_escapeAttrVal_at_most_two_longer (bs "x") (bs "a&quot;b c")).
  vm_compute. reflexivity.
Defined.

(** ** The delimiter does not occur inside *)

Lemma escapeSpec_no_quote q esc :
  q = dquote \/ q = squote -> Forall (fun c => c <> q) esc ->
  forall l skip, Forall (fun c => c <> q) (escapeSpec q esc skip l).
Proof.
  intros Hq Hesc. induction l as [|c l IH]; intros skip; [constructor|].
  destruct skip as [|k]; cbn [escapeSpec]; [|apply IH].
  destruct (beq c "&") eqn:Hamp.
  - apply beq_true in Hamp. subst c.
    destruct (isAtQuoteEntity ("&"%byte :: l)) as [[eq n]|] eqn:He.
    + apply Forall_app. split; [|apply IH].
      destruct (negb (beq eq q)) eqn:Hn; [|exact Hesc].
      constructor; [|constructor].
      apply negb_true_iff in Hn. apply beq_false in Hn. exact Hn.
    + constructor; [|apply IH]. destruct Hq as [-> | ->]; discriminate.
  - destruct (beq c q) eqn:Hcq.
    + apply Forall_app. split; [exact Hesc | apply IH].
    + constructor; [|apply IH]. apply beq_false in Hcq. exact Hcq.
Qed.

(** X4: A value that is rebuilt (it cannot be written unquoted and the
    original bytes are not reused) comes back as a quote, a body and the same
    quote, and the body holds no byte equal to that quote. *)
Theorem X4_rebuilt_value_delimited (orig b r : bytes) :
  plain b = false ->
  ~ (literalCount squote b + entityCount squote b = 0
     /\ literalCount dquote b + entityCount dquote b = 0
     /\ length orig = length b + 2) ->
  escapeAttrVal orig b = Returns r ->
  exists q body,
    r = q :: body ++ [q]
    /\ (q = dquote \/ q = squote)
    /\ Forall (fun c => c <> q) body.
Proof.
  intros Hp Hno H.
  rewrite escapeAttrVal_rebuild in H by assumption.
  destruct (_ <=? _); [|discriminate]. injection H as <-.
  exists (chosenQuote b), (escapeSpec (chosenQuote b) (chosenEscape b) 0 b).
  split; [reflexivity|].
  assert (Hq : chosenQuote b = dquote \/ chosenQuote b = squote).
  { destruct (chosen_cases b) as [(-> & _) | (-> & _)]; auto. }
  split; [exact Hq|].
  apply escapeSpec_no_quote; [exact Hq|].
  destruct (chosen_cases b) as [(-> & -> & _) | (-> & -> & _)];
    repeat constructor; discriminate.
Qed.

Lemma X4_rebuilt_value_delimited_witness :
  exists q body,
    bs "'" ++ [dquote] ++ bs "a" ++ [dquote] ++ bs "b&#39;c'" = q :: body ++ [q]
    /\ (q = dquote \/ q = squote)
    /\ Forall (fun c => c <> q) body.
Proof.
  apply (X4_rebuilt_value_delimited (bs "x") ([dquote] ++ bs "a" ++ [dquote] ++ bs "b&apos;c")).
  - reflexivity.
  - vm_compute. intros (H & _). discriminate H.
  - vm_compute. reflexivity.
Defined.

(** ** The spellings of a quote entity *)

Lemma isAt_cons_pos c c' (l : bytes) i x :
  0 < i -> isAt (c :: l) i x = isAt (c' :: l) i x.
Proof. destruct i; [lia | reflexivity]. Qed.

Lemma isAtQuoteEntity_head c c' l :
  isAtQuoteEntity (c :: l) = isAtQuoteEntity (c' :: l).
Proof.
  unfold isAtQuoteEntity. cbn [length]. cbn [drop].
  rewrite !(isAt_cons_pos c c' l 1) by lia.
  rewrite !(isAt_cons_pos c c' l 2) by lia.
  rewrite !(isAt_cons_pos c c' l 5) by lia.
  pose proof (skipZeros_ge (drop 2 l) 3).
  pose proof (skipZeros_ge (drop 1 l) 2).
  rewrite !(isAt_cons_pos c c' l (skipZeros (drop 2 l) 3)) by lia.
  rewrite !(isAt_cons_pos c c' l (skipZeros (drop 2 l) 3 + 1)) by lia.
  rewrite !(isAt_cons_pos c c' l (skipZeros (drop 2 l) 3 + 2)) by lia.
  rewrite !(isAt_cons_pos c c' l (skipZeros (drop 1 l) 2)) by lia.
  rewrite !(isAt_cons_pos c c' l (skipZeros (drop 1 l) 2 + 1)) by lia.
  rewrite !(isAt_cons_pos c c' l (skipZeros (drop 1 l) 2 + 2)) by lia.
  reflexivity.
Qed.

Lemma skipZeros_take l i0 :
  take (skipZeros l i0 - i0) l = replicate (skipZeros l i0 - i0) "0"%byte.
Proof.
  revert i0. induction l as [|x l IH]; intros i0; cbn [skipZeros].
  - rewrite Nat.sub_diag. reflexivity.
  - destruct (beq x "0") eqn:Hx.
    + pose proof (skipZeros_ge l (S i0)).
      replace (skipZeros l (S i0) - i0) with (S (skipZeros l (S i0) - S i0)) by lia.
      cbn [take replicate]. cbn. apply beq_true in Hx. subst x. f_equal. apply IH.
    + rewrite Nat.sub_diag. reflexivity.
Qed.

(** The bytes of a numeric entity, read back from the tests of the code. *)
Lemma numeric_shape (b : bytes) (j : nat) (d1 d2 : byte) :
  let i := skipZeros (drop j b) j in
  i + 2 < length b ->
  isAt b i d1 = true -> isAt b (i + 1) d2 = true -> isAt b (i + 2) ";" = true ->
  b = take j b ++ replicate (i - j) "0"%byte ++ d1 :: d2 :: ";"%byte :: drop (i + 3) b.
Proof.
  intros i Hlen H1 H2 H3.
  pose proof (skipZeros_ge (drop j b) j) as Hi. fold i in Hi.
  apply isAt_Some in H1, H2, H3.
  rewrite <- (take_drop j b) at 1. f_equal.
  rewrite <- (take_drop (i - j) (drop j b)) at 1.
  unfold i at 1. rewrite skipZeros_take. fold i. f_equal.
  rewrite drop_drop. replace (j + (i - j)) with i by lia.
  rewrite (drop_S b d1 i H1).
  rewrite (drop_S b d2 (S i)) by (rewrite <- H2; f_equal; lia).
  rewrite (drop_S b ";"%byte (S (S i))) by (rewrite <- H3; f_equal; lia).
  do 3 f_equal. f_equal. lia.
Qed.

Lemma take_2 (b : bytes) c : 2 <= length b -> isAt b 1 c = true ->
  exists c0, take 2 b = [c0; c].
Proof.
  intros Hl H. destruct b as [|c0 [|c1 b]]; cbn in Hl; try lia.
  exists c0. cbn in H. apply beq_true in H. subst. reflexivity.
Qed.

Lemma take_3 (b : bytes) c d : 3 <= length b -> isAt b 1 c = true -> isAt b 2 d = true ->
  exists c0, take 3 b = [c0; c; d].
Proof.
  intros Hl H H'. destruct b as [|c0 [|c1 [|c2 b]]]; cbn in Hl; try lia.
  exists c0. cbn in H, H'. apply beq_true in H, H'. subst. reflexivity.
Qed.

Lemma quoteEntity_found c q e rest :
  quoteEntity q e -> isAtQuoteEntity (c :: e ++ rest) = Some (q, S (length e)).
Proof.
  intros H. rewrite (isAtQuoteEntity_head c "&").
  destruct H as [k | k | k | k | s Hs | s Hs].
  - destruct (quote_entity_spellings k rest) as (H & _).
    rewrite <- !app_assoc. etransitivity; [exact H|].
    rewrite !length_app, length_replicate. cbn. do 2 f_equal. lia.
  - destruct (quote_entity_spellings k rest) as (_ & H & _).
    rewrite <- !app_assoc. etransitivity; [exact H|].
    rewrite !length_app, length_replicate. cbn. do 2 f_equal. lia.
  - destruct (quote_entity_spellings k rest) as (_ & _ & H & _).
    rewrite <- !app_assoc. etransitivity; [exact H|].
    rewrite !length_app, length_replicate. cbn. do 2 f_equal. lia.
  - destruct (quote_entity_spellings k rest) as (_ & _ & _ & H).
    rewrite <- !app_assoc. etransitivity; [exact H|].
    rewrite !length_app, length_replicate. cbn. do 2 f_equal. lia.
  - rewrite <- app_assoc. change (bs ";" ++ rest) with (";"%byte :: rest).
    rewrite (quote_entity_named s rest) by auto. rewrite Hs.
    rewrite length_app, (EqualCaseInsensitive_length _ _ Hs). reflexivity.
  - rewrite <- app_assoc. change (bs ";" ++ rest) with (";"%byte :: rest).
    rewrite (quote_entity_named s rest) by auto.
    rewrite length_app, (EqualCaseInsensitive_length _ _ Hs).
    assert (Hq : EqualCaseInsensitive s (bs "quot") = false).
    { destruct s as [|c1 s]; [discriminate|]. cbn in Hs |- *.
      apply andb_prop in Hs as [Hs _].
      destruct c1; try discriminate Hs; reflexivity. }
    rewrite Hq. reflexivity.
Qed.

Lemma quoteEntity_shape b q n :
  isAtQuoteEntity b = Some (q, n) ->
  exists c e rest, b = c :: e ++ rest /\ quoteEntity q e /\ n = S (length e).
Proof.
  unfold isAtQuoteEntity.
  destruct (length b <? 5) eqn:Hlen; [discriminate|]. apply Nat.ltb_ge in Hlen.
  destruct (isAt b 1 "#") eqn:H1.
  - destruct (isAt b 2 "x") eqn:H2.
    + set (i := skipZeros (drop 3 b) 3).
      assert (Hi : 3 <= i) by apply skipZeros_ge.
      destruct ((i + 2 <? length b) && isAt b i "2" && isAt b (i + 2) ";") eqn:Hc;
        [|discriminate].
      apply andb_prop in Hc as [Hc Hs]. apply andb_prop in Hc as [Hlt Hd].
      apply Nat.ltb_lt in Hlt.
      destruct (take_3 b _ _ ltac:(lia) H1 H2) as [c0 Ht].
      destruct (isAt b (i + 1) "2") eqn:Hm.
      * intros [= <- <-].
        pose proof (numeric_shape b 3 _ _ Hlt Hd Hm Hs) as Hb. fold i in Hb.
        rewrite Ht in Hb.
        exists c0, (bs "#x" ++ replicate (i - 3) "0"%byte ++ bs "22;"), (drop (i + 3) b).
        split; [rewrite <- !app_assoc; exact Hb|]. split; [constructor|].
        rewrite !length_app, length_replicate. cbn. lia.
      * destruct (isAt b (i + 1) "7") eqn:Hm'; [|discriminate].
        intros [= <- <-].
        pose proof (numeric_shape b 3 _ _ Hlt Hd Hm' Hs) as Hb. fold i in Hb.
        rewrite Ht in Hb.
        exists c0, (bs "#x" ++ replicate (i - 3) "0"%byte ++ bs "27;"), (drop (i + 3) b).
        split; [rewrite <- !app_assoc; exact Hb|]. split; [constructor|].
        rewrite !length_app, length_replicate. cbn. lia.
    + set (i := skipZeros (drop 2 b) 2).
      assert (Hi : 2 <= i) by apply skipZeros_ge.
      destruct ((i + 2 <? length b) && isAt b i "3" && isAt b (i + 2) ";") eqn:Hc;
        [|discriminate].
      apply andb_prop in Hc as [Hc Hs]. apply andb_prop in Hc as [Hlt Hd].
      apply Nat.ltb_lt in Hlt.
      destruct (take_2 b _ ltac:(lia) H1) as [c0 Ht].
      destruct (isAt b (i + 1) "4") eqn:Hm.
      * intros [= <- <-].
        pose proof (numeric_shape b 2 _ _ Hlt Hd Hm Hs) as Hb. fold i in Hb.
        rewrite Ht in Hb.
        exists c0, (bs "#" ++ replicate (i - 2) "0"%byte ++ bs "34;"), (drop (i + 3) b).
        split; [rewrite <- !app_assoc; exact Hb|]. split; [constructor|].
        rewrite !length_app, length_replicate. cbn. lia.
      * destruct (isAt b (i + 1) "9") eqn:Hm'; [|discriminate].
        intros [= <- <-].
        pose proof (numeric_shape b 2 _ _ Hlt Hd Hm' Hs) as Hb. fold i in Hb.
        rewrite Ht in Hb.
        exists c0, (bs "#" ++ replicate (i - 2) "0"%byte ++ bs "39;"), (drop (i + 3) b).
        split; [rewrite <- !app_assoc; exact Hb|]. split; [constructor|].
        rewrite !length_app, length_replicate. cbn. lia.
  - destruct ((6 <=? length b) && isAt b 5 ";") eqn:Hc; [|discriminate].
    apply andb_prop in Hc as [Hl6 H5]. apply Nat.leb_le in Hl6.
    destruct b as [|c0 [|c1 [|c2 [|c3 [|c4 [|c5 rest]]]]]]; cbn in Hl6; try lia.
    cbn in H5. apply beq_true in H5. subst c5.
    change (take 4 (drop 1 (c0 :: c1 :: c2 :: c3 :: c4 :: ";"%byte :: rest)))
      with [c1; c2; c3; c4].
    destruct (EqualCaseInsensitive [c1; c2; c3; c4] (bs "quot")) eqn:Hq.
    + intros [= <- <-]. exists c0, ([c1; c2; c3; c4] ++ bs ";"), rest.
      split; [reflexivity|]. split; [constructor; exact Hq | reflexivity].
    + destruct (EqualCaseInsensitive [c1; c2; c3; c4] (bs "apos")) eqn:Ha; [|discriminate].
      intros [= <- <-]. exists c0, ([c1; c2; c3; c4] ++ bs ";"), rest.
      split; [reflexivity|]. split; [constructor; exact Ha | reflexivity].
Qed.

(** X5: [isAtQuoteEntity] reports the quote [q] and the length [n] exactly
    when the bytes behind the first byte begin with one of the spellings of
    [quoteEntity] for [q] (decimal or hexadecimal with any number of leading
    zeros, or the name in any case, each closed by a semicolon) and [n] is the
    length of that spelling plus one.  The first byte is never inspected. *)
Theorem X5_isAtQuoteEntity_iff (c : byte) (l : bytes) (q : byte) (n : nat) :
  isAtQuoteEntity (c :: l) = Some (q, n)
  <-> exists e rest, quoteEntity q e /\ l = e ++ rest /\ n = S (length e).
Proof.
  split.
  - intros H. destruct (quoteEntity_shape _ _ _ H) as (c' & e & rest & Hb & He & Hn).
    injection Hb as -> ->. eauto.
  - intros (e & rest & He & -> & ->). apply quoteEntity_found. exact He.
Qed.

(** ** The rebuilt value denotes the same string *)

Lemma quoteEntity_harmless q e : quoteEntity q e -> Forall harmless e.
Proof.
  intros He. apply Forall_lookup. intros k c Hk.
  pose proof (quoteEntity_found "&" q e [] He) as Hf.
  apply (isAtQuoteEntity_body _ _ _ (S k) c Hf); [lia | |].
  - apply lookup_lt_Some in Hk. lia.
  - change (("&"%byte :: e ++ []) !! S k) with ((e ++ []) !! k).
    rewrite app_nil_r. exact Hk.
Qed.

Lemma escapePair_head q esc : escapePair q esc -> exists t, esc = "&"%byte :: t.
Proof. intros [(_ & ->) | (_ & ->)]; eexists; reflexivity. Qed.

Lemma escapePair_quote q esc : escapePair q esc -> q = dquote \/ q = squote.
Proof. intros [(-> & _) | (-> & _)]; auto. Qed.

(** A run of harmless bytes at the start of the rebuilt value stood at the
    start of the value. *)
Lemma escapeSpec_harmless_prefix q esc :
  escapePair q esc ->
  forall e l rest',
    Forall harmless e -> escapeSpec q esc 0 l = e ++ rest' ->
    exists rest, l = e ++ rest.
Proof.
  intros Hp. destruct (escapePair_head _ _ Hp) as [t Ht].
  pose proof (escapePair_quote _ _ Hp) as Hq.
  induction e as [|x e IH]; intros l rest' He H; [eauto|].
  apply Forall_cons in He as [(Ha & Hd & Hs) He].
  destruct l as [|c l]; [discriminate H|].
  cbn [escapeSpec] in H.
  destruct (beq c "&") eqn:Hamp.
  - exfalso. apply beq_true in Hamp. subst c.
    destruct (isAtQuoteEntity ("&"%byte :: l)) as [[eq n]|] eqn:Hent.
    + destruct (negb (beq eq q)).
      * injection H as <- _.
        destruct (isAtQuoteEntity_quote _ _ _ Hent) as [-> | ->]; discriminate.
      * rewrite Ht in H. injection H as <- _. discriminate Ha.
    + injection H as <- _. discriminate Ha.
  - destruct (beq c q) eqn:Hcq.
    + exfalso. rewrite Ht in H. injection H as <- _. discriminate Ha.
    + injection H as <- H. destruct (IH l rest' He H) as [rest ->]. eauto.
Qed.

(** No entity arises where the value had none. *)
Lemma escapeSpec_no_new_entity q esc l :
  escapePair q esc ->
  isAtQuoteEntity ("&"%byte :: l) = None ->
  isAtQuoteEntity ("&"%byte :: escapeSpec q esc 0 l) = None.
Proof.
  intros Hp Hnone.
  destruct (isAtQuoteEntity ("&"%byte :: escapeSpec q esc 0 l)) as [[q' n]|] eqn:H;
    [|reflexivity].
  exfalso. destruct (quoteEntity_shape _ _ _ H) as (c' & e & rest' & Hb & He & _).
  injection Hb as _ Heq.
  destruct (escapeSpec_harmless_prefix q esc Hp e l rest'
              (quoteEntity_harmless _ _ He) Heq) as [rest ->].
  rewrite (quoteEntity_found "&" q' e rest He) in Hnone. discriminate.
Qed.

Lemma decodeQuotes_escaped q esc R :
  escapePair q esc -> decodeQuotes 0 (esc ++ R) = q :: decodeQuotes 0 R.
Proof.
  intros [(-> & ->) | (-> & ->)].
  - destruct (quote_entity_spellings 0 R) as (H & _).
    change (escapedDoubleQuoteBytes ++ R)
      with ("&"%byte :: "#"%byte :: "3"%byte :: "4"%byte :: ";"%byte :: R).
    cbn [decodeQuotes]. change (beq "&" "&") with true. cbv iota.
    change ("&"%byte :: "#"%byte :: "3"%byte :: "4"%byte :: ";"%byte :: R)
      with (bs "&#" ++ replicate 0 "0"%byte ++ bs "34;" ++ R).
    rewrite H. reflexivity.
  - destruct (quote_entity_spellings 0 R) as (_ & H & _).
    change (escapedSingleQuoteBytes ++ R)
      with ("&"%byte :: "#"%byte :: "3"%byte :: "9"%byte :: ";"%byte :: R).
    cbn [decodeQuotes]. change (beq "&" "&") with true. cbv iota.
    change ("&"%byte :: "#"%byte :: "3"%byte :: "9"%byte :: ";"%byte :: R)
      with (bs "&#" ++ replicate 0 "0"%byte ++ bs "39;" ++ R).
    rewrite H. reflexivity.
Qed.

Lemma decodeQuotes_escapeSpec q esc :
  escapePair q esc ->
  forall l skip, decodeQuotes 0 (escapeSpec q esc skip l) = decodeQuotes skip l.
Proof.
  intros Hp. pose proof (escapePair_quote _ _ Hp) as Hq.
  induction l as [|c l IH]; intros skip; [reflexivity|].
  destruct skip as [|k]; cbn [escapeSpec decodeQuotes]; [|apply IH].
  destruct (beq c "&") eqn:Hamp.
  - apply beq_true in Hamp. subst c.
    destruct (isAtQuoteEntity ("&"%byte :: l)) as [[eq n]|] eqn:He.
    + destruct (negb (beq eq q)) eqn:Hn.
      * cbn [app decodeQuotes].
        assert (Hne : beq eq "&" = false).
        { destruct (isAtQuoteEntity_quote _ _ _ He) as [-> | ->]; reflexivity. }
        rewrite Hne. f_equal. apply IH.
      * apply negb_false_iff in Hn. apply beq_true in Hn. subst eq.
        rewrite (decodeQuotes_escaped q esc _ Hp). f_equal. apply IH.
    + cbn [decodeQuotes]. change (beq "&" "&") with true. cbv iota.
      rewrite (escapeSpec_no_new_entity q esc l Hp He). f_equal. apply IH.
  - destruct (beq c q) eqn:Hcq.
    + apply beq_true in Hcq. subst c.
      rewrite (decodeQuotes_escaped q esc _ Hp). f_equal. apply IH.
    + cbn [decodeQuotes]. rewrite Hamp. f_equal. apply IH.
Qed.

(** X6: The body of a rebuilt value stands for the same string as the value:
    with every quote entity decoded to its quote the two are equal. *)
Theorem X6_rebuilt_value_decodes (orig b r : bytes) :
  plain b = false ->
  ~ (literalCount squote b + entityCount squote b = 0
     /\ literalCount dquote b + entityCount dquote b = 0
     /\ length orig = length b + 2) ->
  escapeAttrVal orig b = Returns r ->
  exists q body,
    r = q :: body ++ [q] /\ decodeQuotes 0 body = decodeQuotes 0 b.
Proof.
  intros Hp Hno H.
  rewrite escapeAttrVal_rebuild in H by assumption.
  destruct (_ <=? _); [|discriminate]. injection H as <-.
  exists (chosenQuote b), (escapeSpec (chosenQuote b) (chosenEscape b) 0 b).
  split; [reflexivity|].
  apply decodeQuotes_escapeSpec.
  destruct (chosen_cases b) as [(-> & -> & _) | (-> & -> & _)];
    [right | left]; split; reflexivity.
Qed.

Lemma X6_rebuilt_value_decodes_witness :
  exists q body,
    bs "'" ++ [dquote] ++ bs "a" ++ [dquote] ++ bs "b&#39;c'" = q :: body ++ [q]
    /\ decodeQuotes 0 body
       = decodeQuotes 0 ([dquote] ++ bs "a" ++ [dquote] ++ bs "b&apos;c").
Proof.
  apply (X6_rebuilt_value_decodes (bs "x") ([dquote] ++ bs "a" ++ [dquote] ++ bs "b&apos;c")).
  - reflexivity.
  - vm_compute. intros (H & _). discriminate H.
  - vm_compute. reflexivity.
Defined.

(** ** getAttributes *)

Lemma peekIdx_update l p f i :
  (forall a, TokenType (f a) = TokenType a) ->
  peekIdx (update l p f) i = peekIdx l i.
Proof.
  intros Hf. revert p i. induction l as [|t l IH]; intros p i; [reflexivity|].
  destruct p as [|p].
  - unfold update. cbn. rewrite Hf. reflexivity.
  - change (update (t :: l) (S p) f) with (t :: update l p f).
    cbn [peekIdx]. destruct (teq (TokenType t) html.ErrorToken); [reflexivity|].
    destruct i as [|i]; [reflexivity|]. rewrite IH. reflexivity.
Qed.

Lemma unwrapToken_type a : TokenType (unwrapToken a) = TokenType a.
Proof. reflexivity. Qed.

(** The pointers are computed on the buffer as it was: the unwrapping
    changes no token type. *)
Lemma fetchAttributes_ptrs idx :
  forall l,
    snd (fetchAttributes idx l)
    = map (fun i => if 0 <? i then Some (peekIdx l (i - 1)) else None) idx.
Proof.
  induction idx as [|i idx IH]; intros l; [reflexivity|].
  destruct i as [|k].
  - rewrite fetchAttributes_zero. cbn [snd map]. rewrite IH. reflexivity.
  - rewrite fetchAttributes_pos. cbn [snd map]. rewrite IH.
    change (0 <? S k) with true. cbn iota.
    replace (S k - 1) with k by lia. f_equal.
    apply map_ext. intros j. destruct (0 <? j); [|reflexivity].
    rewrite peekIdx_update by apply unwrapToken_type. reflexivity.
Qed.

Lemma fetchAttributes_frame idx :
  forall l p x,
    l !! p = Some x ->
    exists v, fst (fetchAttributes idx l) !! p = Some (setAttrVal x v).
Proof.
  induction idx as [|i idx IH]; intros l p x Hl.
  - exists (AttrVal x). cbn. rewrite setAttrVal_same. exact Hl.
  - destruct i as [|k].
    + rewrite fetchAttributes_zero. cbn [fst]. apply IH. exact Hl.
    + rewrite fetchAttributes_pos. cbn [fst].
      destruct (decide (p = peekIdx l k)) as [Hp | Hp].
      * destruct (IH (update l (peekIdx l k) unwrapToken) p (unwrapToken x)) as [v Hv].
        { rewrite update_lookup, decide_True by exact Hp. rewrite Hl. reflexivity. }
        exists v. rewrite Hv. reflexivity.
      * apply IH. rewrite update_lookup, decide_False by exact Hp. exact Hl.
Qed.

Lemma length_scanAttributes l i hashes idx :
  length idx = length hashes -> length (scanAttributes l i hashes idx) = length hashes.
Proof.
  revert i idx. induction l as [|t l IH]; intros i idx H; cbn; [exact H|].
  destruct (teq (TokenType t) html.AttributeToken); [|exact H].
  apply IH. unfold markIndex. rewrite length_zip_with. lia.
Qed.

Lemma length_index_slice (buf : list nat) (hashes : list html.Hash) :
  length (take (length hashes)
            (if length buf <? length hashes then replicate (length hashes) 0 else buf))
  = length hashes.
Proof.
  destruct (length buf <? length hashes) eqn:H.
  - rewrite length_take, length_replicate. lia.
  - apply Nat.ltb_ge in H. rewrite length_take. lia.
Qed.

Lemma getAttributes_values (l : list Token) (buf : list nat) (hashes : list html.Hash) :
  length (fst (fst (getAttributes l buf hashes))) = length l
  /\ length (snd (getAttributes l buf hashes)) = length hashes
  /\ (forall p x, l !! p = Some x ->
      exists v, fst (fst (getAttributes l buf hashes)) !! p = Some (setAttrVal x v)).
Proof.
  split; [apply length_getAttributes|].
  unfold getAttributes.
  set (idx := scanAttributes l 0 hashes _).
  assert (Hidx : length idx = length hashes).
  { apply length_scanAttributes, length_index_slice. }
  pose proof (fetchAttributes_ptrs idx l) as Hp.
  pose proof (fetchAttributes_frame idx l) as Hf.
  destruct (fetchAttributes idx l) as [l' ptrs]. cbn [fst snd] in *.
  split; [|exact Hf].
  rewrite Hp, length_map. exact Hidx.
Qed.

(** X7: [getAttributes] keeps the length of the token buffer, returns one
    pointer per requested hash, and changes no token except in its attribute
    value. *)
Theorem X7_getAttributes_frame (l : list Token) (buf : list nat) (hashes : list html.Hash) :
  length (fst (fst (getAttributes l buf hashes))) = length l
  /\ length (snd (getAttributes l buf hashes)) = length hashes
  /\ (forall p x, l !! p = Some x ->
      exists v, fst (fst (getAttributes l buf hashes)) !! p = Some (setAttrVal x v)).
Proof.
  split; [apply length_getAttributes|].
  destruct (getAttributes_values l buf hashes) as (_ & H2 & H3). auto.
Qed.

Lemma zip_with_lookup_slot (f : html.Hash -> nat -> nat) hashes idx j h v :
  hashes !! j = Some h -> idx !! j = Some v ->
  zip_with f hashes idx !! j = Some (f h v).
Proof.
  intros Hh Hv. rewrite lookup_zip_with, Hh. cbn. rewrite Hv. reflexivity.
Qed.

(** X8: When the index array is long enough to be reused and no attribute of
    the tag carries the hash of slot [j], the slot keeps the index [old] that
    it held before the call, and the pointer returned for the hash is nil only
    if [old] is 0: otherwise it is the token that [tb.Peek(old - 1)]
    returns. *)
Theorem X8_getAttributes_stale_slot (attrs rest : list Token) (buf : list nat)
    (hashes : list html.Hash) (j : nat) (h : html.Hash) (old : nat) :
  Forall (fun a => TokenType a = html.AttributeToken) attrs ->
  TokenType (Peek rest 0) <> html.AttributeToken ->
  length hashes <= length buf ->
  hashes !! j = Some h ->
  lastIndex h attrs = None ->
  buf !! j = Some old ->
  snd (fst (getAttributes (attrs ++ rest) buf hashes)) !! j = Some old
  /\ snd (getAttributes (attrs ++ rest) buf hashes) !! j
     = Some (if 0 <? old then Some (peekIdx (attrs ++ rest) (old - 1)) else None).
Proof.
  intros Hattrs Hrest Hlen Hh Hnone Hold.
  unfold getAttributes.
  rewrite (proj2 (Nat.ltb_ge _ _) Hlen).
  assert (Hj : j < length hashes) by (apply lookup_lt_Some in Hh; exact Hh).
  assert (Htake : length (take (length hashes) buf) = length hashes)
    by (rewrite length_take; lia).
  rewrite (scanAttributes_spec attrs rest hashes Hattrs Hrest 0 _ Htake).
  set (idx := zip_with _ hashes _).
  assert (Hidx : idx !! j = Some old).
  { subst idx. erewrite zip_with_lookup_slot; [|exact Hh|].
    - rewrite Hnone. reflexivity.
    - rewrite lookup_take_lt by exact Hj. exact Hold. }
  pose proof (fetchAttributes_ptrs idx (attrs ++ rest)) as Hp.
  destruct (fetchAttributes idx (attrs ++ rest)) as [l' ptrs]. cbn [fst snd] in *.
  split.
  - rewrite lookup_app_l; [exact Hidx|]. apply lookup_lt_Some in Hidx. exact Hidx.
  - rewrite Hp, list_lookup_fmap, Hidx. reflexivity.
Qed.

Lemma X8_getAttributes_stale_slot_witness :
  snd (fst (getAttributes ([Sample.attribute "content" html.Content (bs "x")] ++ [Sample.close])
              [0; 2; 0; 0]
              [html.Content; html.Http_Equiv; html.Charset; html.Name])) !! 1 = Some 2
  /\ snd (getAttributes ([Sample.attribute "content" html.Content (bs "x")] ++ [Sample.close])
            [0; 2; 0; 0]
            [html.Content; html.Http_Equiv; html.Charset; html.Name]) !! 1
     = Some (if 0 <? 2
             then Some (peekIdx ([Sample.attribute "content" html.Content (bs "x")]
                                   ++ [Sample.close]) (2 - 1))
             else None).
Proof.
  apply (X8_getAttributes_stale_slot [Sample.attribute "content" html.Content (bs "x")]
           [Sample.close] [0; 2; 0; 0]
           [html.Content; html.Http_Equiv; html.Charset; html.Name] 1 html.Http_Equiv 2).
  - repeat constructor.
  - vm_compute. discriminate.
  - vm_compute. lia.
  - reflexivity.
  - reflexivity.
  - reflexivity.
Defined.

(** *** On a clean index array *)

Lemma fetchAttributes_other n idx :
  forall l p,
    attrRun n l -> Forall (fun i => i <= n) idx ->
    ~ In (S p) idx ->
    fst (fetchAttributes idx l) !! p = l !! p.
Proof.
  induction idx as [|i idx IH]; intros l p Hrun Hle Hnin; [reflexivity|].
  apply Forall_cons in Hle as [Hi Hle].
  destruct i as [|k].
  - rewrite fetchAttributes_zero. cbn [fst]. apply (IH l p Hrun Hle).
    intros H. apply Hnin. right. exact H.
  - rewrite fetchAttributes_pos. cbn [fst].
    rewrite (peekIdx_attrRun l n k Hrun) by lia.
    rewrite IH.
    + rewrite update_lookup, decide_False; [reflexivity|].
      intros ->. apply Hnin. left. reflexivity.
    + apply attrRun_update; [apply unwrapToken_type | exact Hrun].
    + exact Hle.
    + intros H. apply Hnin. right. exact H.
Qed.

Lemma fetchAttributes_pointed n idx :
  forall l p,
    attrRun n l -> Forall (fun i => i <= n) idx ->
    (forall j1 j2 v, idx !! j1 = Some (S v) -> idx !! j2 = Some (S v) -> j1 = j2) ->
    In (S p) idx ->
    fst (fetchAttributes idx l) !! p = unwrapToken <$> l !! p.
Proof.
  induction idx as [|i idx IH]; intros l p Hrun Hle Hdup Hin; [destruct Hin|].
  apply Forall_cons in Hle as [Hi Hle].
  assert (Hdup' : forall j1 j2 v,
             idx !! j1 = Some (S v) -> idx !! j2 = Some (S v) -> j1 = j2).
  { intros j1 j2 v H1 H2. specialize (Hdup (S j1) (S j2) v H1 H2). lia. }
  destruct i as [|k].
  - rewrite fetchAttributes_zero. cbn [fst]. apply (IH l p Hrun Hle Hdup').
    destruct Hin as [H | H]; [discriminate | exact H].
  - rewrite fetchAttributes_pos. cbn [fst].
    rewrite (peekIdx_attrRun l n k Hrun) by lia.
    destruct (decide (k = p)) as [-> | Hne].
    + rewrite (fetchAttributes_other n).
      * rewrite update_lookup, decide_True by reflexivity. reflexivity.
      * apply attrRun_update; [apply unwrapToken_type | exact Hrun].
      * exact Hle.
      * intros H. apply list_elem_of_In in H.
        apply list_elem_of_lookup_1 in H as [j Hj].
        specialize (Hdup 0 (S j) p eq_refl Hj). discriminate.
    + rewrite IH.
      * rewrite update_lookup, decide_False by congruence. reflexivity.
      * apply attrRun_update; [apply unwrapToken_type | exact Hrun].
      * exact Hle.
      * exact Hdup'.
      * destruct Hin as [H | H]; [congruence | exact H].
Qed.

Lemma zip_with_zeros attrs hashes :
  forall z,
    Forall (fun i => i = 0) z -> length z = length hashes ->
    zip_with (fun hash old =>
                match lastIndex hash attrs with
                | Some p => 0 + p + 1
                | None => old
                end) hashes z
    = map (fun h => match lastIndex h attrs with Some p => S p | None => 0 end) hashes.
Proof.
  induction hashes as [|h hashes IH]; intros [|v z] Hz Hlen; cbn in *;
    try discriminate; [reflexivity|].
  apply Forall_cons in Hz as [-> Hz].
  rewrite IH by (try exact Hz; lia). f_equal.
  destruct (lastIndex h attrs); lia.
Qed.

Lemma lastIndex_lt h attrs p : lastIndex h attrs = Some p -> p < length attrs.
Proof.
  intros H. destruct (lastIndex_Some _ _ _ H) as (a & Ha & _).
  apply (lookup_lt_Some _ _ _ Ha).
Qed.

Lemma index_slice_zeros (buf : list nat) (hashes : list html.Hash) :
  Forall (fun i => i = 0) buf ->
  Forall (fun i => i = 0)
    (take (length hashes)
       (if length buf <? length hashes then replicate (length hashes) 0 else buf)).
Proof.
  intros H. apply Forall_take.
  destruct (_ <? _); [|exact H].
  apply Forall_replicate. reflexivity.
Qed.

Lemma getAttributes_clean (attrs rest : list Token) (buf : list nat)
    (hashes : list html.Hash) :
  Forall (fun a => TokenType a = html.AttributeToken) attrs ->
  TokenType (Peek rest 0) <> html.AttributeToken ->
  Forall (fun i => i = 0) buf ->
  NoDup hashes ->
  snd (getAttributes (attrs ++ rest) buf hashes)
  = map (fun h => lastIndex h attrs) hashes
  /\ (forall p h,
        In h hashes -> lastIndex h attrs = Some p ->
        fst (fst (getAttributes (attrs ++ rest) buf hashes)) !! p
        = unwrapToken <$> (attrs ++ rest) !! p)
  /\ (forall p,
        (forall h, In h hashes -> lastIndex h attrs <> Some p) ->
        fst (fst (getAttributes (attrs ++ rest) buf hashes)) !! p
        = (attrs ++ rest) !! p).
Proof.
  intros Hattrs Hrest Hzero Hnd.
  unfold getAttributes.
  rewrite (scanAttributes_spec attrs rest hashes Hattrs Hrest 0 _
             (length_index_slice buf hashes)).
  rewrite (zip_with_zeros attrs hashes _ (index_slice_zeros buf hashes Hzero)
             (length_index_slice buf hashes)).
  set (g := fun h => match lastIndex h attrs with Some p => S p | None => 0 end).
  set (idx := map g hashes).
  pose proof (attrRun_app attrs rest Hattrs) as Hrun.
  assert (Hle : Forall (fun i => i <= length attrs) idx).
  { subst idx. apply Forall_forall. intros i Hi.
    apply list_elem_of_fmap in Hi as (h & -> & _). subst g. cbn.
    destruct (lastIndex h attrs) as [p|] eqn:Hp; [|lia].
    apply lastIndex_lt in Hp. lia. }
  assert (Hdup : forall j1 j2 v,
             idx !! j1 = Some (S v) -> idx !! j2 = Some (S v) -> j1 = j2).
  { subst idx. intros j1 j2 v H1 H2.
    rewrite list_lookup_fmap in H1, H2.
    destruct (hashes !! j1) as [h1|] eqn:Hh1; [|discriminate].
    destruct (hashes !! j2) as [h2|] eqn:Hh2; [|discriminate].
    cbn in H1, H2. subst g. cbn in H1, H2.
    destruct (lastIndex h1 attrs) as [p1|] eqn:Hp1; [|discriminate].
    destruct (lastIndex h2 attrs) as [p2|] eqn:Hp2; [|discriminate].
    injection H1 as ->. injection H2 as ->.
    destruct (lastIndex_Some _ _ _ Hp1) as (a1 & Ha1 & Hx1).
    destruct (lastIndex_Some _ _ _ Hp2) as (a2 & Ha2 & Hx2).
    assert (Heq : h1 = h2) by congruence. rewrite <- Heq in Hh2.
    apply (NoDup_lookup hashes j1 j2 h1 Hnd Hh1 Hh2). }
  pose proof (fetchAttributes_ptrs idx (attrs ++ rest)) as Hp.
  pose proof (fetchAttributes_pointed (length attrs) idx (attrs ++ rest)) as Hin.
  pose proof (fetchAttributes_other (length attrs) idx (attrs ++ rest)) as Hout.
  destruct (fetchAttributes idx (attrs ++ rest)) as [l' ptrs]. cbn [fst snd] in *.
  split; [|split].
  - rewrite Hp. subst idx. rewrite map_map. apply map_ext. intros h. subst g. cbn.
    destruct (lastIndex h attrs) as [p|] eqn:Hl; [|reflexivity].
    change (0 <? S p) with true. cbn iota. replace (S p - 1) with p by lia.
    rewrite (peekIdx_attrRun _ _ p Hrun) by (apply lastIndex_lt in Hl; exact Hl).
    reflexivity.
  - intros p h Hh Hl. apply (Hin p Hrun Hle Hdup).
    subst idx. apply in_map_iff. exists h. split; [|exact Hh].
    subst g. cbn. rewrite Hl. reflexivity.
  - intros p Hno. apply (Hout p Hrun Hle).
    subst idx. intros H. apply in_map_iff in H as (h & Hg & Hh).
    subst g. cbn in Hg. apply (Hno h Hh).
    destruct (lastIndex h attrs); [congruence | discriminate].
Qed.

(** X9: On an index array of zeros and for distinct hashes, the pointer
    returned for a hash is the position of the last attribute of the tag with
    that hash (nil when there is none), the tokens pointed to have their value
    unwrapped once, and every other token is unchanged. *)
Theorem X9_getAttributes_fresh (attrs rest : list Token) (buf : list nat)
    (hashes : list html.Hash) :
  Forall (fun a => TokenType a = html.AttributeToken) attrs ->
  TokenType (Peek rest 0) <> html.AttributeToken ->
  Forall (fun i => i = 0) buf ->
  NoDup hashes ->
  snd (getAttributes (attrs ++ rest) buf hashes)
  = map (fun h => lastIndex h attrs) hashes
  /\ (forall p h,
        In h hashes -> lastIndex h attrs = Some p ->
        fst (fst (getAttributes (attrs ++ rest) buf hashes)) !! p
        = unwrapToken <$> (attrs ++ rest) !! p)
  /\ (forall p,
        (forall h, In h hashes -> lastIndex h attrs <> Some p) ->
        fst (fst (getAttributes (attrs ++ rest) buf hashes)) !! p
        = (attrs ++ rest) !! p).
Proof. apply getAttributes_clean. Qed.

Lemma X9_getAttributes_fresh_witness :
  snd (getAttributes ([Sample.attribute "id" html.Id (bs "a");
                       Sample.attribute "id" html.Id (Sample.quoted "b")] ++ [Sample.close])
         [0; 0; 0; 0] [html.Id; html.Name])
  = map (fun h => lastIndex h [Sample.attribute "id" html.Id (bs "a");
                               Sample.attribute "id" html.Id (Sample.quoted "b")])
      [html.Id; html.Name]
  /\ (forall p h,
        In h [html.Id; html.Name] ->
        lastIndex h [Sample.attribute "id" html.Id (bs "a");
                     Sample.attribute "id" html.Id (Sample.quoted "b")] = Some p ->
        fst (fst (getAttributes ([Sample.attribute "id" html.Id (bs "a");
                                  Sample.attribute "id" html.Id (Sample.quoted "b")]
                                   ++ [Sample.close])
                    [0; 0; 0; 0] [html.Id; html.Name])) !! p
        = unwrapToken <$> ([Sample.attribute "id" html.Id (bs "a");
                            Sample.attribute "id" html.Id (Sample.quoted "b")]
                             ++ [Sample.close]) !! p)
  /\ (forall p,
        (forall h, In h [html.Id; html.Name] ->
                   lastIndex h [Sample.attribute "id" html.Id (bs "a");
                                Sample.attribute "id" html.Id (Sample.quoted "b")]
                   <> Some p) ->
        fst (fst (getAttributes ([Sample.attribute "id" html.Id (bs "a");
                                  Sample.attribute "id" html.Id (Sample.quoted "b")]
                                   ++ [Sample.close])
                    [0; 0; 0; 0] [html.Id; html.Name])) !! p
        = ([Sample.attribute "id" html.Id (bs "a");
            Sample.attribute "id" html.Id (Sample.quoted "b")] ++ [Sample.close]) !! p).
Proof.
  apply (X9_getAttributes_fresh
           [Sample.attribute "id" html.Id (bs "a");
            Sample.attribute "id" html.Id (Sample.quoted "b")]
           [Sample.close] [0; 0; 0; 0] [html.Id; html.Name]).
  - repeat constructor.
  - vm_compute. discriminate.
  - repeat constructor.
  - apply NoDup_cons. split; [|apply NoDup_singleton].
    intros H. apply list_elem_of_singleton in H. discriminate H.
Defined.

(** ** The rewrite pass on a clean index array *)

Lemma slot_map_lastIndex attrs hashes j h :
  hashes !! j = Some h ->
  slot (map (fun h => lastIndex h attrs) hashes) j = lastIndex h attrs.
Proof.
  intros H. unfold slot.
  change (map (fun h0 => lastIndex h0 attrs) hashes)
    with ((fun h0 => lastIndex h0 attrs) <$> hashes).
  rewrite list_lookup_fmap, H. reflexivity.
Qed.

Lemma NoDup_script_hashes : NoDup [html.Src; html.Charset].
Proof.
  apply NoDup_cons. split; [|apply NoDup_singleton].
  intros H. apply list_elem_of_singleton in H. discriminate H.
Qed.

(** X10: On a clean index array the script rewrite removes the (last) charset
    attribute when the tag has a src attribute, and removes nothing otherwise:
    every other token keeps its type, name and hash. *)
Theorem X10_rewriteScript_charset (s : State) (attrs rest : list Token) :
  tb s = attrs ++ rest ->
  Forall (fun a => TokenType a = html.AttributeToken) attrs ->
  TokenType (Peek rest 0) <> html.AttributeToken ->
  Forall (fun i => i = 0) (attrIntBuffer s) ->
  forall p x,
    (attrs ++ rest) !! p = Some x ->
    exists v,
      tb (rewriteScript s) !! p
      = Some (setAttrVal
                (if match lastIndex html.Src attrs, lastIndex html.Charset attrs with
                    | Some _, Some charset => bool_decide (p = charset)
                    | _, _ => false
                    end
                 then setData x None else x) v).
Proof.
  intros Htb Hattrs Hrest Hzero p x Hx.
  unfold rewriteScript. rewrite Htb.
  destruct (getAttributes_clean attrs rest (attrIntBuffer s) [html.Src; html.Charset]
              Hattrs Hrest Hzero NoDup_script_hashes) as (Hptrs & _ & _).
  destruct (getAttributes_values (attrs ++ rest) (attrIntBuffer s)
              [html.Src; html.Charset]) as (_ & _ & Hframe).
  destruct (Hframe p x Hx) as [v Hv]. clear Hframe.
  destruct (getAttributes (attrs ++ rest) (attrIntBuffer s) [html.Src; html.Charset])
    as [[l buf] ptrs].
  cbn [fst snd] in *. subst ptrs. cbn [tb setTb setAttrIntBuffer].
  rewrite (slot_map_lastIndex attrs [html.Src; html.Charset] 0 html.Src eq_refl).
  rewrite (slot_map_lastIndex attrs [html.Src; html.Charset] 1 html.Charset eq_refl).
  destruct (lastIndex html.Src attrs) as [src|]; [|eauto].
  destruct (lastIndex html.Charset attrs) as [charset|]; [|eauto].
  rewrite update_lookup, Hv.
  destruct (decide (p = charset)) as [-> | Hne].
  - rewrite bool_decide_eq_true_2 by reflexivity. exists v. reflexivity.
  - rewrite bool_decide_eq_false_2 by exact Hne. eauto.
Qed.

Lemma X10_rewriteScript_charset_witness :
  exists v,
    tb (rewriteScript
          (initial [Sample.attribute "charset" html.Charset (bs "utf-8");
                    Sample.attribute "src" html.Src (bs "a.js");
                    Sample.close])) !! 0
    = Some (setAttrVal
              (if match lastIndex html.Src
                          [Sample.attribute "charset" html.Charset (bs "utf-8");
                           Sample.attribute "src" html.Src (bs "a.js")],
                        lastIndex html.Charset
                          [Sample.attribute "charset" html.Charset (bs "utf-8");
                           Sample.attribute "src" html.Src (bs "a.js")]
                  with
                  | Some _, Some charset => bool_decide (0 = charset)
                  | _, _ => false
                  end
               then setData (Sample.attribute "charset" html.Charset (bs "utf-8")) None
               else Sample.attribute "charset" html.Charset (bs "utf-8")) v).
Proof.
  apply (X10_rewriteScript_charset
           (initial [Sample.attribute "charset" html.Charset (bs "utf-8");
                     Sample.attribute "src" html.Src (bs "a.js");
                     Sample.close])
           [Sample.attribute "charset" html.Charset (bs "utf-8");
            Sample.attribute "src" html.Src (bs "a.js")]
           [Sample.close]).
  - reflexivity.
  - repeat constructor.
  - vm_compute. discriminate.
  - repeat constructor.
  - reflexivity.
Defined.

Lemma NoDup_anchor_hashes : NoDup [html.Id; html.Name; html.Rel; html.Href].
Proof.
  repeat (apply NoDup_cons; split;
          [intros H; apply list_elem_of_In in H; cbn in H; intuition discriminate|]).
  apply NoDup_nil_2.
Qed.

Lemma lookup_tokAt_app attrs rest p a :
  attrs !! p = Some a -> tokAt (attrs ++ rest) p = tokAt attrs p.
Proof.
  intros H. unfold tokAt.
  rewrite lookup_app_l by (apply (lookup_lt_Some _ _ _ H)). reflexivity.
Qed.

Lemma tokAt_fmap (l l0 : list Token) p f a :
  l0 !! p = Some a -> l !! p = f <$> l0 !! p -> tokAt l p = f (tokAt l0 p).
Proof. intros H0 H. unfold tokAt. rewrite H, H0. reflexivity. Qed.

Lemma pointed_tokAt (attrs rest l : list Token) (hashes : list html.Hash) h p :
  (forall p h,
      In h hashes -> lastIndex h attrs = Some p ->
      l !! p = unwrapToken <$> (attrs ++ rest) !! p) ->
  In h hashes -> lastIndex h attrs = Some p ->
  tokAt l p = unwrapToken (tokAt attrs p).
Proof.
  intros Hin Hh Hl.
  destruct (lastIndex_Some _ _ _ Hl) as (a & Ha & _).
  rewrite <- (lookup_tokAt_app attrs rest p a Ha).
  apply (tokAt_fmap l (attrs ++ rest) p unwrapToken a).
  - rewrite lookup_app_l by (apply (lookup_lt_Some _ _ _ Ha)). exact Ha.
  - apply (Hin p h Hh Hl).
Qed.

Lemma update_value_frame l q g p y v :
  l !! p = Some (setAttrVal y v) ->
  exists v', update l q (fun t => setAttrVal t (g t)) !! p = Some (setAttrVal y v').
Proof.
  intros H. rewrite update_lookup, H. destruct (decide (p = q)); cbn; eauto.
Qed.

(** X11: On a clean index array the anchor rewrite removes the (last) name
    attribute exactly when the tag has an id attribute whose unwrapped value
    equals the unwrapped value of the name; no other attribute is removed. *)
Theorem X11_rewriteA_name (s : State) (attrs rest : list Token) :
  tb s = attrs ++ rest ->
  Forall (fun a => TokenType a = html.AttributeToken) attrs ->
  TokenType (Peek rest 0) <> html.AttributeToken ->
  Forall (fun i => i = 0) (attrIntBuffer s) ->
  forall p x,
    (attrs ++ rest) !! p = Some x ->
    exists v,
      tb (rewriteA s) !! p
      = Some (setAttrVal
                (if bool_decide (repeatedName attrs = Some p)
                 then setData x None else x) v).
Proof.
  intros Htb Hattrs Hrest Hzero p x Hx.
  unfold rewriteA. rewrite Htb.
  destruct (getAttributes_clean attrs rest (attrIntBuffer s)
              [html.Id; html.Name; html.Rel; html.Href]
              Hattrs Hrest Hzero NoDup_anchor_hashes) as (Hptrs & Hin & _).
  destruct (getAttributes_values (attrs ++ rest) (attrIntBuffer s)
              [html.Id; html.Name; html.Rel; html.Href]) as (_ & _ & Hframe).
  destruct (Hframe p x Hx) as [v Hv]. clear Hframe.
  destruct (getAttributes (attrs ++ rest) (attrIntBuffer s)
              [html.Id; html.Name; html.Rel; html.Href]) as [[l buf] ptrs].
  cbn [fst snd] in *. subst ptrs. cbn [tb setTb setAttrIntBuffer].
  rewrite (slot_map_lastIndex attrs [html.Id; html.Name; html.Rel; html.Href] 0 html.Id eq_refl).
  rewrite (slot_map_lastIndex attrs [html.Id; html.Name; html.Rel; html.Href] 1 html.Name eq_refl).
  rewrite (slot_map_lastIndex attrs [html.Id; html.Name; html.Rel; html.Href] 3 html.Href eq_refl).
  set (l1 := match lastIndex html.Id attrs with
             | Some id => _
             | None => l
             end).
  assert (H1 : l1 !! p
               = Some (setAttrVal
                         (if bool_decide (repeatedName attrs = Some p)
                          then setData x None else x) v)).
  { subst l1. unfold repeatedName.
    destruct (lastIndex html.Id attrs) as [id|] eqn:Hid;
      [|rewrite bool_decide_eq_false_2 by discriminate; exact Hv].
    destruct (lastIndex html.Name attrs) as [name|] eqn:Hname;
      [|rewrite bool_decide_eq_false_2 by discriminate; exact Hv].
    rewrite (pointed_tokAt attrs rest l _ html.Id id Hin) by (cbn; auto).
    rewrite (pointed_tokAt attrs rest l _ html.Name name Hin) by (cbn; auto).
    change (AttrVal (unwrapToken ?t)) with (unwrapAttrVal (AttrVal t)).
    destruct (Equal _ _);
      [|rewrite bool_decide_eq_false_2 by discriminate; exact Hv].
    rewrite update_lookup, Hv.
    destruct (decide (p = name)) as [-> | Hne].
    - rewrite bool_decide_eq_true_2 by reflexivity. reflexivity.
    - rewrite bool_decide_eq_false_2 by congruence. reflexivity. }
  destruct (lastIndex html.Href attrs) as [href|]; [|eauto].
  match goal with
  | |- context [if ?c then _ else _] => destruct c
  end; [|eauto].
  apply (update_value_frame l1 href (fun t => stripScheme (AttrVal t)) p _ v H1).
Qed.

Lemma X11_rewriteA_name_witness :
  exists v,
    tb (rewriteA (initial [Sample.attribute "id" html.Id (bs "top");
                           Sample.attribute "name" html.Name (Sample.quoted "top");
                           Sample.close])) !! 1
    = Some (setAttrVal
              (if bool_decide
                    (repeatedName [Sample.attribute "id" html.Id (bs "top");
                                   Sample.attribute "name" html.Name (Sample.quoted "top")]
                     = Some 1)
               then setData (Sample.attribute "name" html.Name (Sample.quoted "top")) None
               else Sample.attribute "name" html.Name (Sample.quoted "top")) v).
Proof.
  apply (X11_rewriteA_name
           (initial [Sample.attribute "id" html.Id (bs "top");
                     Sample.attribute "name" html.Name (Sample.quoted "top");
                     Sample.close])
           [Sample.attribute "id" html.Id (bs "top");
            Sample.attribute "name" html.Name (Sample.quoted "top")]
           [Sample.close]).
  - reflexivity.
  - repeat constructor.
  - vm_compute. discriminate.
  - repeat constructor.
  - reflexivity.
Defined.

Lemma AttrVal_tokAt_setData l q r :
  AttrVal (tokAt (update l q (fun t => setData t None)) r) = AttrVal (tokAt l r).
Proof.
  unfold tokAt. rewrite update_lookup.
  destruct (decide (r = q)); destruct (l !! r); reflexivity.
Qed.

(** X12: On a clean index array the anchor rewrite leaves in the (last) href
    attribute its unwrapped value without the http: or https: scheme, unless
    the tag has a rel attribute whose unwrapped value is external in any case:
    then the unwrapped value is kept as it is. *)
Theorem X12_rewriteA_href (s : State) (attrs rest : list Token) (href : nat) (th : Token) :
  tb s = attrs ++ rest ->
  Forall (fun a => TokenType a = html.AttributeToken) attrs ->
  TokenType (Peek rest 0) <> html.AttributeToken ->
  Forall (fun i => i = 0) (attrIntBuffer s) ->
  lastIndex html.Href attrs = Some href ->
  attrs !! href = Some th ->
  tb (rewriteA s) !! href
  = Some (setAttrVal th
            (if relExternal attrs then unwrapAttrVal (AttrVal th)
             else stripScheme (unwrapAttrVal (AttrVal th)))).
Proof.
  intros Htb Hattrs Hrest Hzero Hhref Hth.
  unfold rewriteA. rewrite Htb.
  destruct (getAttributes_clean attrs rest (attrIntBuffer s)
              [html.Id; html.Name; html.Rel; html.Href]
              Hattrs Hrest Hzero NoDup_anchor_hashes) as (Hptrs & Hin & _).
  destruct (getAttributes (attrs ++ rest) (attrIntBuffer s)
              [html.Id; html.Name; html.Rel; html.Href]) as [[l buf] ptrs].
  cbn [fst snd] in *. subst ptrs. cbn [tb setTb setAttrIntBuffer].
  rewrite (slot_map_lastIndex attrs [html.Id; html.Name; html.Rel; html.Href] 0 html.Id eq_refl).
  rewrite (slot_map_lastIndex attrs [html.Id; html.Name; html.Rel; html.Href] 1 html.Name eq_refl).
  rewrite (slot_map_lastIndex attrs [html.Id; html.Name; html.Rel; html.Href] 2 html.Rel eq_refl).
  rewrite (slot_map_lastIndex attrs [html.Id; html.Name; html.Rel; html.Href] 3 html.Href eq_refl).
  rewrite Hhref.
  assert (Hl : l !! href = Some (unwrapToken th)).
  { rewrite (Hin href html.Href) by (cbn; auto).
    rewrite lookup_app_l by (apply (lookup_lt_Some _ _ _ Hth)). rewrite Hth. reflexivity. }
  set (l1 := match lastIndex html.Id attrs with
             | Some id => _
             | None => l
             end).
  assert (H1 : l1 !! href = Some (unwrapToken th)).
  { subst l1. destruct (lastIndex html.Id attrs) as [id|]; [|exact Hl].
    destruct (lastIndex html.Name attrs) as [name|] eqn:Hname; [|exact Hl].
    destruct (Equal _ _); [|exact Hl].
    rewrite update_lookup, decide_False; [exact Hl|].
    intros ->. destruct (lastIndex_Some _ _ _ Hname) as (a & Ha & Hh).
    destruct (lastIndex_Some _ _ _ Hhref) as (a' & Ha' & Hh').
    rewrite Ha in Ha'. injection Ha' as <-. rewrite Hh in Hh'. discriminate. }
  assert (Hrel : forall rel, lastIndex html.Rel attrs = Some rel ->
                   AttrVal (tokAt l1 rel) = unwrapAttrVal (AttrVal (tokAt attrs rel))).
  { intros rel Hr.
    assert (Hlr : AttrVal (tokAt l rel) = unwrapAttrVal (AttrVal (tokAt attrs rel))).
    { rewrite (pointed_tokAt attrs rest l _ html.Rel rel Hin) by (cbn; auto). reflexivity. }
    subst l1. destruct (lastIndex html.Id attrs) as [id|]; [|exact Hlr].
    destruct (lastIndex html.Name attrs) as [name|]; [|exact Hlr].
    destruct (Equal _ _); [|exact Hlr].
    rewrite AttrVal_tokAt_setData. exact Hlr. }
  unfold relExternal.
  destruct (lastIndex html.Rel attrs) as [rel|] eqn:Hr.
  - rewrite (Hrel rel eq_refl).
    destruct (EqualCaseInsensitive _ _); cbn [negb].
    + rewrite H1. reflexivity.
    + rewrite update_lookup, decide_True, H1 by reflexivity. reflexivity.
  - rewrite update_lookup, decide_True, H1 by reflexivity. reflexivity.
Qed.

Lemma X12_rewriteA_href_witness :
  tb (rewriteA (initial [Sample.attribute "href" html.Href (Sample.quoted "HTTPS://a.b/");
                         Sample.close])) !! 0
  = Some (setAttrVal (Sample.attribute "href" html.Href (Sample.quoted "HTTPS://a.b/"))
            (if relExternal [Sample.attribute "href" html.Href (Sample.quoted "HTTPS://a.b/")]
             then unwrapAttrVal (Sample.quoted "HTTPS://a.b/")
             else stripScheme (unwrapAttrVal (Sample.quoted "HTTPS://a.b/")))).
Proof.
  apply (X12_rewriteA_href
           (initial [Sample.attribute "href" html.Href (Sample.quoted "HTTPS://a.b/");
                     Sample.close])
           [Sample.attribute "href" html.Href (Sample.quoted "HTTPS://a.b/")]
           [Sample.close] 0
           (Sample.attribute "href" html.Href (Sample.quoted "HTTPS://a.b/"))).
  - reflexivity.
  - repeat constructor.
  - vm_compute. discriminate.
  - repeat constructor.
  - reflexivity.
  - reflexivity.
Defined.

(** ** stripScheme *)

Lemma EqualCaseInsensitive_take s t r :
  EqualCaseInsensitive s t = true -> take (length t) (s ++ r) = s.
Proof.
  intros H. rewrite <- (EqualCaseInsensitive_length _ _ H).
  apply take_app_length.
Qed.

(** X13: For [s] equal to http in any case: [s:] followed by at least one
    byte loses the scheme, [s:] alone is kept, [ss:] and [sS:] lose the scheme
    even when nothing follows, and [s] followed by any other byte is kept. *)
Theorem X13_stripScheme_cases (s r : bytes) (c : byte) :
  EqualCaseInsensitive s (bs "http") = true ->
  (r <> [] -> stripScheme (s ++ bs ":" ++ r) = r)
  /\ stripScheme (s ++ bs ":") = s ++ bs ":"
  /\ (c = "s"%byte \/ c = "S"%byte -> stripScheme (s ++ [c] ++ bs ":" ++ r) = r)
  /\ (c <> ":"%byte -> c <> "s"%byte -> c <> "S"%byte ->
      stripScheme (s ++ [c] ++ r) = s ++ [c] ++ r).
Proof.
  intros Hs.
  pose proof (EqualCaseInsensitive_length _ _ Hs) as Hlen. cbn in Hlen.
  destruct s as [|c1 [|c2 [|c3 [|c4 [|c5 s]]]]]; try discriminate Hlen.
  unfold stripScheme.
  split; [|split; [|split]].
  - intros Hr. destruct r as [|x r]; [contradiction|].
    change (take 4 ([c1; c2; c3; c4] ++ bs ":" ++ x :: r)) with [c1; c2; c3; c4].
    rewrite Hs. cbn [length app]. reflexivity.
  - reflexivity.
  - intros Hc.
    change (take 4 ([c1; c2; c3; c4] ++ [c] ++ bs ":" ++ r)) with [c1; c2; c3; c4].
    rewrite Hs. destruct Hc as [-> | ->]; reflexivity.
  - intros H1 H2 H3.
    change (isAt ([c1; c2; c3; c4] ++ [c] ++ r) 4 ":") with (beq c ":").
    change (isAt ([c1; c2; c3; c4] ++ [c] ++ r) 4 "s") with (beq c "s").
    change (isAt ([c1; c2; c3; c4] ++ [c] ++ r) 4 "S") with (beq c "S").
    rewrite (proj2 (beq_false _ _) H1), (proj2 (beq_false _ _) H2),
      (proj2 (beq_false _ _) H3).
    cbn [orb andb]. destruct (_ && _); reflexivity.
Qed.

Lemma X13_stripScheme_cases_witness :
  (bs "//x" <> [] -> stripScheme (bs "HtTp" ++ bs ":" ++ bs "//x") = bs "//x")
  /\ stripScheme (bs "HtTp" ++ bs ":") = bs "HtTp" ++ bs ":"
  /\ ("S"%byte = "s"%byte \/ "S"%byte = "S"%byte ->
      stripScheme (bs "HtTp" ++ ["S"%byte] ++ bs ":" ++ bs "//x") = bs "//x")
  /\ ("S"%byte <> ":"%byte -> "S"%byte <> "s"%byte -> "S"%byte <> "S"%byte ->
      stripScheme (bs "HtTp" ++ ["S"%byte] ++ bs "//x") = bs "HtTp" ++ ["S"%byte] ++ bs "//x").
Proof.
  apply (X13_stripScheme_cases (bs "HtTp") (bs "//x") "S"). reflexivity.
Defined.

(** ** The meta rewrite on a clean index array *)

Lemma NoDup_meta_hashes :
  NoDup [html.Content; html.Http_Equiv; html.Charset; html.Name].
Proof.
  repeat (apply NoDup_cons; split;
          [intros H; apply list_elem_of_In in H; cbn in H; intuition discriminate|]).
  apply NoDup_nil_2.
Qed.

Lemma lastIndex_distinct h1 h2 attrs p1 p2 :
  lastIndex h1 attrs = Some p1 -> lastIndex h2 attrs = Some p2 -> h1 <> h2 -> p1 <> p2.
Proof.
  intros H1 H2 Hne ->.
  destruct (lastIndex_Some _ _ _ H1) as (a & Ha & Hh).
  destruct (lastIndex_Some _ _ _ H2) as (a' & Ha' & Hh').
  congruence.
Qed.

(** What [rewriteMeta] starts from on a clean index array. *)
Lemma rewriteMeta_clean (E : Env) (s : State) (attrs rest : list Token) :
  tb s = attrs ++ rest ->
  Forall (fun a => TokenType a = html.AttributeToken) attrs ->
  TokenType (Peek rest 0) <> html.AttributeToken ->
  Forall (fun i => i = 0) (attrIntBuffer s) ->
  exists l buf,
    rewriteMeta E s
    = metaRules E [lastIndex html.Content attrs; lastIndex html.Http_Equiv attrs;
                   lastIndex html.Charset attrs; lastIndex html.Name attrs]
        (setAttrIntBuffer (setTb s l) buf)
    /\ (forall p h a,
          In h [html.Content; html.Http_Equiv; html.Charset; html.Name] ->
          lastIndex h attrs = Some p -> attrs !! p = Some a ->
          l !! p = Some (unwrapToken a))
    /\ (forall p x, (attrs ++ rest) !! p = Some x ->
        exists v, l !! p = Some (setAttrVal x v)).
Proof.
  intros Htb Hattrs Hrest Hzero.
  unfold rewriteMeta. rewrite Htb.
  destruct (getAttributes_clean attrs rest (attrIntBuffer s)
              [html.Content; html.Http_Equiv; html.Charset; html.Name]
              Hattrs Hrest Hzero NoDup_meta_hashes) as (Hptrs & Hin & _).
  destruct (getAttributes_values (attrs ++ rest) (attrIntBuffer s)
              [html.Content; html.Http_Equiv; html.Charset; html.Name])
    as (_ & _ & Hframe).
  destruct (getAttributes (attrs ++ rest) (attrIntBuffer s)
              [html.Content; html.Http_Equiv; html.Charset; html.Name])
    as [[l buf] ptrs].
  cbn [fst snd] in *. subst ptrs. exists l, buf.
  split; [reflexivity|]. split; [|exact Hframe].
  intros p h a Hh Hl Ha. rewrite (Hin p h Hh Hl).
  rewrite lookup_app_l by (apply (lookup_lt_Some _ _ _ Ha)). rewrite Ha. reflexivity.
Qed.

Lemma attr_type attrs p a :
  Forall (fun a => TokenType a = html.AttributeToken) attrs ->
  attrs !! p = Some a -> TokenType a = html.AttributeToken.
Proof.
  intros H Ha. rewrite Forall_forall in H. apply H, (list_elem_of_lookup_2 _ _ _ Ha).
Qed.

(** X14: On a clean index array, a meta tag whose (last) http-equiv attribute
    is content-type in any case, whose (last) content attribute normalizes to
    text/html;charset=utf-8 and which has no charset attribute is rewritten:
    the content token becomes charset=utf-8, the http-equiv token is removed,
    and every other token keeps its type, name and hash. *)
Theorem X14_rewriteMeta_charset (E : Env) (s : State) (attrs rest : list Token)
    (ic ih : nat) (c h : Token) :
  tb s = attrs ++ rest ->
  Forall (fun a => TokenType a = html.AttributeToken) attrs ->
  TokenType (Peek rest 0) <> html.AttributeToken ->
  Forall (fun i => i = 0) (attrIntBuffer s) ->
  lastIndex html.Content attrs = Some ic -> attrs !! ic = Some c ->
  lastIndex html.Http_Equiv attrs = Some ih -> attrs !! ih = Some h ->
  lastIndex html.Charset attrs = None ->
  EqualCaseInsensitive (unwrapAttrVal (AttrVal h)) (bs "content-type") = true ->
  NormalizeContentType E (unwrapAttrVal (AttrVal c)) = bs "text/html;charset=utf-8" ->
  tb (rewriteMeta E s) !! ic = Some charsetToken
  /\ tb (rewriteMeta E s) !! ih
     = Some (mkToken html.AttributeToken None (unwrapAttrVal (AttrVal h)) html.Http_Equiv)
  /\ (forall i x, i <> ic -> i <> ih -> (attrs ++ rest) !! i = Some x ->
      exists v, tb (rewriteMeta E s) !! i = Some (setAttrVal x v)).
Proof.
  intros Htb Hattrs Hrest Hzero Hic Hc Hih Hh Hnc Heq Hnorm.
  destruct (rewriteMeta_clean E s attrs rest Htb Hattrs Hrest Hzero)
    as (l & buf & -> & Hin & Hframe).
  rewrite Hic, Hih, Hnc.
  assert (Hne : ic <> ih) by (apply (lastIndex_distinct _ _ _ _ _ Hic Hih); discriminate).
  assert (Hlc : l !! ic = Some (unwrapToken c)).
  { apply (Hin ic html.Content c); cbn; auto. }
  assert (Hlh : l !! ih = Some (unwrapToken h)).
  { apply (Hin ih html.Http_Equiv h); cbn; auto. }
  assert (Hnm : forall pn, lastIndex html.Name attrs = Some pn -> pn <> ic).
  { intros pn Hn. apply (lastIndex_distinct _ _ _ _ _ Hn Hic). discriminate. }
  destruct (metaRules_content_type E (setAttrIntBuffer (setTb s l) buf) ic ih
              (unwrapToken c) (unwrapToken h) (lastIndex html.Name attrs)
              Hne Hnm Hlc Hlh Hnorm Heq) as (R1 & R2 & R3).
  destruct (lastIndex_Some _ _ _ Hih) as (h' & Hh' & HHh).
  rewrite Hh in Hh'. injection Hh' as <-.
  split; [|split].
  - rewrite R1. unfold charsetToken. cbn [TokenType unwrapToken setAttrVal].
    rewrite (attr_type attrs ic c Hattrs Hc). reflexivity.
  - rewrite R2. unfold setData, unwrapToken, setAttrVal.
    cbn [TokenType Data AttrVal Hash].
    rewrite (attr_type attrs ih h Hattrs Hh), HHh. reflexivity.
  - intros i x Hi1 Hi2 Hx. rewrite (R3 i Hi1 Hi2). cbn [tb setTb setAttrIntBuffer].
    apply Hframe. exact Hx.
Qed.

Lemma X14_rewriteMeta_charset_witness :
  tb (rewriteMeta Sample.env
        (initial [Sample.attribute "http-equiv" html.Http_Equiv (Sample.quoted "Content-Type");
                  Sample.attribute "content" html.Content
                    (Sample.quoted "text/html; charset=UTF-8");
                  Sample.close])) !! 1 = Some charsetToken
  /\ tb (rewriteMeta Sample.env
           (initial [Sample.attribute "http-equiv" html.Http_Equiv
                       (Sample.quoted "Content-Type");
                     Sample.attribute "content" html.Content
                       (Sample.quoted "text/html; charset=UTF-8");
                     Sample.close])) !! 0
     = Some (mkToken html.AttributeToken None
               (unwrapAttrVal (AttrVal (Sample.attribute "http-equiv" html.Http_Equiv
                                          (Sample.quoted "Content-Type"))))
               html.Http_Equiv)
  /\ (forall i x, i <> 1 -> i <> 0 ->
      ([Sample.attribute "http-equiv" html.Http_Equiv (Sample.quoted "Content-Type");
        Sample.attribute "content" html.Content (Sample.quoted "text/html; charset=UTF-8")]
         ++ [Sample.close]) !! i = Some x ->
      exists v,
        tb (rewriteMeta Sample.env
              (initial [Sample.attribute "http-equiv" html.Http_Equiv
                          (Sample.quoted "Content-Type");
                        Sample.attribute "content" html.Content
                          (Sample.quoted "text/html; charset=UTF-8");
                        Sample.close])) !! i
        = Some (setAttrVal x v)).
Proof.
  apply (X14_rewriteMeta_charset Sample.env
           (initial [Sample.attribute "http-equiv" html.Http_Equiv
                       (Sample.quoted "Content-Type");
                     Sample.attribute "content" html.Content
                       (Sample.quoted "text/html; charset=UTF-8");
                     Sample.close])
           [Sample.attribute "http-equiv" html.Http_Equiv (Sample.quoted "Content-Type");
            Sample.attribute "content" html.Content (Sample.quoted "text/html; charset=UTF-8")]
           [Sample.close] 1 0
           (Sample.attribute "content" html.Content (Sample.quoted "text/html; charset=UTF-8"))
           (Sample.attribute "http-equiv" html.Http_Equiv (Sample.quoted "Content-Type"))).
  - reflexivity.
  - repeat constructor.
  - vm_compute. discriminate.
  - repeat constructor.
  - reflexivity.
  - reflexivity.
  - reflexivity.
  - reflexivity.
  - reflexivity.
  - reflexivity.
  - vm_compute. reflexivity.
Defined.

Lemma ECI_length_differs s t t' :
  EqualCaseInsensitive s t = true -> length t <> length t' ->
  EqualCaseInsensitive s t' = false.
Proof.
  intros H Hne. destruct (EqualCaseInsensitive s t') eqn:H'; [|reflexivity].
  apply EqualCaseInsensitive_length in H, H'. congruence.
Qed.

(** The defaults do not depend on the buffer and the name rules keep them. *)
Lemma metaRules_defaults (E : Env) (s0 : State) (ic ih : nat) (cs nm : option nat)
    (c h : Token) :
  ic <> ih ->
  tb s0 !! ic = Some c -> tb s0 !! ih = Some h ->
  let v := NormalizeContentType E (AttrVal c) in
  let s' := metaRules E [Some ic; Some ih; cs; nm] s0 in
  (EqualCaseInsensitive (AttrVal h) (bs "content-script-type") = true ->
   defaultScriptType s' = v
   /\ defaultStyleType s' = defaultStyleType s0
   /\ defaultInlineStyleType s' = defaultInlineStyleType s0)
  /\ (EqualCaseInsensitive (AttrVal h) (bs "content-style-type") = true ->
      defaultStyleType s' = v
      /\ defaultInlineStyleType s' = v ++ bs ";inline=1"
      /\ defaultScriptType s' = defaultScriptType s0).
Proof.
  intros Hne Hc Hh v s'. subst s'.
  unfold metaRules. cbn [slot lookup list_lookup].
  set (l1 := update (tb s0) ic
               (fun t => setAttrVal t (NormalizeContentType E (AttrVal t)))).
  assert (H1c : l1 !! ic = Some (setAttrVal c v)).
  { subst l1. rewrite update_lookup, decide_True by reflexivity. rewrite Hc. reflexivity. }
  assert (H1h : l1 !! ih = Some h).
  { subst l1. rewrite update_lookup, decide_False by congruence. exact Hh. }
  rewrite (tokAt_lookup _ _ _ H1c), (tokAt_lookup _ _ _ H1h).
  cbn [AttrVal setAttrVal].
  assert (Hname : forall s1 : State,
             defaultScriptType
               (match nm with
                | Some name =>
                    if EqualCaseInsensitive (AttrVal (tokAt (tb s1) name)) (bs "keywords")
                    then setTb s1 (update (tb s1) ic
                                     (fun t => setAttrVal t
                                                 (Replace (AttrVal t) (bs ", ") (bs ","))))
                    else if EqualCaseInsensitive (AttrVal (tokAt (tb s1) name)) (bs "viewport")
                    then setTb s1 (update (tb s1) ic
                                     (fun t => setAttrVal t (Replace (AttrVal t) (bs " ") [])))
                    else s1
                | None => s1
                end) = defaultScriptType s1
             /\ defaultStyleType
               (match nm with
                | Some name =>
                    if EqualCaseInsensitive (AttrVal (tokAt (tb s1) name)) (bs "keywords")
                    then setTb s1 (update (tb s1) ic
                                     (fun t => setAttrVal t
                                                 (Replace (AttrVal t) (bs ", ") (bs ","))))
                    else if EqualCaseInsensitive (AttrVal (tokAt (tb s1) name)) (bs "viewport")
                    then setTb s1 (update (tb s1) ic
                                     (fun t => setAttrVal t (Replace (AttrVal t) (bs " ") [])))
                    else s1
                | None => s1
                end) = defaultStyleType s1
             /\ defaultInlineStyleType
               (match nm with
                | Some name =>
                    if EqualCaseInsensitive (AttrVal (tokAt (tb s1) name)) (bs "keywords")
                    then setTb s1 (update (tb s1) ic
                                     (fun t => setAttrVal t
                                                 (Replace (AttrVal t) (bs ", ") (bs ","))))
                    else if EqualCaseInsensitive (AttrVal (tokAt (tb s1) name)) (bs "viewport")
                    then setTb s1 (update (tb s1) ic
                                     (fun t => setAttrVal t (Replace (AttrVal t) (bs " ") [])))
                    else s1
                | None => s1
                end) = defaultInlineStyleType s1).
  { intros s1. destruct nm as [name|]; [|auto].
    destruct (EqualCaseInsensitive _ (bs "keywords")); [auto|].
    destruct (EqualCaseInsensitive _ (bs "viewport")); auto. }
  split.
  - intros Hs.
    rewrite (ECI_length_differs _ _ (bs "content-type") Hs) by (cbn; lia).
    rewrite (ECI_length_differs _ _ (bs "content-style-type") Hs) by (cbn; lia).
    rewrite Hs. rewrite andb_false_r. cbn [andb].
    destruct (Hname (setDefaultScriptType (setTb s0 l1) v)) as (R1 & R2 & R3).
    rewrite R1, R2, R3. auto.
  - intros Hs.
    rewrite (ECI_length_differs _ _ (bs "content-type") Hs) by (cbn; lia).
    rewrite Hs. rewrite andb_false_r. cbn [andb].
    destruct (Hname (setDefaultStyleType (setTb s0 l1) v)) as (R1 & R2 & R3).
    rewrite R1, R2, R3. auto.
Qed.

(** X15: On a clean index array, a meta tag with http-equiv
    content-script-type sets the default script type to its normalized
    content and leaves the style defaults; with http-equiv content-style-type
    it sets the default style type to its normalized content and the default
    inline style type to that followed by ;inline=1, and leaves the script
    default. *)
Theorem X15_rewriteMeta_default_types (E : Env) (s : State) (attrs rest : list Token)
    (ic ih : nat) (c h : Token) :
  tb s = attrs ++ rest ->
  Forall (fun a => TokenType a = html.AttributeToken) attrs ->
  TokenType (Peek rest 0) <> html.AttributeToken ->
  Forall (fun i => i = 0) (attrIntBuffer s) ->
  lastIndex html.Content attrs = Some ic -> attrs !! ic = Some c ->
  lastIndex html.Http_Equiv attrs = Some ih -> attrs !! ih = Some h ->
  let v := NormalizeContentType E (unwrapAttrVal (AttrVal c)) in
  (EqualCaseInsensitive (unwrapAttrVal (AttrVal h)) (bs "content-script-type") = true ->
   defaultScriptType (rewriteMeta E s) = v
   /\ defaultStyleType (rewriteMeta E s) = defaultStyleType s
   /\ defaultInlineStyleType (rewriteMeta E s) = defaultInlineStyleType s)
  /\ (EqualCaseInsensitive (unwrapAttrVal (AttrVal h)) (bs "content-style-type") = true ->
      defaultStyleType (rewriteMeta E s) = v
      /\ defaultInlineStyleType (rewriteMeta E s) = v ++ bs ";inline=1"
      /\ defaultScriptType (rewriteMeta E s) = defaultScriptType s).
Proof.
  intros Htb Hattrs Hrest Hzero Hic Hc Hih Hh v.
  destruct (rewriteMeta_clean E s attrs rest Htb Hattrs Hrest Hzero)
    as (l & buf & -> & Hin & _).
  rewrite Hic, Hih.
  assert (Hne : ic <> ih) by (apply (lastIndex_distinct _ _ _ _ _ Hic Hih); discriminate).
  assert (Hlc : l !! ic = Some (unwrapToken c)).
  { apply (Hin ic html.Content c); cbn; auto. }
  assert (Hlh : l !! ih = Some (unwrapToken h)).
  { apply (Hin ih html.Http_Equiv h); cbn; auto. }
  exact (metaRules_defaults E (setAttrIntBuffer (setTb s l) buf) ic ih
           (lastIndex html.Charset attrs) (lastIndex html.Name attrs)
           (unwrapToken c) (unwrapToken h) Hne Hlc Hlh).
Qed.

Lemma X15_rewriteMeta_default_types_witness :
  defaultScriptType
    (rewriteMeta Sample.env
       (initial [Sample.attribute "http-equiv" html.Http_Equiv
                   (Sample.quoted "Content-Script-Type");
                 Sample.attribute "content" html.Content (Sample.quoted "Text/VBScript");
                 Sample.close]))
  = bs "text/vbscript".
Proof.
  apply (X15_rewriteMeta_default_types Sample.env
           (initial [Sample.attribute "http-equiv" html.Http_Equiv
                       (Sample.quoted "Content-Script-Type");
                     Sample.attribute "content" html.Content (Sample.quoted "Text/VBScript");
                     Sample.close])
           [Sample.attribute "http-equiv" html.Http_Equiv (Sample.quoted "Content-Script-Type");
            Sample.attribute "content" html.Content (Sample.quoted "Text/VBScript")]
           [Sample.close] 1 0
           (Sample.attribute "content" html.Content (Sample.quoted "Text/VBScript"))
           (Sample.attribute "http-equiv" html.Http_Equiv
              (Sample.quoted "Content-Script-Type"))).
  - reflexivity.
  - repeat constructor.
  - vm_compute. discriminate.
  - repeat constructor.
  - reflexivity.
  - reflexivity.
  - reflexivity.
  - reflexivity.
  - reflexivity.
Defined.

(** X16: On a clean index array, a meta tag without http-equiv whose (last)
    name attribute is keywords in any case has every comma-space of its
    content replaced by a comma; when the name is viewport every space of the
    content is removed; for any other name the content is only unwrapped. *)
Theorem X16_rewriteMeta_named_content (E : Env) (s : State) (attrs rest : list Token)
    (ic pn : nat) (c n : Token) :
  tb s = attrs ++ rest ->
  Forall (fun a => TokenType a = html.AttributeToken) attrs ->
  TokenType (Peek rest 0) <> html.AttributeToken ->
  Forall (fun i => i = 0) (attrIntBuffer s) ->
  lastIndex html.Content attrs = Some ic -> attrs !! ic = Some c ->
  lastIndex html.Name attrs = Some pn -> attrs !! pn = Some n ->
  lastIndex html.Http_Equiv attrs = None ->
  tb (rewriteMeta E s) !! ic
  = Some (setAttrVal c
            (if EqualCaseInsensitive (unwrapAttrVal (AttrVal n)) (bs "keywords")
             then Replace (unwrapAttrVal (AttrVal c)) (bs ", ") (bs ",")
             else if EqualCaseInsensitive (unwrapAttrVal (AttrVal n)) (bs "viewport")
             then Replace (unwrapAttrVal (AttrVal c)) (bs " ") []
             else unwrapAttrVal (AttrVal c))).
Proof.
  intros Htb Hattrs Hrest Hzero Hic Hc Hpn Hn Hnone.
  destruct (rewriteMeta_clean E s attrs rest Htb Hattrs Hrest Hzero)
    as (l & buf & -> & Hin & _).
  rewrite Hic, Hpn, Hnone.
  assert (Hlc : l !! ic = Some (unwrapToken c)).
  { apply (Hin ic html.Content c); cbn; auto. }
  assert (Hln : l !! pn = Some (unwrapToken n)).
  { apply (Hin pn html.Name n); cbn; auto 6. }
  unfold metaRules. cbn [slot lookup list_lookup tb setTb setAttrIntBuffer].
  rewrite (tokAt_lookup _ _ _ Hln).
  change (AttrVal (unwrapToken n)) with (unwrapAttrVal (AttrVal n)).
  destruct (EqualCaseInsensitive (unwrapAttrVal (AttrVal n)) (bs "keywords")).
  - cbn [tb setTb]. rewrite update_lookup, decide_True, Hlc by reflexivity. reflexivity.
  - destruct (EqualCaseInsensitive (unwrapAttrVal (AttrVal n)) (bs "viewport")).
    + cbn [tb setTb]. rewrite update_lookup, decide_True, Hlc by reflexivity. reflexivity.
    + cbn [tb setTb setAttrIntBuffer]. rewrite Hlc. reflexivity.
Qed.

Lemma X16_rewriteMeta_named_content_witness :
  tb (rewriteMeta Sample.env
        (initial [Sample.attribute "name" html.Name (bs "Keywords");
                  Sample.attribute "content" html.Content (Sample.quoted "a, b, c");
                  Sample.close])) !! 1
  = Some (setAttrVal (Sample.attribute "content" html.Content (Sample.quoted "a, b, c"))
            (if EqualCaseInsensitive (unwrapAttrVal (bs "Keywords")) (bs "keywords")
             then Replace (unwrapAttrVal (Sample.quoted "a, b, c")) (bs ", ") (bs ",")
             else if EqualCaseInsensitive (unwrapAttrVal (bs "Keywords")) (bs "viewport")
             then Replace (unwrapAttrVal (Sample.quoted "a, b, c")) (bs " ") []
             else unwrapAttrVal (Sample.quoted "a, b, c"))).
Proof.
  apply (X16_rewriteMeta_named_content Sample.env
           (initial [Sample.attribute "name" html.Name (bs "Keywords");
                     Sample.attribute "content" html.Content (Sample.quoted "a, b, c");
                     Sample.close])
           [Sample.attribute "name" html.Name (bs "Keywords");
            Sample.attribute "content" html.Content (Sample.quoted "a, b, c")]
           [Sample.close] 1 0
           (Sample.attribute "content" html.Content (Sample.quoted "a, b, c"))
           (Sample.attribute "name" html.Name (bs "Keywords"))).
  - reflexivity.
  - repeat constructor.
  - vm_compute. discriminate.
  - repeat constructor.
  - reflexivity.
  - reflexivity.
  - reflexivity.
  - reflexivity.
  - reflexivity.
Defined.

(** ** The loop of Minify *)

Lemma loop_more E n k s : loop E n s <> OutOfFuel -> loop E (n + k) s = loop E n s.
Proof.
  revert s. induction n as [|n IH]; intros s H; [contradiction H; reflexivity|].
  change (S n + k) with (S (n + k)). rewrite !loop_S in *.
  destruct (step E s) as [a s'| |]; try reflexivity.
  apply IH. exact H.
Qed.

(** X17: Every iteration of the loop that does not return takes at least
    one token from the buffer; so one iteration more than there are tokens is
    enough, more iterations change nothing, and [Minify] returns or panics. *)
Theorem X17_Minify_iterations (E : Env) :
  (forall s a s', step E s = Val a s' -> length (tb s') < length (tb s))
  /\ (forall tokens k,
        loop E (S (length tokens) + k) (initial tokens) = Minify E tokens)
  /\ (forall tokens,
        exists s, (exists e, Minify E tokens = Returned e s) \/ Minify E tokens = Panicked s).
Proof.
  split; [apply step_consumes|]. split.
  - intros tokens k. unfold Minify. apply loop_more.
    apply loop_enough. cbn. lia.
  - intros tokens. pose proof (Minify_returns E tokens) as H.
    destruct (Minify E tokens) as [e s|s|]; [eauto | eauto | contradiction].
Qed.

Lemma onlyWrites_ret {A} E (a : A) : onlyWrites E (ret a).
Proof. intros s e s'. discriminate. Qed.

Lemma onlyWrites_crash {A} E : onlyWrites E (fun s' => @Crash A s').
Proof. intros s e s'. discriminate. Qed.

Lemma onlyWrites_bind {A B} E (c : M A) (k : A -> M B) :
  onlyWrites E c -> (forall a, onlyWrites E (k a)) -> onlyWrites E (bind c k).
Proof.
  intros Hc Hk s e s'. unfold bind.
  destruct (c s) as [a s1|e1 s1|s1] eqn:Hcs.
  - apply Hk.
  - intros [= <- <-]. apply (Hc _ _ _ Hcs).
  - discriminate.
Qed.

Lemma onlyWrites_write E p : onlyWrites E (write E p).
Proof.
  intros s e s'. unfold write. destruct (wfail E (w s) p) as [x|] eqn:Hw; [|discriminate].
  intros [= <- <-]. exists x, p. auto.
Qed.

Lemma onlyWrites_if {A} E (c : bool) (x y : M A) :
  onlyWrites E x -> onlyWrites E y -> onlyWrites E (if c then x else y).
Proof. destruct c; auto. Qed.

Lemma onlyWrites_writeAttribute E t attr : onlyWrites E (writeAttribute E t attr).
Proof.
  intros s e s'. unfold writeAttribute.
  destruct ((length (unwrapAttrVal (AttrVal attr)) =? 0) && omitEmpty t attr);
    [discriminate|].
  set (val := if caseInsensitiveAttrMap E (Hash attr) then _ else _).
  set (s1 := if negb (heq (rawTag s) html.Zero) && heq (Hash attr) html.Type_
             then setRawTagMediatype s val else s).
  destruct (isDefaultValue t attr val); [discriminate|].
  clearbody s1. revert e s'.
  apply onlyWrites_bind; [apply onlyWrites_write|]. intros _.
  apply onlyWrites_bind; [apply onlyWrites_write|]. intros _.
  apply onlyWrites_if; [|apply onlyWrites_ret].
  apply onlyWrites_bind; [apply onlyWrites_write|]. intros _.
  destruct (escapeAttrVal _ _); [apply onlyWrites_write | apply onlyWrites_crash].
Qed.

Lemma onlyWrites_writeAttributes E t l : onlyWrites E (writeAttributes E t l).
Proof.
  induction l as [|attr l IH]; intros s e s'; cbn [writeAttributes]; [discriminate|].
  destruct (negb (teq (TokenType attr) html.AttributeToken)); [discriminate|].
  destruct (Data attr); [|apply IH].
  apply onlyWrites_bind; [apply onlyWrites_writeAttribute | intros _; exact IH].
Qed.

(** The errors of the minifier of a style or event attribute (lines 343 and
    351) end in [minifyAttr], which returns bytes: the tag case returns with
    the error of a write or not at all. *)
Lemma onlyWrites_tagCase E t : onlyWrites E (tagCase E t).
Proof.
  intros s e s'. unfold tagCase.
  set (h := teq (TokenType t) html.StartTagToken && _).
  destruct (tagFilter E t h (setRawTag s html.Zero)) as [broke s1].
  destruct broke; [discriminate|].
  revert e s'.
  apply onlyWrites_bind; [apply onlyWrites_write|]. intros _.
  apply onlyWrites_bind; [apply onlyWrites_write|]. intros _.
  apply onlyWrites_bind; [|intros _; apply onlyWrites_write].
  apply onlyWrites_if; [|apply onlyWrites_ret].
  intros s2 e s'. apply onlyWrites_writeAttributes.
Qed.

Lemma raw_five h :
  heq h html.Style || heq h html.Script || heq h html.Iframe || heq h html.Svg
  || heq h html.Math = true ->
  In h [html.Style; html.Script; html.Iframe; html.Svg; html.Math].
Proof.
  intros H. repeat (apply orb_prop in H as [H | H]);
    apply heq_true in H; subst h; cbn; auto 6.
Qed.

Lemma rawText_returns E d s e s' :
  rawText E d s = Ret e s' ->
  writerError E e s'
  \/ (In (rawTag s) [html.Style; html.Script; html.Iframe; html.Svg; html.Math]
      /\ exists x,
           e = Some x /\ x <> ErrNotExist
           /\ snd (m E (mediatypeOf s) (snd (rawContent (mediatypeOf s) d))) = Some x
           /\ w s' = w s ++ fst (rawContent (mediatypeOf s) d)
                         ++ fst (m E (mediatypeOf s) (snd (rawContent (mediatypeOf s) d)))).
Proof.
  unfold rawText.
  destruct (heq (rawTag s) html.Style || heq (rawTag s) html.Script
            || heq (rawTag s) html.Iframe || heq (rawTag s) html.Svg
            || heq (rawTag s) html.Math) eqn:Hfive;
    [|intros H; left; exact (onlyWrites_write E d _ _ _ H)].
  apply raw_five in Hfive. unfold rawContent.
  destruct (bytes_eqb (mediatypeOf s) (bs "text/html")
            && isCDATA (Trim d IsWhitespace)); cbn [fst snd].
  - unfold bind at 1 2. unfold write at 1.
    destruct (wfail E (w s) (bs "<![CDATA[")) as [x|] eqn:Hw.
    + intros [= <- <-]. left. exists x, (bs "<![CDATA["). auto.
    + unfold ret, callMinify, bind. cbn [w setW].
      destruct (snd (m E (mediatypeOf s) (drop 9 (Trim d IsWhitespace))))
        as [x|] eqn:Hm; [|discriminate].
      destruct (decide (x = ErrNotExist)) as [-> | Hne].
      * intros H. left. exact (onlyWrites_write E _ _ _ _ H).
      * intros [= <- <-]. right. split; [exact Hfive|].
        exists x. cbn [w setW]. rewrite <- app_assoc. auto.
  - unfold bind, ret, callMinify.
    destruct (snd (m E (mediatypeOf s) d)) as [x|] eqn:Hm; [|discriminate].
    destruct (decide (x = ErrNotExist)) as [-> | Hne].
    + intros H. left. exact (onlyWrites_write E _ _ _ _ H).
    + intros [= <- <-]. right. split; [exact Hfive|].
      exists x. cbn [w setW app]. auto.
Qed.

Lemma Shift_inv l0 t l :
  Shift l0 = (t, l) -> TokenType t <> html.ErrorToken -> l0 = t :: l.
Proof.
  destruct l0 as [|t0 l0']; cbn.
  - intros [= <- <-] H. contradiction H. reflexivity.
  - destruct (teq (TokenType t0) html.ErrorToken) eqn:Ht.
    + intros [= <- <-] H. apply teq_true in Ht. contradiction.
    + intros [= <- <-] _. reflexivity.
Qed.

(** The three ways in which one iteration makes [Minify] return. *)
Lemma step_returns E s e s' :
  step E s = Ret e s' ->
  tokenizerEnd E s e \/ writerError E e s' \/ rawMinifierError E s e s'.
Proof.
  unfold step. destruct (Shift (tb s)) as [t l] eqn:Hsh.
  destruct (TokenType t) eqn:HT.
  - intros [= <- <-]. left. unfold tokenizerEnd. rewrite Hsh. auto.
  - intros H. right. left. exact (onlyWrites_write E _ _ _ _ H).
  - intros H. right. left. exact (onlyWrites_write E _ _ _ _ H).
  - intros H. right. left. exact (onlyWrites_tagCase E _ _ _ _ H).
  - intros H. right. left. exact (onlyWrites_tagCase E _ _ _ _ H).
  - discriminate.
  - assert (Htb : tb s = t :: l).
    { apply Shift_inv; [exact Hsh | rewrite HT; discriminate]. }
    unfold textCase.
    destruct (negb (heq (rawTag (setTb s l)) html.Zero)).
    + intros H. apply rawText_returns in H as [H | (Hfive & x & He & Hne & Hm & Hw)].
      * right. left. exact H.
      * right. right. exists t, l, x. auto 10.
    + destruct (0 <? length (ReplaceMultiple (data t) IsWhitespace " "));
        [|discriminate].
      destruct (trimText E (precededBySpace (setTb s l)) (tb (setTb s l))
                  (ReplaceMultiple (data t) IsWhitespace " ")) as [d2 pbs].
      intros H. right. left. exact (onlyWrites_write E _ _ _ _ H).
  - discriminate.
  - discriminate.
Qed.

Lemma loop_returns E n s0 e s' :
  loop E n s0 = Returned e s' ->
  exists s, reaches E s0 s /\ step E s = Ret e s'.
Proof.
  revert s0. induction n as [|n IH]; intros s0; [discriminate|].
  rewrite loop_S. destruct (step E s0) as [[] s1|e1 s1|s1] eqn:Hs.
  - intros H. destruct (IH _ H) as (s & Hr & Hst).
    exists s. split; [exact (reaches_step E _ _ _ Hs Hr) | exact Hst].
  - intros [= <- <-]. exists s0. split; [apply reaches_here | exact Hs].
  - discriminate.
Qed.

(** X18: When [Minify] returns, the iteration that returns was reached by
    iterations that went on, and it returns in one of three places: at the
    error token, with nil for io.EOF and with the tokenizer's error
    otherwise (lines 45-51); at a write that failed, with the writer's error
    for a write behind the bytes written so far; or at line 102, for a text
    token inside an open script, style, iframe, svg or math element, with the
    error other than ErrNotExist that the minifier returned for the media
    type in force and the content behind the CDATA marker.  So nil is
    returned only after io.EOF, and the errors of the minifier of a style or
    event attribute are never returned. *)
Theorem X18_Minify_error_source (E : Env) (tokens : list Token) (e : option error)
    (s' : State) :
  Minify E tokens = Returned e s' ->
  exists s,
    reaches E (initial tokens) s
    /\ step E s = Ret e s'
    /\ (tokenizerEnd E s e \/ writerError E e s' \/ rawMinifierError E s e s')
    /\ (e = None -> zErr E = EOF).
Proof.
  unfold Minify. intros H.
  apply loop_returns in H as (s & Hr & Hst).
  exists s. split; [exact Hr|]. split; [exact Hst|].
  pose proof (step_returns E s e s' Hst) as Hsrc.
  split; [exact Hsrc|]. intros ->.
  destruct Hsrc as [[_ He] | [(x & p & He & _) | (t & rest & x & _ & _ & _ & He & _)]];
    try discriminate.
  destruct (decide (zErr E = EOF)) as [Hz | Hz]; [exact Hz | discriminate].
Qed.

Lemma X18_Minify_error_source_witness :
  let tokens :=
    [Sample.startTag "style" html.Style; Sample.close; Sample.text "a { }";
     Sample.endTag "style" html.Style] in
  let e := Some (ErrOther 1) in
  let s' :=
    mkState [Sample.endTag "style" html.Style] (bs "<style>x") html.Style [] true
      (bs "text/javascript") (bs "text/css") (bs "text/css;inline=1") [0; 0; 0; 0] in
  exists s,
    reaches failingRegistry (initial tokens) s
    /\ step failingRegistry s = Ret e s'
    /\ (tokenizerEnd failingRegistry s e \/ writerError failingRegistry e s'
        \/ rawMinifierError failingRegistry s e s')
    /\ (e = None -> zErr failingRegistry = EOF).
Proof.
  intros tokens e s'.
  apply (X18_Minify_error_source failingRegistry tokens e s').
  vm_compute. reflexivity.
Defined.

(** ** Text outside a raw tag *)

Lemma visible_ReplaceMultipleFrom prev d :
  visible (ReplaceMultipleFrom prev d IsWhitespace " ") = visible d.
Proof.
  revert prev. induction d as [|c d IH]; intros prev; [reflexivity|].
  cbn [ReplaceMultipleFrom]. unfold visible in *. cbn [List.filter].
  destruct (IsWhitespace c) eqn:Hc; cbn [negb].
  - destruct prev; [apply IH|]. cbn [List.filter]. rewrite IsWhitespace_space. cbn [negb].
    apply IH.
  - cbn [List.filter]. rewrite Hc. cbn [negb]. f_equal. apply IH.
Qed.

Lemma visible_drop_space d : isAt d 0 " " = true -> visible (drop 1 d) = visible d.
Proof.
  destruct d as [|c d]; [discriminate|]. cbn. intros H. apply beq_true in H. subst c.
  reflexivity.
Qed.

Lemma visible_app a b : visible (a ++ b) = visible a ++ visible b.
Proof. unfold visible. apply List.filter_app. Qed.

Lemma visible_take_space d :
  isAt d (length d - 1) " " = true -> visible (take (length d - 1) d) = visible d.
Proof.
  intros H. apply isAt_Some in H.
  rewrite <- (take_drop (length d - 1) d) at 3.
  rewrite visible_app.
  rewrite (drop_S d " "%byte (length d - 1) H).
  rewrite drop_ge by (apply lookup_lt_Some in H; lia).
  cbn. rewrite app_nil_r. reflexivity.
Qed.

Lemma collapsed_drop1 prev d : collapsed prev d -> collapsed false (drop 1 d).
Proof.
  destruct d as [|c d]; [intros; exact I|]. cbn [drop collapsed].
  destruct (IsWhitespace c).
  - intros (_ & _ & H). apply (collapsed_any true). exact H.
  - intros H. exact H.
Qed.

Lemma collapsed_space_tail d :
  collapsed false d -> isAt d 0 " " = true -> isAt (drop 1 d) 0 " " = false.
Proof.
  destruct d as [|c d]; [discriminate|]. cbn [collapsed drop]. intros H Hc.
  cbn in Hc. apply beq_true in Hc. subst c. rewrite IsWhitespace_space in H.
  destruct H as (_ & _ & H). apply collapsed_true_head. exact H.
Qed.

Lemma isAt_take_head n (d : bytes) : isAt d 0 " " = false -> isAt (take n d) 0 " " = false.
Proof.
  destruct n as [|n]; [reflexivity|]. destruct d; [reflexivity|]. intros H. exact H.
Qed.

(** What [trimText] leaves of collapsed data. *)
Lemma trimText_spec E pbs l d :
  collapsed false d ->
  visible (fst (trimText E pbs l d)) = visible d
  /\ collapsed false (fst (trimText E pbs l d))
  /\ (pbs = true -> isAt (fst (trimText E pbs l d)) 0 " " = false).
Proof.
  intros Hd. unfold trimText.
  set (d1 := if pbs && isAt d 0 " " then drop 1 d else d).
  assert (Hv : visible d1 = visible d).
  { subst d1. destruct (pbs && isAt d 0 " ") eqn:H; [|reflexivity].
    apply andb_prop in H as [_ H]. apply visible_drop_space. exact H. }
  assert (Hc : collapsed false d1).
  { subst d1. destruct (pbs && isAt d 0 " "); [|exact Hd].
    apply (collapsed_drop1 false). exact Hd. }
  assert (Hh : pbs = true -> isAt d1 0 " " = false).
  { intros ->. subst d1. cbn [andb]. destruct (isAt d 0 " ") eqn:H; [|exact H].
    apply collapsed_space_tail; assumption. }
  clearbody d1.
  destruct (length d1 =? 0); cbn [fst]; [auto|].
  destruct (isAt d1 (length d1 - 1) " ") eqn:Hlast; cbn [fst]; [|auto].
  destruct (trimScan E l); cbn [fst]; [|auto].
  split; [rewrite visible_take_space; assumption|].
  split; [apply collapsed_take; exact Hc|].
  intros Hp. apply isAt_take_head. auto.
Qed.

(** X19: For a text token outside a raw tag and a writer that does not fail,
    one iteration consumes the token and appends bytes that hold the
    non-whitespace bytes of the token in the same order, whose only
    whitespace bytes are single spaces, and that do not begin with a space
    when [precededBySpace] was set. *)
Theorem X19_text_keeps_visible_bytes (E : Env) (s : State) (t : Token) (rest : list Token) :
  tb s = t :: rest ->
  TokenType t = html.TextToken ->
  rawTag s = html.Zero ->
  (forall written p, wfail E written p = None) ->
  exists out s',
    step E s = Val tt s'
    /\ w s' = w s ++ out
    /\ tb s' = rest
    /\ visible out = visible (data t)
    /\ collapsed false out
    /\ (precededBySpace s = true -> isAt out 0 " " = false).
Proof.
  intros Htb HT Hraw Hw.
  destruct (ReplaceMultiple (data t) IsWhitespace " ") as [|c d1] eqn:Hd.
  - exists [], (setTb s rest).
    unfold step. rewrite Htb, Shift_cons by (rewrite HT; discriminate).
    rewrite HT. unfold textCase. cbn [rawTag setTb]. rewrite Hraw.
    change (negb (heq html.Zero html.Zero)) with false. cbn iota.
    rewrite Hd. cbn [length]. change (0 <? 0) with false. cbn iota.
    split; [reflexivity|]. cbn [w tb setTb]. rewrite app_nil_r.
    split; [reflexivity|]. split; [reflexivity|].
    split; [|split; [exact I | reflexivity]].
    rewrite <- (visible_ReplaceMultipleFrom false (data t)).
    unfold ReplaceMultiple in Hd. rewrite Hd. reflexivity.
  - assert (Hne : ReplaceMultiple (data t) IsWhitespace " " <> [])
      by (rewrite Hd; discriminate).
    pose proof (step_text E s t rest Htb HT Hraw Hne) as Hstep.
    destruct (trimText_spec E (precededBySpace s) rest
                (ReplaceMultiple (data t) IsWhitespace " ")
                (ReplaceMultipleFrom_is_collapsed (data t) false)) as (H1 & H2 & H3).
    set (r := trimText E (precededBySpace s) rest
                (ReplaceMultiple (data t) IsWhitespace " ")) in *.
    exists (fst r), (setW (setPrecededBySpace (setTb s rest) (snd r)) (w s ++ fst r)).
    split.
    { rewrite Hstep. unfold write. cbn [w setPrecededBySpace setTb]. rewrite Hw.
      reflexivity. }
    cbn [w tb setW setPrecededBySpace setTb].
    split; [reflexivity|]. split; [reflexivity|].
    split; [|split; assumption].
    rewrite H1. apply (visible_ReplaceMultipleFrom false).
Qed.

Lemma X19_text_keeps_visible_bytes_witness :
  exists out s',
    step Sample.env (initial [Sample.text "  a   b  "; Sample.endTag "p" html.P])
    = Val tt s'
    /\ w s' = w (initial [Sample.text "  a   b  "; Sample.endTag "p" html.P]) ++ out
    /\ tb s' = [Sample.endTag "p" html.P]
    /\ visible out = visible (data (Sample.text "  a   b  "))
    /\ collapsed false out
    /\ (precededBySpace (initial [Sample.text "  a   b  "; Sample.endTag "p" html.P]) = true ->
        isAt out 0 " " = false).
Proof.
  apply (X19_text_keeps_visible_bytes Sample.env
           (initial [Sample.text "  a   b  "; Sample.endTag "p" html.P])
           (Sample.text "  a   b  ") [Sample.endTag "p" html.P]).
  - reflexivity.
  - reflexivity.
  - reflexivity.
  - reflexivity.
Defined.

(** ** Tags that are not written *)

Lemma step_tag E s t rest :
  tb s = t :: rest ->
  TokenType t = html.StartTagToken \/ TokenType t = html.EndTagToken ->
  step E s = tagCase E t (setTb s rest).
Proof.
  intros Htb HT. unfold step.
  rewrite Htb, Shift_cons by (destruct HT as [-> | ->]; discriminate).
  destruct HT as [-> | ->]; reflexivity.
Qed.

Lemma no_attributes t rest :
  TokenType t = html.StartTagToken \/ TokenType t = html.EndTagToken ->
  (TokenType t = html.StartTagToken ->
   TokenType (Peek rest 0) <> html.AttributeToken) ->
  teq (TokenType t) html.StartTagToken
  && teq (TokenType (Peek rest 0)) html.AttributeToken = false.
Proof.
  intros [H | H] Hattr.
  - rewrite (proj2 (teq_false _ _) (Hattr H)). apply andb_false_r.
  - rewrite H. reflexivity.
Qed.

(** X20: A start or end tag html, head, body or colgroup that is not inline
    and has no attribute is consumed without anything being written, and
    [precededBySpace] is set. *)
Theorem X20_structural_tags_dropped (E : Env) (s : State) (t : Token) (rest : list Token) :
  tb s = t :: rest ->
  TokenType t = html.StartTagToken \/ TokenType t = html.EndTagToken ->
  In (Hash t) [html.Html; html.Head; html.Body; html.Colgroup] ->
  inlineTagMap E (Hash t) = false ->
  (TokenType t = html.StartTagToken ->
   TokenType (Peek rest 0) <> html.AttributeToken) ->
  exists s',
    step E s = Val tt s'
    /\ w s' = w s
    /\ tb s' = rest
    /\ precededBySpace s' = true.
Proof.
  intros Htb HT Hh Hinl Hattr.
  rewrite (step_tag E s t rest Htb HT). unfold tagCase.
  cbn [tb setTb setRawTag].
  rewrite (no_attributes t rest HT Hattr).
  unfold tagFilter. rewrite Hinl. cbn [negb].
  assert (Hss : heq (Hash t) html.Script || heq (Hash t) html.Style = false).
  { cbn in Hh. destruct Hh as [<- | [<- | [<- | [<- | []]]]]; reflexivity. }
  assert (Hst : heq (Hash t) html.Html || heq (Hash t) html.Head
                || heq (Hash t) html.Body || heq (Hash t) html.Colgroup = true).
  { cbn in Hh. destruct Hh as [<- | [<- | [<- | [<- | []]]]]; reflexivity. }
  rewrite Hss, Hst. rewrite !andb_false_r. cbn [negb andb].
  destruct (teq (TokenType t) html.StartTagToken && rawTagMap E (Hash t));
    eexists; (split; [reflexivity|]); cbn; auto.
Qed.

Lemma X20_structural_tags_dropped_witness :
  exists s',
    step Sample.env (initial [Sample.startTag "body" html.Body; Sample.close; Sample.text "x"])
    = Val tt s'
    /\ w s' = w (initial [Sample.startTag "body" html.Body; Sample.close; Sample.text "x"])
    /\ tb s' = [Sample.close; Sample.text "x"]
    /\ precededBySpace s' = true.
Proof.
  apply (X20_structural_tags_dropped Sample.env
           (initial [Sample.startTag "body" html.Body; Sample.close; Sample.text "x"])
           (Sample.startTag "body" html.Body) [Sample.close; Sample.text "x"]).
  - reflexivity.
  - left. reflexivity.
  - cbn. auto.
  - reflexivity.
  - intros _. vm_compute. discriminate.
Defined.

(** X21: A non-inline end tag thead, tbody, tfoot, tr, th, td, optgroup,
    option, dd, dt, li, rb, rt, rtc or rp is consumed without anything being
    written; raw-text mode ends and [precededBySpace] is set. *)
Theorem X21_inferable_end_tags_dropped (E : Env) (s : State) (t : Token) (rest : list Token) :
  tb s = t :: rest ->
  TokenType t = html.EndTagToken ->
  In (Hash t) [html.Thead; html.Tbody; html.Tfoot; html.Tr; html.Th; html.Td;
               html.Optgroup; html.Option; html.Dd; html.Dt; html.Li; html.Rb;
               html.Rt; html.Rtc; html.Rp] ->
  inlineTagMap E (Hash t) = false ->
  step E s
  = Val tt (mkState rest (w s) html.Zero (rawTagMediatype s) true
              (defaultScriptType s) (defaultStyleType s) (defaultInlineStyleType s)
              (attrIntBuffer s)).
Proof.
  intros Htb HT Hh Hinl.
  rewrite (step_tag E s t rest Htb (or_intror HT)). unfold tagCase.
  rewrite HT. change (teq html.EndTagToken html.StartTagToken) with false.
  cbn [andb]. unfold tagFilter. rewrite Hinl, HT. cbn [negb].
  change (teq html.EndTagToken html.StartTagToken) with false.
  change (teq html.EndTagToken html.EndTagToken) with true.
  cbn [andb negb].
  assert (Hst : heq (Hash t) html.Html || heq (Hash t) html.Head
                || heq (Hash t) html.Body || heq (Hash t) html.Colgroup = false).
  { cbn in Hh.
    repeat (destruct Hh as [<- | Hh]; [reflexivity|]). destruct Hh. }
  assert (Hinf : inferableEndTag (Hash t) = true).
  { cbn in Hh.
    repeat (destruct Hh as [<- | Hh]; [reflexivity|]). destruct Hh. }
  rewrite Hst, Hinf. reflexivity.
Qed.

Lemma X21_inferable_end_tags_dropped_witness :
  step Sample.env
    (mkState [Sample.endTag "li" html.Li; Sample.text "x"] (bs "<li>a") html.Zero [] false
       (bs "text/javascript") (bs "text/css") (bs "text/css;inline=1") [0; 0; 0; 0])
  = Val tt (mkState [Sample.text "x"] (bs "<li>a") html.Zero [] true
              (bs "text/javascript") (bs "text/css") (bs "text/css;inline=1") [0; 0; 0; 0]).
Proof.
  apply (X21_inferable_end_tags_dropped Sample.env
           (mkState [Sample.endTag "li" html.Li; Sample.text "x"] (bs "<li>a") html.Zero []
              false (bs "text/javascript") (bs "text/css") (bs "text/css;inline=1")
              [0; 0; 0; 0])
           (Sample.endTag "li" html.Li) [Sample.text "x"]).
  - reflexivity.
  - reflexivity.
  - cbn. auto 12.
  - reflexivity.
Defined.

(** X22: An inline tag without attributes is always written, as [<name>] or
    [</name>]; it ends raw-text mode and leaves [precededBySpace] as it
    was. *)
Theorem X22_inline_tags_written (E : Env) (s : State) (t : Token) (rest : list Token) :
  tb s = t :: rest ->
  TokenType t = html.StartTagToken \/ TokenType t = html.EndTagToken ->
  inlineTagMap E (Hash t) = true ->
  (TokenType t = html.StartTagToken ->
   TokenType (Peek rest 0) <> html.AttributeToken) ->
  (forall written p, wfail E written p = None) ->
  step E s
  = Val tt (mkState rest
              (w s ++ (if teq (TokenType t) html.EndTagToken then bs "</" else bs "<")
                   ++ data t ++ bs ">")
              html.Zero (rawTagMediatype s) (precededBySpace s)
              (defaultScriptType s) (defaultStyleType s) (defaultInlineStyleType s)
              (attrIntBuffer s)).
Proof.
  intros Htb HT Hinl Hattr Hw.
  rewrite (step_tag E s t rest Htb HT). unfold tagCase.
  cbn [tb setTb setRawTag].
  rewrite (no_attributes t rest HT Hattr).
  unfold tagFilter. rewrite Hinl. cbn [negb].
  unfold bind, write, ret. repeat (cbn [w setW]; rewrite Hw).
  unfold setW. cbn. rewrite <- !app_assoc. reflexivity.
Qed.

Lemma X22_inline_tags_written_witness :
  step Sample.env (initial [Sample.endTag "span" html.Span])
  = Val tt (mkState []
              (w (initial [Sample.endTag "span" html.Span])
                 ++ (if teq (TokenType (Sample.endTag "span" html.Span)) html.EndTagToken
                     then bs "</" else bs "<")
                 ++ data (Sample.endTag "span" html.Span) ++ bs ">")
              html.Zero [] true
              (bs "text/javascript") (bs "text/css") (bs "text/css;inline=1") [0; 0; 0; 0]).
Proof.
  apply (X22_inline_tags_written Sample.env (initial [Sample.endTag "span" html.Span])
           (Sample.endTag "span" html.Span) []).
  - reflexivity.
  - right. reflexivity.
  - reflexivity.
  - intros H. discriminate H.
  - reflexivity.
Defined.

(** ** The end tag of a paragraph *)

Lemma removeP_skip E ws l :
  Forall (fun x => TokenType x = html.TextToken /\ IsAllWhitespace (data x) = true) ws ->
  removeP E (ws ++ l) = removeP E l.
Proof.
  induction 1 as [|x ws [HT Hws] _ IH]; [reflexivity|].
  cbn [app removeP]. rewrite HT, Hws. exact IH.
Qed.

(** X23: The end tag of a non-inline p, followed by text tokens that are
    empty or all whitespace and then by the token [next], is dropped exactly
    when [next] is the end of the stream, an end tag other than that of a, or
    the start tag of a block element; otherwise [</p>] is written.  In both
    cases only the end tag is consumed. *)
Theorem X23_p_end_tag (E : Env) (s : State) (t : Token) (ws l : list Token) :
  tb s = t :: ws ++ l ->
  TokenType t = html.EndTagToken ->
  Hash t = html.P ->
  inlineTagMap E html.P = false ->
  Forall (fun x => TokenType x = html.TextToken /\ IsAllWhitespace (data x) = true) ws ->
  match l with
  | next :: _ =>
      ~ (TokenType next = html.TextToken /\ IsAllWhitespace (data next) = true)
  | [] => True
  end ->
  (forall written p, wfail E written p = None) ->
  let dropped :=
    match l with
    | [] => true
    | next :: _ =>
        teq (TokenType next) html.ErrorToken
        || teq (TokenType next) html.EndTagToken && negb (heq (Hash next) html.A)
        || teq (TokenType next) html.StartTagToken && blockTagMap E (Hash next)
    end in
  step E s
  = Val tt (mkState (ws ++ l)
              (w s ++ if dropped then [] else bs "</" ++ data t ++ bs ">")
              html.Zero (rawTagMediatype s) true
              (defaultScriptType s) (defaultStyleType s) (defaultInlineStyleType s)
              (attrIntBuffer s)).
Proof.
  intros Htb HT Hh Hinl Hws Hnext Hw dropped.
  rewrite (step_tag E s t (ws ++ l) Htb (or_intror HT)). unfold tagCase.
  rewrite HT. change (teq html.EndTagToken html.StartTagToken) with false.
  cbn [andb]. unfold tagFilter. rewrite HT, Hh, Hinl.
  change (teq html.EndTagToken html.StartTagToken) with false. cbn [negb andb].
  change (heq html.P html.Html || heq html.P html.Head || heq html.P html.Body
          || heq html.P html.Colgroup) with false.
  change (teq html.EndTagToken html.EndTagToken) with true.
  change (inferableEndTag html.P) with false.
  change (heq html.P html.P) with true. cbn [andb negb].
  cbn [tb setTb setRawTag setPrecededBySpace].
  rewrite (removeP_skip E ws l Hws).
  assert (Hr : removeP E l = dropped).
  { subst dropped. destruct l as [|next l']; [reflexivity|]. cbn [removeP].
    destruct (teq (TokenType next) html.TextToken && IsAllWhitespace (data next)) eqn:Hc;
      [|reflexivity].
    exfalso. apply Hnext. apply andb_prop in Hc as [H1 H2].
    apply teq_true in H1. auto. }
  rewrite Hr. destruct dropped.
  - rewrite app_nil_r. reflexivity.
  - unfold bind, write, ret. repeat (cbn [w setW]; rewrite Hw).
    unfold setW. cbn. rewrite <- !app_assoc. reflexivity.
Qed.

Lemma X23_p_end_tag_witness :
  step Sample.env
    (mkState (Sample.endTag "p" html.P :: [Sample.text " "] ++ [Sample.startTag "p" html.P])
       (bs "<p>a") html.Zero [] false
       (bs "text/javascript") (bs "text/css") (bs "text/css;inline=1") [0; 0; 0; 0])
  = Val tt (mkState ([Sample.text " "] ++ [Sample.startTag "p" html.P])
              (bs "<p>a" ++
               if teq (TokenType (Sample.startTag "p" html.P)) html.ErrorToken
                  || teq (TokenType (Sample.startTag "p" html.P)) html.EndTagToken
                     && negb (heq (Hash (Sample.startTag "p" html.P)) html.A)
                  || teq (TokenType (Sample.startTag "p" html.P)) html.StartTagToken
                     && blockTagMap Sample.env (Hash (Sample.startTag "p" html.P))
               then [] else bs "</" ++ data (Sample.endTag "p" html.P) ++ bs ">")
              html.Zero [] true
              (bs "text/javascript") (bs "text/css") (bs "text/css;inline=1") [0; 0; 0; 0]).
Proof.
  apply (X23_p_end_tag Sample.env
           (mkState (Sample.endTag "p" html.P :: [Sample.text " "] ++ [Sample.startTag "p" html.P])
              (bs "<p>a") html.Zero [] false
              (bs "text/javascript") (bs "text/css") (bs "text/css;inline=1") [0; 0; 0; 0])
           (Sample.endTag "p" html.P) [Sample.text " "] [Sample.startTag "p" html.P]).
  - reflexivity.
  - reflexivity.
  - reflexivity.
  - reflexivity.
  - repeat constructor.
  - intros [H _]. discriminate H.
  - reflexivity.
Defined.

(** ** Text of the other raw tags *)

(** X24: Text inside a raw tag other than style, script, iframe, svg and
    math is written byte for byte; nothing else of the state changes. *)
Theorem X24_raw_text_verbatim (E : Env) (s : State) (t : Token) (rest : list Token) :
  tb s = t :: rest ->
  TokenType t = html.TextToken ->
  rawTag s <> html.Zero ->
  ~ In (rawTag s) [html.Style; html.Script; html.Iframe; html.Svg; html.Math] ->
  wfail E (w s) (data t) = None ->
  step E s = Val tt (setW (setTb s rest) (w s ++ data t)).
Proof.
  intros Htb HT Hraw Hnot Hw.
  unfold step. rewrite Htb, Shift_cons by (rewrite HT; discriminate).
  rewrite HT. unfold textCase. cbn [rawTag setTb].
  rewrite (proj2 (heq_false _ _) Hraw). cbn [negb].
  unfold rawText. cbn [rawTag setTb].
  assert (Hfive : heq (rawTag s) html.Style || heq (rawTag s) html.Script
                  || heq (rawTag s) html.Iframe || heq (rawTag s) html.Svg
                  || heq (rawTag s) html.Math = false).
  { cbn in Hnot.
    rewrite !orb_false_iff. repeat split; apply heq_false; intros H; apply Hnot; auto 6. }
  rewrite Hfive. unfold write. cbn [w setTb]. rewrite Hw. reflexivity.
Qed.

Lemma X24_raw_text_verbatim_witness :
  step Sample.env
    (mkState [Sample.text "  a   b "] (bs "<pre>") (html.Other 1) [] true
       (bs "text/javascript") (bs "text/css") (bs "text/css;inline=1") [0; 0; 0; 0])
  = Val tt
      (setW (setTb (mkState [Sample.text "  a   b "] (bs "<pre>") (html.Other 1) [] true
                      (bs "text/javascript") (bs "text/css") (bs "text/css;inline=1")
                      [0; 0; 0; 0]) [])
         (bs "<pre>" ++ data (Sample.text "  a   b "))).
Proof.
  apply (X24_raw_text_verbatim Sample.env
           (mkState [Sample.text "  a   b "] (bs "<pre>") (html.Other 1) [] true
              (bs "text/javascript") (bs "text/css") (bs "text/css;inline=1") [0; 0; 0; 0])
           (Sample.text "  a   b ") []).
  - reflexivity.
  - reflexivity.
  - discriminate.
  - cbn. intuition discriminate.
  - reflexivity.
Defined.

(** ** The attribute loop *)

Lemma extends_refl s : extends s s.
Proof. repeat split. exists []. rewrite app_nil_r. reflexivity. Qed.

Lemma extends_trans s1 s2 s3 : extends s1 s2 -> extends s2 s3 -> extends s1 s3.
Proof.
  intros (A1 & A2 & A3 & A4 & A5 & A6 & o1 & A7) (B1 & B2 & B3 & B4 & B5 & B6 & o2 & B7).
  repeat split; try congruence.
  exists (o1 ++ o2). rewrite B7, A7, app_assoc. reflexivity.
Qed.

Lemma frames_ret {A} (a : A) : frames (ret a).
Proof. intros s a' s' [= _ <-]. split; [apply extends_refl | reflexivity]. Qed.

Lemma frames_crash {A} : frames (fun s' => @Crash A s').
Proof. intros s a s'. discriminate. Qed.

Lemma frames_bind {A B} (c : M A) (k : A -> M B) :
  frames c -> (forall a, frames (k a)) -> frames (bind c k).
Proof.
  intros Hc Hk s b s'. unfold bind.
  destruct (c s) as [a s1| |] eqn:Hcs; try discriminate.
  intros H. apply Hc in Hcs as [H1 H2]. apply Hk in H as [H3 H4].
  split; [apply (extends_trans _ _ _ H1 H3) | congruence].
Qed.

Lemma frames_write E p : frames (write E p).
Proof.
  intros s a s'. unfold write. destruct (wfail E (w s) p); [discriminate|].
  intros [= _ <-]. split; [|reflexivity]. repeat split. exists p. reflexivity.
Qed.

Lemma frames_if {A} (c : bool) (x y : M A) :
  frames x -> frames y -> frames (if c then x else y).
Proof. destruct c; auto. Qed.

Lemma frames_writeAttribute E t attr : frames (writeAttribute E t attr).
Proof.
  intros s a s'. unfold writeAttribute.
  destruct ((length (unwrapAttrVal (AttrVal attr)) =? 0) && omitEmpty t attr);
    [intros [= _ <-]; split; [apply extends_refl | reflexivity]|].
  set (val := if caseInsensitiveAttrMap E (Hash attr) then _ else _).
  set (s1 := if negb (heq (rawTag s) html.Zero) && heq (Hash attr) html.Type_
             then setRawTagMediatype s val else s).
  assert (Hs1 : extends s s1 /\ tb s1 = tb s).
  { subst s1. destruct (_ && _); (split; [|reflexivity]).
    - repeat split. exists []. cbn. rewrite app_nil_r. reflexivity.
    - apply extends_refl. }
  destruct Hs1 as [He Ht].
  destruct (isDefaultValue t attr val); [intros [= _ <-]; auto|].
  intros H.
  enough (extends s1 s' /\ tb s' = tb s1) as [H1 H2]
    by (split; [apply (extends_trans _ _ _ He H1) | congruence]).
  clearbody s1. revert a s' H.
  apply frames_bind; [apply frames_write|]. intros _.
  apply frames_bind; [apply frames_write|]. intros _.
  apply frames_if; [|apply frames_ret].
  apply frames_bind; [apply frames_write|]. intros _.
  destruct (escapeAttrVal _ _); [apply frames_write | apply frames_crash].
Qed.

Lemma writeAttributes_run E t close rest attrs :
  Forall (fun x => TokenType x = html.AttributeToken) attrs ->
  TokenType close <> html.AttributeToken ->
  forall s a s',
    writeAttributes E t (attrs ++ close :: rest) s = Val a s' ->
    extends s s'
    /\ tb s' = (if teq (TokenType close) html.ErrorToken then close :: rest else rest).
Proof.
  intros Hattrs Hclose. induction Hattrs as [|x attrs Hx _ IH]; intros s a s'.
  - cbn [app writeAttributes].
    rewrite (proj2 (teq_false _ _) Hclose). cbn [negb].
    intros [= _ <-]. split; [repeat split; exists []; cbn; rewrite app_nil_r; reflexivity|].
    cbn [tb setTb Shift]. destruct (teq (TokenType close) html.ErrorToken); reflexivity.
  - cbn [app writeAttributes]. rewrite (proj2 (teq_true _ _) Hx). cbn [negb].
    destruct (Data x); [|apply IH].
    unfold bind. destruct (writeAttribute E t x s) as [u s1| |] eqn:Hw; try discriminate.
    intros H. apply frames_writeAttribute in Hw as [H1 _].
    apply IH in H as [H2 H3]. split; [apply (extends_trans _ _ _ H1 H2) | exact H3].
Qed.

(** X25: When the attribute loop completes on a run of attribute tokens
    followed by another token, it has consumed the run and that token (an
    error token stays in the buffer), it has only appended to the output, and
    [rawTag] and [precededBySpace] are as before. *)
Theorem X25_attribute_loop_consumes (E : Env) (t close : Token) (attrs rest : list Token)
    (s : State) :
  Forall (fun x => TokenType x = html.AttributeToken) attrs ->
  TokenType close <> html.AttributeToken ->
  match writeAttributes E t (attrs ++ close :: rest) s with
  | Val _ s' =>
      tb s' = (if teq (TokenType close) html.ErrorToken then close :: rest else rest)
      /\ rawTag s' = rawTag s
      /\ precededBySpace s' = precededBySpace s
      /\ exists out, w s' = w s ++ out
  | Ret _ _ | Crash _ => True
  end.
Proof.
  intros Hattrs Hclose.
  destruct (writeAttributes E t (attrs ++ close :: rest) s) as [a s'| |] eqn:H; [|exact I..].
  destruct (writeAttributes_run E t close rest attrs Hattrs Hclose s a s' H)
    as ((H1 & H2 & _ & _ & _ & _ & H3) & H4).
  auto.
Qed.

Lemma X25_attribute_loop_consumes_witness :
  match writeAttributes Sample.env (Sample.startTag "p" html.P)
          ([Sample.attribute "class" html.Class (bs "a");
            Sample.attribute "id" html.Id (Sample.quoted "")]
             ++ Sample.close :: [Sample.text "x"])
          (initial [])
  with
  | Val _ s' =>
      tb s' = (if teq (TokenType Sample.close) html.ErrorToken
               then Sample.close :: [Sample.text "x"] else [Sample.text "x"])
      /\ rawTag s' = rawTag (initial [])
      /\ precededBySpace s' = precededBySpace (initial [])
      /\ exists out, w s' = w (initial []) ++ out
  | Ret _ _ | Crash _ => True
  end.
Proof.
  apply (X25_attribute_loop_consumes Sample.env (Sample.startTag "p" html.P) Sample.close
           [Sample.attribute "class" html.Class (bs "a");
            Sample.attribute "id" html.Id (Sample.quoted "")]
           [Sample.text "x"] (initial [])).
  - repeat constructor.
  - discriminate.
Defined.

(** ** Raw-text mode *)

Lemma rawTag_rewriteAttributes E t s : rawTag (rewriteAttributes E t s) = rawTag s.
Proof.
  unfold rewriteAttributes, rewriteA, rewriteMeta, metaRules, rewriteScript.
  destruct (heq (Hash t) html.A); [|destruct (heq (Hash t) html.Meta);
                                    [|destruct (heq (Hash t) html.Script); [|reflexivity]]].
  - destruct (getAttributes _ _ _) as [[l buf] attr].
    repeat match goal with
           | |- context [match ?c with _ => _ end] => destruct c
           end; reflexivity.
  - destruct (getAttributes _ _ _) as [[l buf] attr].
    repeat match goal with
           | |- context [match ?c with _ => _ end] => destruct c
           end; reflexivity.
  - destruct (getAttributes _ _ _) as [[l buf] attr].
    repeat match goal with
           | |- context [match ?c with _ => _ end] => destruct c
           end; reflexivity.
Qed.

Lemma rawTag_write E p s a s' : write E p s = Val a s' -> rawTag s' = rawTag s.
Proof. intros H. apply frames_write in H as [(H & _) _]. exact H. Qed.

Lemma rawTag_writeAttributes E t l :
  forall s a s', writeAttributes E t l s = Val a s' -> rawTag s' = rawTag s.
Proof.
  induction l as [|x l IH]; intros s a s'; cbn [writeAttributes].
  - intros [= _ <-]. reflexivity.
  - destruct (negb (teq (TokenType x) html.AttributeToken)); [intros [= _ <-]; reflexivity|].
    destruct (Data x); [|apply IH].
    unfold bind. destruct (writeAttribute E t x s) as [u s1| |] eqn:Hw; try discriminate.
    intros H. apply frames_writeAttribute in Hw as [(Hw & _) _].
    apply IH in H. congruence.
Qed.

(** X26: After an iteration on a start or end tag that goes on to the next
    token, [rawTag] is 0 or the hash of the tag, and it is the hash only if
    the tag is a start tag that is not inline and is in the raw tag table. *)
Theorem X26_raw_mode_entry (E : Env) (s s' : State) (t : Token) (rest : list Token) (a : unit) :
  tb s = t :: rest ->
  TokenType t = html.StartTagToken \/ TokenType t = html.EndTagToken ->
  step E s = Val a s' ->
  rawTag s' = html.Zero
  \/ (rawTag s' = Hash t
      /\ TokenType t = html.StartTagToken
      /\ inlineTagMap E (Hash t) = false
      /\ rawTagMap E (Hash t) = true).
Proof.
  intros Htb HT. rewrite (step_tag E s t rest Htb HT). unfold tagCase.
  set (h := teq (TokenType t) html.StartTagToken && _).
  assert (Hf : rawTag (snd (tagFilter E t h (setRawTag (setTb s rest) html.Zero))) = html.Zero
               \/ (rawTag (snd (tagFilter E t h (setRawTag (setTb s rest) html.Zero))) = Hash t
                   /\ TokenType t = html.StartTagToken
                   /\ inlineTagMap E (Hash t) = false
                   /\ rawTagMap E (Hash t) = true)).
  { unfold tagFilter.
    destruct (inlineTagMap E (Hash t)) eqn:Hinl; cbn [negb]; [left; reflexivity|].
    destruct (teq (TokenType t) html.StartTagToken && rawTagMap E (Hash t)) eqn:Hraw.
    - apply andb_prop in Hraw as [H1 H2]. apply teq_true in H1.
      cbn [andb].
      destruct (negb h && (heq (Hash t) html.Script || heq (Hash t) html.Style)
                && teq (TokenType (Peek
                     (tb (setPrecededBySpace (setRawTag (setTb s rest) html.Zero) true)) 1))
                     html.EndTagToken); [left; reflexivity|].
      repeat match goal with
             | |- context [if ?c then _ else _] => destruct c
             end; right; auto.
    - cbn [andb].
      repeat match goal with
             | |- context [if ?c then _ else _] => destruct c
             end; left; reflexivity. }
  destruct (tagFilter E t h (setRawTag (setTb s rest) html.Zero)) as [broke s1].
  cbn [snd] in Hf.
  destruct broke; [intros [= _ <-]; exact Hf|].
  unfold bind.
  destruct (write E _ s1) as [u1 s2| |] eqn:H1; try discriminate.
  destruct (write E (data t) s2) as [u2 s3| |] eqn:H2; try discriminate.
  apply rawTag_write in H1, H2.
  destruct h.
  - destruct (writeAttributes E t _ _) as [u3 s4| |] eqn:H3; try discriminate.
    apply rawTag_writeAttributes in H3. rewrite rawTag_rewriteAttributes in H3.
    intros H4. apply rawTag_write in H4.
    replace (rawTag s') with (rawTag s1) by congruence. exact Hf.
  - unfold ret. intros H4. apply rawTag_write in H4.
    replace (rawTag s') with (rawTag s1) by congruence. exact Hf.
Qed.

Lemma X26_raw_mode_entry_witness :
  rawTag (mkState [] (bs "<style>") html.Style [] true
            (bs "text/javascript") (bs "text/css") (bs "text/css;inline=1") [0; 0; 0; 0])
  = html.Zero
  \/ (rawTag (mkState [] (bs "<style>") html.Style [] true
                (bs "text/javascript") (bs "text/css") (bs "text/css;inline=1") [0; 0; 0; 0])
      = Hash (Sample.startTag "style" html.Style)
      /\ TokenType (Sample.startTag "style" html.Style) = html.StartTagToken
      /\ inlineTagMap Sample.env (Hash (Sample.startTag "style" html.Style)) = false
      /\ rawTagMap Sample.env (Hash (Sample.startTag "style" html.Style)) = true).
Proof.
  apply (X26_raw_mode_entry Sample.env (initial [Sample.startTag "style" html.Style])
           (mkState [] (bs "<style>") html.Style [] true
              (bs "text/javascript") (bs "text/css") (bs "text/css;inline=1") [0; 0; 0; 0])
           (Sample.startTag "style" html.Style) [] tt).
  - reflexivity.
  - left. reflexivity.
  - vm_compute. reflexivity.
Defined.

(** ** Unwrapping a quoted value *)

(** X27: A value of at least two bytes that begins with a quote loses its
    first and its last byte, whatever the last byte is, and is trimmed of
    whitespace; a lone quote and a value that begins with another byte are
    left as they are. *)
Theorem X27_unwrapAttrVal_cases (q c : byte) (v : bytes) :
  q = dquote \/ q = squote ->
  unwrapAttrVal (q :: v ++ [c]) = Trim v IsWhitespace
  /\ unwrapAttrVal [q] = [q]
  /\ (forall x, x <> dquote -> x <> squote -> unwrapAttrVal (x :: v) = x :: v).
Proof.
  intros Hq. split; [|split].
  - unfold unwrapAttrVal.
    assert (Hlen : length (q :: v ++ [c]) = S (S (length v)))
      by (cbn; rewrite length_app; cbn; lia).
    rewrite Hlen. change (1 <? S (S (length v))) with true.
    assert (H0 : isAt (q :: v ++ [c]) 0 dquote || isAt (q :: v ++ [c]) 0 squote = true)
      by (destruct Hq as [-> | ->]; reflexivity).
    rewrite H0. cbn [andb].
    change (drop 1 (q :: v ++ [c])) with (v ++ [c]).
    replace (S (S (length v)) - 2) with (length v) by lia.
    rewrite take_app_length. reflexivity.
  - destruct Hq as [-> | ->]; reflexivity.
  - intros x H1 H2. unfold unwrapAttrVal.
    change (isAt (x :: v) 0 dquote) with (beq x dquote).
    change (isAt (x :: v) 0 squote) with (beq x squote).
    rewrite (proj2 (beq_false _ _) H1), (proj2 (beq_false _ _) H2).
    rewrite andb_false_r. reflexivity.
Qed.

Lemma X27_unwrapAttrVal_cases_witness :
  unwrapAttrVal (dquote :: bs " a b " ++ ["x"%byte]) = Trim (bs " a b ") IsWhitespace
  /\ unwrapAttrVal [dquote] = [dquote]
  /\ (forall x, x <> dquote -> x <> squote ->
      unwrapAttrVal (x :: bs " a b ") = x :: bs " a b ").
Proof.
  apply (X27_unwrapAttrVal_cases dquote "x" (bs " a b ")). left. reflexivity.
Defined.

(** ** The unquoted form *)

Lemma escapeSpec_quote_head q esc l :
  escapePair q esc -> escapeSpec q esc 0 (q :: l) = esc ++ escapeSpec q esc 0 l.
Proof.
  intros Hp. cbn [escapeSpec].
  assert (Ha : beq q "&" = false)
    by (destruct (escapePair_quote _ _ Hp) as [-> | ->]; reflexivity).
  rewrite Ha, beq_refl. reflexivity.
Qed.

Lemma escapeSpec_escaped_head q esc l :
  escapePair q esc -> escapeSpec q esc 0 (esc ++ l) = esc ++ escapeSpec q esc 0 l.
Proof.
  intros [(-> & ->) | (-> & ->)].
  - destruct (quote_entity_spellings 0 l) as (H & _).
    change (escapedDoubleQuoteBytes ++ l)
      with ("&"%byte :: "#"%byte :: "3"%byte :: "4"%byte :: ";"%byte :: l).
    cbn [escapeSpec]. change (beq "&" "&") with true. cbv iota.
    change ("&"%byte :: "#"%byte :: "3"%byte :: "4"%byte :: ";"%byte :: l)
      with (bs "&#" ++ replicate 0 "0"%byte ++ bs "34;" ++ l).
    rewrite H. reflexivity.
  - destruct (quote_entity_spellings 0 l) as (_ & H & _).
    change (escapedSingleQuoteBytes ++ l)
      with ("&"%byte :: "#"%byte :: "3"%byte :: "9"%byte :: ";"%byte :: l).
    cbn [escapeSpec]. change (beq "&" "&") with true. cbv iota.
    change ("&"%byte :: "#"%byte :: "3"%byte :: "9"%byte :: ";"%byte :: l)
      with (bs "&#" ++ replicate 0 "0"%byte ++ bs "39;" ++ l).
    rewrite H. reflexivity.
Qed.

(** The rebuilt value is never the value itself. *)
Lemma rebuilt_differs q esc :
  escapePair q esc ->
  forall n X, length X <= n -> X <> esc ++ escapeSpec q esc 0 (X ++ [q]).
Proof.
  intros Hp. assert (Hlen : length esc = 5) by (destruct Hp as [(_ & ->) | (_ & ->)]; reflexivity).
  induction n as [|n IH]; intros X Hn HX.
  - apply (f_equal length) in HX. rewrite length_app in HX. lia.
  - remember (escapeSpec q esc 0 (X ++ [q])) as R eqn:HR. subst X.
    rewrite <- app_assoc, (escapeSpec_escaped_head q esc (R ++ [q]) Hp) in HR.
    apply (IH R); [rewrite length_app in Hn; lia | exact HR].
Qed.

(** X28: [escapeAttrVal] returns the value itself exactly when the value is
    plain: no quote, no quote entity, none of the bytes ` < = > and no
    whitespace. *)
Theorem X28_unquoted_iff_plain (orig b : bytes) :
  escapeAttrVal orig b = Returns b <-> plain b = true.
Proof.
  split; [|apply escapeAttrVal_plain].
  intros H. destruct (plain b) eqn:Hp; [reflexivity|]. exfalso.
  destruct (reuse_dec orig b) as [(Hs & Hd & Hl) | Hno].
  { rewrite (escapeAttrVal_reuse orig b Hp Hs Hd Hl) in H. injection H as ->. lia. }
  rewrite escapeAttrVal_rebuild in H by assumption.
  destruct (_ <=? _); [|discriminate]. injection H as H.
  assert (Hpair : escapePair (chosenQuote b) (chosenEscape b)).
  { destruct (chosen_cases b) as [(-> & -> & _) | (-> & -> & _)];
      [right | left]; split; reflexivity. }
  set (q := chosenQuote b) in *. set (esc := chosenEscape b) in *.
  set (body := escapeSpec q esc 0 b) in *.
  assert (Hb : body = esc ++ escapeSpec q esc 0 (body ++ [q])).
  { unfold body at 1. rewrite <- H at 1. apply escapeSpec_quote_head. exact Hpair. }
  exact (rebuilt_differs q esc Hpair (length body) body (le_n _) Hb).
Qed.

(** X29: [escapeAttrVal] panics exactly when the value is not plain, the
    original bytes are not reused, and the escaped body is longer than the
    value. *)
Theorem X29_escapeAttrVal_panics_exactly (orig b : bytes) :
  escapeAttrVal orig b = Panics
  <-> plain b = false
      /\ ~ (literalCount squote b + entityCount squote b = 0
            /\ literalCount dquote b + entityCount dquote b = 0
            /\ length orig = length b + 2)
      /\ length b < length (escapeSpec (chosenQuote b) (chosenEscape b) 0 b).
Proof. apply escapeAttrVal_panics_iff. Qed.

(** ** The scan behind a trailing space *)

(** X30: The scan that decides whether the trailing space of a text is
    trimmed passes over every token that is not a text, a start tag or the
    end of the stream, and over inline end tags.  At the token where it
    stops it trims at the end of the stream, before a text that begins with
    whitespace and before a start or end tag that is not inline; it keeps the
    space before an inline start tag and before a text that is empty or
    begins with another byte. *)
Theorem X30_trailing_space_scan (E : Env) (skip l : list Token) :
  Forall (fun x =>
            TokenType x <> html.ErrorToken
            /\ TokenType x <> html.TextToken
            /\ TokenType x <> html.StartTagToken
            /\ (TokenType x = html.EndTagToken -> inlineTagMap E (Hash x) = true)) skip ->
  match l with
  | next :: _ =>
      TokenType next = html.ErrorToken
      \/ TokenType next = html.TextToken
      \/ TokenType next = html.StartTagToken
      \/ (TokenType next = html.EndTagToken /\ inlineTagMap E (Hash next) = false)
  | [] => True
  end ->
  trimScan E (skip ++ l)
  = match l with
    | [] => true
    | next :: _ =>
        if teq (TokenType next) html.TextToken
        then match data next with
             | c :: _ => IsWhitespace c
             | [] => false
             end
        else negb (inlineTagMap E (Hash next))
             || teq (TokenType next) html.ErrorToken
    end.
Proof.
  intros Hskip Hnext. induction Hskip as [|x skip (H1 & H2 & H3 & H4) _ IH].
  - cbn [app]. destruct l as [|next l']; [reflexivity|].
    cbn [trimScan].
    destruct Hnext as [H | [H | [H | [H Hi]]]]; rewrite H.
    + change (teq html.ErrorToken html.TextToken) with false.
      change (teq html.ErrorToken html.ErrorToken) with true.
      rewrite orb_true_r. reflexivity.
    + reflexivity.
    + change (teq html.StartTagToken html.TextToken) with false.
      change (teq html.StartTagToken html.ErrorToken) with false.
      rewrite orb_false_r. reflexivity.
    + change (teq html.EndTagToken html.TextToken) with false.
      rewrite Hi. reflexivity.
  - cbn [app trimScan].
    destruct (TokenType x) eqn:HT; try contradiction; try exact IH.
    rewrite (H4 eq_refl). exact IH.
Qed.

Lemma X30_trailing_space_scan_witness :
  trimScan Sample.env ([Sample.comment "x"; Sample.endTag "span" html.Span]
                         ++ [Sample.startTag "span" html.Span])
  = if teq (TokenType (Sample.startTag "span" html.Span)) html.TextToken
    then match data (Sample.startTag "span" html.Span) with
         | c :: _ => IsWhitespace c
         | [] => false
         end
    else negb (inlineTagMap Sample.env (Hash (Sample.startTag "span" html.Span)))
         || teq (TokenType (Sample.startTag "span" html.Span)) html.ErrorToken.
Proof.
  apply (X30_trailing_space_scan Sample.env
           [Sample.comment "x"; Sample.endTag "span" html.Span]
           [Sample.startTag "span" html.Span]).
  - repeat constructor; try discriminate.
  - right. right. left. reflexivity.
Defined.

(** ** A second pass over the output *)

(** *** What Minify writes for a document *)









Lemma serialize_app x y : serialize (x ++ y) = serialize x ++ serialize y.
Proof.
  induction x as [|a x IH]; [reflexivity|].
  cbn [serialize app]. rewrite IH, app_assoc. reflexivity.
Qed.


(** *** What trimText leaves *)

Lemma collapsed_head_ws prev c d :
  collapsed prev (c :: d) -> IsWhitespace c = true -> c = " "%byte.
Proof. cbn. intros H Hc. rewrite Hc in H. tauto. Qed.








(** *** The scans see the same in the output *)



(** *** The output is settled *)




(** *** Runs of text *)
















